(** * metaschema-langserver: virtual file system, workspace synchronizer
      and request dispatcher

    A shallow embedding of [src/memfs.ts] (the in-memory file system),
    of the helpers of [src/util.ts] it relies on, of [ProjectManager]
    (the workspace synchronizer) and of [registerLanguageHandler] (the
    JSON-RPC dispatcher), followed by the properties established for
    them.

    JavaScript strings are represented by their UTF-8 bytes ([string]);
    [Map] objects by [gmap]; a value that may be [undefined] by [option];
    a call that may throw by an [Outcome]. *)

From Stdlib Require Import ZArith String Ascii List Bool Lia.
From stdpp Require Import base option list gmap strings.

Local Open Scope bool_scope.

(** ** Calls that may throw, and calls that also change an object *)

Inductive Outcome (A : Type) : Type :=
| Returned (a : A)
| Thrown (message : string).
Arguments Returned {A} a.
Arguments Thrown {A} message.

(** [Eff S A]: a method of an object with state [S]; the state is
    returned also when the method throws, because the mutations made
    before the [throw] stay. *)
Definition Eff (S A : Type) : Type := S -> Outcome A * S.

Definition ret {S A} (a : A) : Eff S A := fun s => (Returned a, s).
Definition throw {S A} (message : string) : Eff S A := fun s => (Thrown message, s).
Definition bind {S A B} (m : Eff S A) (k : A -> Eff S B) : Eff S B :=
  fun s => match m s with
           | (Returned a, s') => k a s'
           | (Thrown e, s') => (Thrown e, s')
           end.
Definition modify {S} (f : S -> S) : Eff S unit := fun s => (Returned tt, f s).
Definition gets {S A} (f : S -> A) : Eff S A := fun s => (Returned (f s), s).
Definition lift {S A} (o : Outcome A) : Eff S A := fun s => (o, s).

Declare Scope eff_scope.
Delimit Scope eff_scope with eff.
Notation "'let!' x ':=' m 'in' k" := (bind m (fun x => k))
  (at level 10, x name, m at level 100, k at level 200) : eff_scope.
Notation "m ';;' k" := (bind m (fun _ => k))
  (at level 100, k at level 200, right associativity) : eff_scope.

(** ** util.ts *)

Module Util.

Definition isSep (c : ascii) : bool :=            (* [\\\/] *)
  Ascii.eqb c "/" || Ascii.eqb c "\".

Definition isLetter (c : ascii) : bool :=         (* [a-z] with the i flag *)
  let n := nat_of_ascii c in
  ((65 <=? n) && (n <=? 90)) || ((97 <=? n) && (n <=? 122)).

Definition isDigit (c : ascii) : bool :=
  let n := nat_of_ascii c in (48 <=? n) && (n <=? 57).

(** [s.startsWith(p)], [s.includes(needle)] and a match of [/suffix$/]
    for a literal suffix. *)
Definition startsWith (s p : string) : bool := String.prefix p s.

Fixpoint includes (s needle : string) : bool :=
  String.prefix needle s ||
  match s with
  | EmptyString => false
  | String _ s' => includes s' needle
  end.

Definition endsWith (s suffix : string) : bool :=
  let n := String.length s in
  let k := String.length suffix in
  (k <=? n) && String.eqb (substring (n - k) k s) suffix.

(** [s.split(/[\\\/]/)]: the first segment and the others (the result
    of [split] is never empty). *)
Fixpoint splitPath (s : string) : string * list string :=
  match s with
  | EmptyString => (EmptyString, [])
  | String c s' =>
      let '(seg, segs) := splitPath s' in
      if isSep c then (EmptyString, seg :: segs)
      else (String c seg, segs)
  end.

Definition hexDigit (n : nat) : ascii :=
  ascii_of_nat (if n <? 10 then 48 + n else 55 + n).

Definition isUnreserved (c : ascii) : bool :=     (* A-Z a-z 0-9 - _ . ! ~ * ' ( ) *)
  isLetter c || isDigit c ||
  existsb (Ascii.eqb c) ["-"; "_"; "."; "!"; "~"; "*"; "'"; "("; ")"]%char.

(** [encodeURIComponent]: every byte of the UTF-8 form that is not
    unreserved becomes [%XX]. *)
Fixpoint encodeURIComponent (s : string) : string :=
  match s with
  | EmptyString => EmptyString
  | String c s' =>
      if isUnreserved c then String c (encodeURIComponent s')
      else String "%" (String (hexDigit (nat_of_ascii c / 16))
             (String (hexDigit (nat_of_ascii c mod 16)) (encodeURIComponent s')))
  end.

(** [/^(?:[a-z]:)?[\\\/]/i.test(path)] *)
Definition isAbsolutePath (path : string) : bool :=
  match path with
  | EmptyString => false
  | String c0 rest =>
      isSep c0 ||
      (isLetter c0 &&
       match rest with
       | String ":" (String c2 _) => isSep c2
       | _ => false
       end)
  end.

Definition path2uri (path : string) : Outcome string :=
  if negb (isAbsolutePath path) then
    Thrown (path +:+ " is not an absolute path")
  else
    let '(head, parts) := splitPath path in
    let head' := if String.eqb head "" then encodeURIComponent head
                 else "/" +:+ head in
    Returned ("file://" +:+ head' +:+ "/" +:+
              String.concat "/" (map encodeURIComponent parts)).

(** What [uri2path] takes from Node: [url.parse] (only the two fields
    read) and [decodeURIComponent], which throws on a malformed
    escape. *)
Record UrlObject := { protocol : option string; pathname : option string }.

Class NodeRuntime := {
  url_parse : string -> UrlObject;
  decodeURIComponent : string -> Outcome string
}.

(** [/^\/[a-z]:\//i.test(filePath)] *)
Definition isDrivePath (filePath : string) : bool :=
  match filePath with
  | String "/" (String l (String ":" (String "/" _))) => isLetter l
  | _ => false
  end.

Fixpoint slashesToBackslashes (s : string) : string :=   (* replace(/\//g, '\\') *)
  match s with
  | EmptyString => EmptyString
  | String c s' =>
      String (if Ascii.eqb c "/" then "\"%char else c) (slashesToBackslashes s')
  end.

Definition uri2path `{NodeRuntime} (uri : string) : Outcome string :=
  let parts := url_parse uri in
  if negb (bool_decide (protocol parts = Some "file:")) then
    Thrown ("Cannot resolve non-file uri to path: " +:+ uri)
  else
    let filePath := default "" (pathname parts) in
    let filePath :=
      if isDrivePath filePath
      then slashesToBackslashes (substring 1 (String.length filePath - 1) filePath)
      else filePath in
    decodeURIComponent filePath.

Definition isSchemaFile (filePath : string) : bool :=      (* /\.schema$/ *)
  endsWith filePath ".schema".

Definition isMetaschemaFile (filePath : string) : bool :=
  includes filePath "/metaschema/schemas".

Definition isPackageJsonFile (filename : string) : bool := (* /(^|\/)package\.json$/ *)
  String.eqb filename "package.json" || endsWith filename "/package.json".

Definition isDependencyFile (filename : string) : bool :=
  startsWith filename "node_modules/" || includes filename "/node_modules/".

End Util.

(** ** memfs.ts *)

Module Memfs.
Import Util.

(** In-memory file cache node: a folder or a file.  [children] is the
    node's [Map], in insertion order. *)
#[local] Unset Elimination Schemes.
Inductive FileSystemNode : Type :=
| mkNode (file : bool) (children : list (string * FileSystemNode)).

#[local] Set Elimination Schemes.

Definition file (n : FileSystemNode) : bool := let 'mkNode f _ := n in f.
Definition children (n : FileSystemNode) : list (string * FileSystemNode) :=
  let 'mkNode _ cs := n in cs.

Fixpoint childGet (name : string) (cs : list (string * FileSystemNode))
  : option FileSystemNode :=
  match cs with
  | [] => None
  | (k, n) :: cs' => if String.eqb k name then Some n else childGet name cs'
  end.

Fixpoint childSet (name : string) (n : FileSystemNode)
    (cs : list (string * FileSystemNode)) : list (string * FileSystemNode) :=
  match cs with
  | [] => [(name, n)]
  | (k, m) :: cs' =>
      if String.eqb k name then (k, n) :: cs' else (k, m) :: childSet name n cs'
  end.

Definition emptyFolder : FileSystemNode := mkNode false [].
Definition emptyFile : FileSystemNode := mkNode true [].

(** The loop of [add] over [components.entries()], started at [node]. *)
Fixpoint addToTree (components : list string) (node : FileSystemNode)
  : FileSystemNode :=
  match components with
  | [] => node
  | component :: rest =>
      match childGet component (children node) with
      | None =>
          match rest with
          | _ :: _ =>
              mkNode (file node)
                (childSet component (addToTree rest emptyFolder) (children node))
          | [] => mkNode (file node) (childSet component emptyFile (children node))
          end
      | Some n =>
          mkNode (file node) (childSet component (addToTree rest n) (children node))
      end
  end.

Record InMemoryFileSystem := mkFs {
  overlay : gmap string string;
  useCaseSensitiveFileNames : bool;
  path : string;
  rootNode : FileSystemNode;
  files : gmap string (option string);
  fileFilter : string -> bool;
  warnings : list string;                      (* logger.warn *)
  emitted : list (string * option string)      (* 'add' events *)
}.

Definition new (path : string) (fileFilter : string -> bool) : InMemoryFileSystem :=
  {| overlay := ∅; useCaseSensitiveFileNames := true; path := path;
     rootNode := emptyFolder; files := ∅; fileFilter := fileFilter;
     warnings := []; emitted := [] |}.

Definition set_overlay (f : gmap string string -> gmap string string)
    (fs : InMemoryFileSystem) : InMemoryFileSystem :=
  {| overlay := f (overlay fs);
     useCaseSensitiveFileNames := useCaseSensitiveFileNames fs; path := path fs;
     rootNode := rootNode fs; files := files fs; fileFilter := fileFilter fs;
     warnings := warnings fs; emitted := emitted fs |}.

Definition set_files (f : gmap string (option string) -> gmap string (option string))
    (fs : InMemoryFileSystem) : InMemoryFileSystem :=
  {| overlay := overlay fs;
     useCaseSensitiveFileNames := useCaseSensitiveFileNames fs; path := path fs;
     rootNode := rootNode fs; files := f (files fs); fileFilter := fileFilter fs;
     warnings := warnings fs; emitted := emitted fs |}.

Definition set_rootNode (f : FileSystemNode -> FileSystemNode)
    (fs : InMemoryFileSystem) : InMemoryFileSystem :=
  {| overlay := overlay fs;
     useCaseSensitiveFileNames := useCaseSensitiveFileNames fs; path := path fs;
     rootNode := f (rootNode fs); files := files fs; fileFilter := fileFilter fs;
     warnings := warnings fs; emitted := emitted fs |}.

Definition warn (message : string) (fs : InMemoryFileSystem) : InMemoryFileSystem :=
  {| overlay := overlay fs;
     useCaseSensitiveFileNames := useCaseSensitiveFileNames fs; path := path fs;
     rootNode := rootNode fs; files := files fs; fileFilter := fileFilter fs;
     warnings := warnings fs ++ [message]; emitted := emitted fs |}.

Definition emit (uri : string) (content : option string)
    (fs : InMemoryFileSystem) : InMemoryFileSystem :=
  {| overlay := overlay fs;
     useCaseSensitiveFileNames := useCaseSensitiveFileNames fs; path := path fs;
     rootNode := rootNode fs; files := files fs; fileFilter := fileFilter fs;
     warnings := warnings fs; emitted := emitted fs ++ [(uri, content)] |}.

(** [this.files.has(uri)] and [this.files.get(uri)]: a key may be
    present with the value [undefined]. *)
Definition filesHas (fs : InMemoryFileSystem) (uri : string) : bool :=
  bool_decide (is_Some (files fs !! uri)).
Definition filesGet (fs : InMemoryFileSystem) (uri : string) : option string :=
  mjoin (files fs !! uri).
Definition overlayHas (fs : InMemoryFileSystem) (uri : string) : bool :=
  bool_decide (is_Some (overlay fs !! uri)).

(** [uris()]: the keys of [files]. *)
Definition uris (fs : InMemoryFileSystem) : list string :=
  (map_to_list (files fs)).*1.

Definition nonEmpty (c : string) : bool := negb (String.eqb c "").

Definition pathComponents (filePath : string) : list string :=
  let '(seg, segs) := splitPath filePath in List.filter nonEmpty (seg :: segs).

Section WithRuntime.
Context `{NodeRuntime}.
Local Open Scope eff_scope.

Definition add (uri : string) (content : option string)
  : Eff InMemoryFileSystem unit :=
  let! accepted := gets (fun fs => fileFilter fs uri) in
  if negb accepted then ret tt
  else
    let! known := gets (fun fs => filesHas fs uri) in
    (if bool_decide (is_Some content) || negb known
     then modify (set_files <[uri := content]>)
     else ret tt) ;;
    let! filePath := lift (uri2path uri) in
    modify (set_rootNode (addToTree (pathComponents filePath))) ;;
    modify (emit uri content).

Definition fileExists (fs : InMemoryFileSystem) (path : string) : Outcome bool :=
  match path2uri path with
  | Thrown e => Thrown e
  | Returned uri => Returned (overlayHas fs uri || filesHas fs uri)
  end.

Definition has (fs : InMemoryFileSystem) (uri : string) : Outcome bool :=
  if filesHas fs uri then Returned true
  else match uri2path uri with
       | Thrown e => Thrown e
       | Returned p => fileExists fs p
       end.

Definition getContent (fs : InMemoryFileSystem) (uri : string) : Outcome string :=
  let content := overlay fs !! uri in
  let content := match content with
                 | None => filesGet fs uri
                 | Some _ => content
                 end in
  match content with
  | None => Thrown ("Content of " +:+ uri +:+ " is not available in memory")
  | Some c => Returned c
  end.

Definition readFileIfExists (fs : InMemoryFileSystem) (path : string)
  : Outcome (option string) :=
  match path2uri path with
  | Thrown e => Thrown e
  | Returned uri =>
      match overlay fs !! uri with
      | Some content => Returned (Some content)
      | None => Returned (filesGet fs uri)
      end
  end.

Definition readFile (path : string) : Eff InMemoryFileSystem string :=
  let! content := (fun fs => (readFileIfExists fs path, fs)) in
  match content with
  | None =>
      modify (warn ("readFile " +:+ path +:+ " requested but content not available")) ;;
      ret ""
  | Some c => ret c
  end.

Definition didClose (uri : string) : Eff InMemoryFileSystem unit :=
  modify (set_overlay (delete uri)).

Definition didSave (uri : string) : Eff InMemoryFileSystem unit :=
  let! content := gets (fun fs => overlay fs !! uri) in
  match content with
  | Some c => add uri (Some c)
  | None => ret tt
  end.

Definition didChange (uri text : string) : Eff InMemoryFileSystem unit :=
  modify (set_overlay <[uri := text]>).

End WithRuntime.

End Memfs.

(** ** project-manager.ts *)

Module ProjectManager.
Import Util Memfs.

(** The language indexer, as the [LanguageService] interface declares
    it: [updateFile(filePath): boolean], reading the file system it was
    built on and changing its own entity tables.  The class gives what a
    call that returns does; a call that throws inside a pipeline is the
    event [IndexerThrew] below. *)
Class LanguageService (Svc : Type) := {
  updateFile : InMemoryFileSystem -> string -> Svc -> bool * Svc
}.

(** The predicates handed to [.filter(...)] by the three pipelines. *)
Definition basicFilter (uri : string) : bool :=
  isMetaschemaFile uri && isSchemaFile uri.
Definition ownFilter (uri : string) : bool :=
  (negb (includes uri "/node_modules/") && isSchemaFile uri) || isPackageJsonFile uri.
Definition allFilter (uri : string) : bool :=
  isSchemaFile uri || isPackageJsonFile uri.

Inductive PipelineKind := BasicFiles | OwnFiles | AllFiles.

Definition pipelineFilter (k : PipelineKind) : string -> bool :=
  match k with
  | BasicFiles => basicFilter
  | OwnFiles => ownFilter
  | AllFiles => allFilter
  end.

(** An observable built by [ensure...Files] is an object; [Handle] is
    its identity (its rank among the pipelines built so far).

    [publishReplay().refCount()] subscribes the source when the first
    subscriber arrives and unsubscribes it when the last one leaves:
    - [Cold]: source not subscribed;
    - [AwaitStructure]: subscribed, [ensureStructure()] not yet complete;
    - [Fetching pending]: the URIs were enumerated and [ensure(uri)] was
      called for each; [pending] are those still in flight;
    - [Completed], [Failed]: terminated; later subscribers get the replay. *)
Definition Handle := nat.

Inductive PipelineState :=
| Cold
| AwaitStructure
| Fetching (pending : list string)
| Completed
| Failed.

Record Pipeline := mkPipeline {
  kind : PipelineKind;
  state : PipelineState;
  refCount : nat
}.

Inductive UpdaterCall :=
| EnsureStructure                         (* updater.ensureStructure() *)
| Ensure (by_ : Handle) (uri : string).   (* updater.ensure(uri), from a pipeline *)

Inductive LogEntry :=
| LogLine (message : string)
| LogError (message : string) (err : string).

Record ProjectManager {Svc : Type} := mkPm {
  rootPath : string;
  inMemoryFs : InMemoryFileSystem;
  service : Svc;
  versions : gmap string Z;
  ensuredAllFiles : option Handle;
  ensuredOwnFiles : option Handle;
  ensuredBasicFiles : option Handle;
  pipelines : list Pipeline;               (* the observables built so far *)
  updaterCalls : list UpdaterCall;         (* calls made on the updater *)
  logged : list LogEntry                   (* calls made on the logger *)
}.
Arguments ProjectManager Svc : clear implicits.

Section WithService.
Context {Svc : Type} `{LanguageService Svc} `{NodeRuntime}.
Local Abbreviation PM := (ProjectManager Svc).

Definition new (rootPath : string) (fs : InMemoryFileSystem) (svc : Svc) : PM :=
  {| rootPath := rootPath; inMemoryFs := fs; service := svc; versions := ∅;
     ensuredAllFiles := None; ensuredOwnFiles := None; ensuredBasicFiles := None;
     pipelines := []; updaterCalls := []; logged := [] |}.

Definition set_inMemoryFs (f : InMemoryFileSystem -> InMemoryFileSystem) (pm : PM) : PM :=
  {| rootPath := rootPath pm; inMemoryFs := f (inMemoryFs pm); service := service pm;
     versions := versions pm; ensuredAllFiles := ensuredAllFiles pm;
     ensuredOwnFiles := ensuredOwnFiles pm; ensuredBasicFiles := ensuredBasicFiles pm;
     pipelines := pipelines pm; updaterCalls := updaterCalls pm; logged := logged pm |}.

Definition set_service (f : Svc -> Svc) (pm : PM) : PM :=
  {| rootPath := rootPath pm; inMemoryFs := inMemoryFs pm; service := f (service pm);
     versions := versions pm; ensuredAllFiles := ensuredAllFiles pm;
     ensuredOwnFiles := ensuredOwnFiles pm; ensuredBasicFiles := ensuredBasicFiles pm;
     pipelines := pipelines pm; updaterCalls := updaterCalls pm; logged := logged pm |}.

Definition set_versions (f : gmap string Z -> gmap string Z) (pm : PM) : PM :=
  {| rootPath := rootPath pm; inMemoryFs := inMemoryFs pm; service := service pm;
     versions := f (versions pm); ensuredAllFiles := ensuredAllFiles pm;
     ensuredOwnFiles := ensuredOwnFiles pm; ensuredBasicFiles := ensuredBasicFiles pm;
     pipelines := pipelines pm; updaterCalls := updaterCalls pm; logged := logged pm |}.

Definition set_slot (k : PipelineKind) (v : option Handle) (pm : PM) : PM :=
  {| rootPath := rootPath pm; inMemoryFs := inMemoryFs pm; service := service pm;
     versions := versions pm;
     ensuredAllFiles := match k with AllFiles => v | _ => ensuredAllFiles pm end;
     ensuredOwnFiles := match k with OwnFiles => v | _ => ensuredOwnFiles pm end;
     ensuredBasicFiles := match k with BasicFiles => v | _ => ensuredBasicFiles pm end;
     pipelines := pipelines pm; updaterCalls := updaterCalls pm; logged := logged pm |}.

Definition set_pipelines (f : list Pipeline -> list Pipeline) (pm : PM) : PM :=
  {| rootPath := rootPath pm; inMemoryFs := inMemoryFs pm; service := service pm;
     versions := versions pm; ensuredAllFiles := ensuredAllFiles pm;
     ensuredOwnFiles := ensuredOwnFiles pm; ensuredBasicFiles := ensuredBasicFiles pm;
     pipelines := f (pipelines pm); updaterCalls := updaterCalls pm; logged := logged pm |}.

Definition call_updater (cs : list UpdaterCall) (pm : PM) : PM :=
  {| rootPath := rootPath pm; inMemoryFs := inMemoryFs pm; service := service pm;
     versions := versions pm; ensuredAllFiles := ensuredAllFiles pm;
     ensuredOwnFiles := ensuredOwnFiles pm; ensuredBasicFiles := ensuredBasicFiles pm;
     pipelines := pipelines pm; updaterCalls := updaterCalls pm ++ cs; logged := logged pm |}.

Definition log (e : LogEntry) (pm : PM) : PM :=
  {| rootPath := rootPath pm; inMemoryFs := inMemoryFs pm; service := service pm;
     versions := versions pm; ensuredAllFiles := ensuredAllFiles pm;
     ensuredOwnFiles := ensuredOwnFiles pm; ensuredBasicFiles := ensuredBasicFiles pm;
     pipelines := pipelines pm; updaterCalls := updaterCalls pm; logged := logged pm ++ [e] |}.

Definition slot (k : PipelineKind) (pm : PM) : option Handle :=
  match k with
  | BasicFiles => ensuredBasicFiles pm
  | OwnFiles => ensuredOwnFiles pm
  | AllFiles => ensuredAllFiles pm
  end.

(** [this.updater.ensureStructure().concat(...) ... .publishReplay().refCount()]:
    [ensureStructure()] is called while the chain is built; the rest
    runs when the chain is subscribed. *)
Definition buildPipeline (k : PipelineKind) (pm : PM) : Handle * PM :=
  let h := length (pipelines pm) in
  (h, set_pipelines (fun ps => ps ++ [mkPipeline k Cold 0])
        (call_updater [EnsureStructure] pm)).

Definition ensureBasicFiles (pm : PM) : Handle * PM :=
  let pm := log (LogLine "Ensure basic files") pm in
  match ensuredBasicFiles pm with
  | Some h => (h, pm)
  | None =>
      let '(h, pm) := buildPipeline BasicFiles pm in
      (h, set_slot BasicFiles (Some h) pm)
  end.

Definition ensureOwnFiles (pm : PM) : Handle * PM :=
  let pm := log (LogLine "Ensure own files") pm in
  match ensuredOwnFiles pm with
  | Some h => (h, pm)
  | None =>
      let '(h, pm) := buildPipeline OwnFiles pm in
      (h, set_slot OwnFiles (Some h) pm)
  end.

Definition ensureAllFiles (pm : PM) : Handle * PM :=
  let pm := log (LogLine "Ensure all files") pm in
  match ensuredAllFiles pm with
  | Some h => (h, pm)
  | None =>
      let '(h, pm) := buildPipeline AllFiles pm in
      (h, set_slot AllFiles (Some h) pm)
  end.

Definition invalidateModuleStructure (pm : PM) : PM :=
  set_slot OwnFiles None (set_slot BasicFiles None (set_slot AllFiles None pm)).

Definition ensureSourceFile (filePath : string) (pm : PM) : bool * PM :=
  let '(b, svc) := updateFile (inMemoryFs pm) filePath (service pm) in
  (b, set_service (fun _ => svc) pm).

Definition failureMessage (k : PipelineKind) : string :=
  match k with
  | BasicFiles => "Failed to ensure BASIC files:"
  | OwnFiles => "Failed to ensure OWN files:"
  | AllFiles => "Failed to ensure ALL files:"
  end.

(** What happens to a pipeline after it was built. *)
Inductive PipelineEvent :=
| Subscribe (h : Handle)                        (* a caller subscribes *)
| Unsubscribe (h : Handle)                      (* a subscriber leaves *)
| StructureCompleted (h : Handle)               (* ensureStructure() completed *)
| Fetched (h : Handle) (uri : string)           (* ensure(uri) delivered and completed *)
| UpstreamError (h : Handle) (err : string)     (* ensureStructure() or ensure(uri) failed *)
| IndexerThrew (h : Handle) (uri err : string). (* updateFile(uri) threw in the next
                                                   callback of do() *)

Definition set_state (h : Handle) (p : Pipeline) (st : PipelineState) (pm : PM) : PM :=
  set_pipelines <[h := mkPipeline (kind p) st (refCount p)]> pm.

Definition running (st : PipelineState) : bool :=
  match st with
  | AwaitStructure | Fetching _ => true
  | _ => false
  end.

Definition afterFetch (pending : list string) : PipelineState :=
  match pending with
  | [] => Completed
  | _ :: _ => Fetching pending
  end.

Definition removeFirst (uri : string) (l : list string) : list string :=
  match list_find (fun u => u = uri) l with
  | Some (i, _) => take i l ++ drop (S i) l
  | None => l
  end.

Definition pipelineStep (ev : PipelineEvent) (pm : PM) : PM :=
  match ev with
  | Subscribe h =>
      match pipelines pm !! h with
      | Some p =>
          match state p with
          | Cold =>
              set_pipelines <[h := mkPipeline (kind p) AwaitStructure (S (refCount p))]> pm
          | AwaitStructure | Fetching _ =>
              set_pipelines <[h := mkPipeline (kind p) (state p) (S (refCount p))]> pm
          | Completed | Failed => pm
          end
      | None => pm
      end
  | Unsubscribe h =>
      match pipelines pm !! h with
      | Some p =>
          match refCount p with
          | 0 => pm
          | 1 =>
              set_pipelines
                <[h := mkPipeline (kind p)
                         (if running (state p) then Cold else state p) 0]> pm
          | S n => set_pipelines <[h := mkPipeline (kind p) (state p) n]> pm
          end
      | None => pm
      end
  | StructureCompleted h =>
      match pipelines pm !! h with
      | Some p =>
          match state p with
          | AwaitStructure =>
              let matching :=
                List.filter (pipelineFilter (kind p)) (uris (inMemoryFs pm)) in
              set_state h p (afterFetch matching)
                (call_updater (map (Ensure h) matching) pm)
          | _ => pm
          end
      | None => pm
      end
  | Fetched h uri =>
      match pipelines pm !! h with
      | Some p =>
          match state p with
          | Fetching pending =>
              if bool_decide (uri ∈ pending) then
                let '(_, svc) := updateFile (inMemoryFs pm) uri (service pm) in
                set_state h p (afterFetch (removeFirst uri pending))
                  (set_service (fun _ => svc) pm)
              else pm
          | _ => pm
          end
      | None => pm
      end
  | UpstreamError h err =>
      match pipelines pm !! h with
      | Some p =>
          if running (state p) then
            set_state h p Failed
              (set_slot (kind p) None
                 (log (LogError (failureMessage (kind p)) err) pm))
          else pm
      | None => pm
      end
  | IndexerThrew h uri err =>
      (* do() hands what its next callback throws to the subscriber
         downstream and does not call its own error callback: the
         pipeline fails, nothing is logged and the slot is kept *)
      match pipelines pm !! h with
      | Some p =>
          match state p with
          | Fetching pending =>
              if bool_decide (uri ∈ pending) then set_state h p Failed pm else pm
          | _ => pm
          end
      | None => pm
      end
  end.

(** What can happen to a project manager between two moments: a caller
    asks for a pipeline, a pipeline progresses, the updater adds a file
    to the file system, the module structure is invalidated. *)
Inductive Activity :=
| CallEnsure (k : PipelineKind)
| Happens (ev : PipelineEvent)
| Adds (uri : string) (content : option string)
| Invalidates.

Definition ensureFiles (k : PipelineKind) (pm : PM) : Handle * PM :=
  match k with
  | BasicFiles => ensureBasicFiles pm
  | OwnFiles => ensureOwnFiles pm
  | AllFiles => ensureAllFiles pm
  end.

Definition perform (a : Activity) (pm : PM) : PM :=
  match a with
  | CallEnsure k => snd (ensureFiles k pm)
  | Happens ev => pipelineStep ev pm
  | Adds uri content => set_inMemoryFs (fun fs => snd (Memfs.add uri content fs)) pm
  | Invalidates => invalidateModuleStructure pm
  end.

Definition performAll (acts : list Activity) (pm : PM) : PM :=
  foldl (fun pm a => perform a pm) pm acts.

(** The URIs for which pipeline [h] called [updater.ensure], in order. *)
Definition ensuredBy (h : Handle) (calls : list UpdaterCall) : list string :=
  omap (fun c => match c with
                 | Ensure h' uri => if Nat.eqb h' h then Some uri else None
                 | EnsureStructure => None
                 end) calls.

(** Activities under which pipeline [h] keeps a subscriber (one may
    leave while another stays) and no pipeline fails or is invalidated. *)
Definition steady (h : Handle) (a : Activity) (pm : PM) : bool :=
  match a with
  | Happens (Unsubscribe h') =>
      negb (Nat.eqb h' h) ||
      match pipelines pm !! h with
      | Some p => 2 <=? refCount p
      | None => true
      end
  | Happens (UpstreamError _ _) => false
  | Happens (IndexerThrew _ _ _) => false
  | Invalidates => false
  | _ => true
  end.

Fixpoint steadyAll (h : Handle) (acts : list Activity) (pm : PM) : bool :=
  match acts with
  | [] => true
  | a :: acts => steady h a pm && steadyAll h acts (perform a pm)
  end.

(** The calls recorded so far come from pipelines that exist. *)
Definition callsFromBuilt (pm : PM) : Prop :=
  forall h uri, Ensure h uri ∈ updaterCalls pm -> h < length (pipelines pm).

(** Pipeline [h] is the memoized own-files pipeline and has enumerated
    the workspace at most once: it called [ensure] for distinct URIs that
    pass its filter, and for none before the structure was complete. *)
Definition singleFlight (h : Handle) (pm : PM) : Prop :=
  ensuredOwnFiles pm = Some h /\
  exists p, pipelines pm !! h = Some p /\ kind p = OwnFiles /\
    NoDup (ensuredBy h (updaterCalls pm)) /\
    Forall (fun uri => ownFilter uri = true) (ensuredBy h (updaterCalls pm)) /\
    match state p with
    | Cold | AwaitStructure => ensuredBy h (updaterCalls pm) = []
    | _ => True
    end.

(** The editor notifications. *)
Local Open Scope eff_scope.

Definition onFs {A} (m : Eff InMemoryFileSystem A) : Eff PM A :=
  fun pm => let '(r, fs) := m (inMemoryFs pm) in (r, set_inMemoryFs (fun _ => fs) pm).

Definition versionOf (pm : PM) (uri : string) : Z :=      (* this.versions.get(uri) || 0 *)
  default 0%Z (versions pm !! uri).

Definition bumpVersion (uri : string) (pm : PM) : PM :=
  let version := versionOf pm uri in
  set_versions <[uri := (version + 1)%Z]> pm.

Definition reindex (filePath : string) (pm : PM) : PM :=
  snd (ensureSourceFile filePath pm).

Definition didClose (uri : string) : Eff PM unit :=
  let! filePath := lift (uri2path uri) in
  onFs (Memfs.didClose uri) ;;
  modify (bumpVersion uri) ;;
  modify (reindex filePath).

Definition didChange (uri text : string) : Eff PM unit :=
  let! filePath := lift (uri2path uri) in
  onFs (Memfs.didChange uri text) ;;
  modify (bumpVersion uri) ;;
  modify (reindex filePath).

Definition didOpen (uri text : string) : Eff PM unit :=
  didChange uri text.

Definition didSave (uri : string) : Eff PM unit :=
  onFs (Memfs.didSave uri).

End WithService.

End ProjectManager.

(** ** connection.ts: [registerLanguageHandler] *)

Module Connection.

(** A request id is a string or a number; as [Map] keys the number [1]
    and the string ["1"] differ. *)
Inductive RequestId :=
| IdNumber (n : Z)
| IdString (s : string).

#[global] Instance RequestId_eq_dec : EqDecision RequestId.
Proof. solve_decision. Defined.

#[global] Instance RequestId_countable : Countable RequestId.
Proof.
  refine (inj_countable'
            (fun i => match i with IdNumber n => inl n | IdString s => inr s end)
            (fun x => match x with inl n => IdNumber n | inr s => IdString s end) _).
  by intros [].
Defined.

(** [ErrorCodes] of vscode-jsonrpc. *)
Definition MethodNotFound : Z := -32601.
Definition UnknownErrorCode : Z := -32001.
Definition RequestCancelled : Z := -32800.

(** What the dispatcher takes from its libraries and from the messages:
    JSON values, patch operations and thrown values stay abstract.
    - [applyReducer] of fast-json-patch returns the patched document or
      throws;
    - [errMessage err] is [err.message + ''], [errCode err] is [err.code]
      when it is a number, [errData err] is [omit(err, ['message', 'code'])];
    - [cancelId params] is [params.id] of a [$/cancelRequest] when it is a
      string or a number; [declaresStreaming params] is
      [params.capabilities.streaming || false] of an [initialize];
    - [camelCase] of lodash. *)
Class Libraries (Json Operation Err Params : Type) := {
  null : Json;
  applyReducer : Json -> Operation -> Err + Json;
  errMessage : Err -> string;
  errCode : Err -> option Z;
  errData : Err -> Json;
  cancelId : Params -> option RequestId;
  declaresStreaming : Params -> bool;
  camelCase : string -> string
}.

Section Dispatcher.
Context {Json Operation Err Params : Type} `{Libraries Json Operation Err Params}.

(** The handler object: [hasMethod name] is
    [typeof handler[name] === 'function']. *)
Variable hasMethod : string -> bool.

(** An incoming message, as the type guards sort it:
    [isResponseMessage] first, then [isRequestMessage] or
    [isNotificationMessage], else invalid. *)
Inductive Message :=
| ResponseMessage
| RequestMessage (id : RequestId) (method : string) (params : Params)
| NotificationMessage (method : string) (params : Params)
| InvalidMessage.

(** What [messageWriter.write] is given. *)
Inductive Outgoing :=
| PartialResult (id : RequestId) (patch : list Operation)
| ResultResponse (id : RequestId) (result : Json)
| ErrorResponse (id : RequestId) (message : string) (code : Z)
                (data : option Json).

Inductive LogEntry :=
| LogError (message : string)
| LogWarn (message : string).

(** What an observable sends to its subscriber. *)
Inductive Signal :=
| Next (patch : Operation)
| Complete
| Error (err : Err).

(** A [Subscription] returned by [.subscribe(...)]: on a request it
    stands for the chain [do / reduce / finally / subscribe], whose state
    is the accumulator of [reduce]; [closed] once it completed, failed or
    was unsubscribed. *)
Inductive Purpose :=
| ForRequest (id : RequestId) (method : string)
| ForNotification (method : string).

Record Subscriber := mkSubscriber {
  purpose : Purpose;
  acc : Json;
  closed : bool
}.

Definition SubId := nat.

Record Dispatcher := mkDispatcher {
  subscriptions : gmap RequestId SubId;
  initialized : bool;
  streaming : bool;
  subscribers : list Subscriber;              (* the Subscription objects, by identity *)
  nextTick : list RequestId;                  (* queued by process.nextTick *)
  written : list Outgoing;                    (* messageWriter.write *)
  logged : list LogEntry;                     (* logger *)
  invoked : list (string * option Params)     (* calls made on the handler *)
}.

(** The state [registerLanguageHandler] starts the listeners with: no
    subscription, not initialized, no streaming. *)
Definition registerLanguageHandler : Dispatcher :=
  {| subscriptions := ∅; initialized := false; streaming := false;
     subscribers := []; nextTick := []; written := []; logged := [];
     invoked := [] |}.

Definition set_subscriptions (f : gmap RequestId SubId -> gmap RequestId SubId)
    (d : Dispatcher) : Dispatcher :=
  {| subscriptions := f (subscriptions d); initialized := initialized d;
     streaming := streaming d; subscribers := subscribers d; nextTick := nextTick d;
     written := written d; logged := logged d; invoked := invoked d |}.

Definition set_initialized (b : bool) (d : Dispatcher) : Dispatcher :=
  {| subscriptions := subscriptions d; initialized := b;
     streaming := streaming d; subscribers := subscribers d; nextTick := nextTick d;
     written := written d; logged := logged d; invoked := invoked d |}.

Definition set_streaming (b : bool) (d : Dispatcher) : Dispatcher :=
  {| subscriptions := subscriptions d; initialized := initialized d;
     streaming := b; subscribers := subscribers d; nextTick := nextTick d;
     written := written d; logged := logged d; invoked := invoked d |}.

Definition set_subscribers (f : list Subscriber -> list Subscriber)
    (d : Dispatcher) : Dispatcher :=
  {| subscriptions := subscriptions d; initialized := initialized d;
     streaming := streaming d; subscribers := f (subscribers d); nextTick := nextTick d;
     written := written d; logged := logged d; invoked := invoked d |}.

Definition set_nextTick (f : list RequestId -> list RequestId)
    (d : Dispatcher) : Dispatcher :=
  {| subscriptions := subscriptions d; initialized := initialized d;
     streaming := streaming d; subscribers := subscribers d; nextTick := f (nextTick d);
     written := written d; logged := logged d; invoked := invoked d |}.

Definition write (m : Outgoing) (d : Dispatcher) : Dispatcher :=
  {| subscriptions := subscriptions d; initialized := initialized d;
     streaming := streaming d; subscribers := subscribers d; nextTick := nextTick d;
     written := written d ++ [m]; logged := logged d; invoked := invoked d |}.

Definition log (e : LogEntry) (d : Dispatcher) : Dispatcher :=
  {| subscriptions := subscriptions d; initialized := initialized d;
     streaming := streaming d; subscribers := subscribers d; nextTick := nextTick d;
     written := written d; logged := logged d ++ [e]; invoked := invoked d |}.

Definition invoke (method : string) (params : option Params) (d : Dispatcher)
  : Dispatcher :=
  {| subscriptions := subscriptions d; initialized := initialized d;
     streaming := streaming d; subscribers := subscribers d; nextTick := nextTick d;
     written := written d; logged := logged d;
     invoked := invoked d ++ [(method, params)] |}.

(** The subscription ends (completion, error or [unsubscribe()]): it is
    closed, and on a request the [finally] callback queues
    [subscriptions.delete(message.id)] for the next tick. *)
Definition close (s : SubId) (sub : Subscriber) (d : Dispatcher) : Dispatcher :=
  let d := set_subscribers <[s := mkSubscriber (purpose sub) (acc sub) true]> d in
  match purpose sub with
  | ForRequest id _ => set_nextTick (fun q => q ++ [id]) d
  | ForNotification _ => d
  end.

Definition unsubscribe (s : SubId) (d : Dispatcher) : Dispatcher :=
  match subscribers d !! s with
  | Some sub => if closed sub then d else close s sub d
  | None => d
  end.

(** The error callback of a request's subscription. *)
Definition respondError (id : RequestId) (method : string) (err : Err)
    (d : Dispatcher) : Dispatcher :=
  write (ErrorResponse id (errMessage err)
           (default UnknownErrorCode (errCode err)) (Some (errData err)))
    (log (LogError ("Handler for " +:+ method +:+ " failed:")) d).

(** A signal reaches subscription [s]; a closed one hears nothing. *)
Definition deliver (s : SubId) (sig : Signal) (d : Dispatcher) : Dispatcher :=
  match subscribers d !! s with
  | None => d
  | Some sub =>
      if closed sub then d
      else
        match purpose sub, sig with
        | ForRequest id method, Next patch =>
            let d := if streaming d then write (PartialResult id [patch]) d else d in
            match applyReducer (acc sub) patch with
            | inr acc' =>
                set_subscribers <[s := mkSubscriber (purpose sub) acc' false]> d
            | inl err => close s sub (respondError id method err d)
            end
        | ForRequest id method, Complete =>
            close s sub (write (ResultResponse id (acc sub)) d)
        | ForRequest id method, Error err =>
            close s sub (respondError id method err d)
        | ForNotification method, Next _ => d
        | ForNotification method, Complete => close s sub d
        | ForNotification method, Error err =>
            close s sub (log (LogError ("Handle " +:+ method +:+ ":")) d)
        end
  end.

Definition deliverAll (s : SubId) (sigs : list Signal) (d : Dispatcher) : Dispatcher :=
  foldl (fun d sig => deliver s sig d) d sigs.

(** [for (const subscription of subscriptions.values()) subscription.unsubscribe()] *)
Definition unsubscribeAll (d : Dispatcher) : Dispatcher :=
  foldl (fun d s => unsubscribe s d) d ((map_to_list (subscriptions d)).*2).

(** The [switch (message.method)]: [None] when the case returns. *)
Definition lifecycle (method : string) (params : Params) (d : Dispatcher)
  : option Dispatcher :=
  if String.eqb method "initialize" then
    Some (set_streaming (declaresStreaming params) (set_initialized true d))
  else if String.eqb method "shutdown" then
    Some (set_initialized false d)
  else None.

Definition cancelRequest (params : Params) (d : Dispatcher) : Dispatcher :=
  let unknown := log (LogWarn "$/cancelRequest for unknown request ID") d in
  match cancelId params with
  | None => unknown
  | Some id =>
      match subscriptions d !! id with
      | None => unknown
      | Some s =>
          write (ErrorResponse id "Request cancelled" RequestCancelled None)
            (set_subscriptions (delete id) (unsubscribe s d))
      end
  end.

(** The listener of ['message'].  [sync] is what the observable made from
    the handler's return value sends while it is being subscribed (all of
    it for a plain value, [Error] alone for a handler that throws, nothing
    for a promise). *)
Definition onMessage (message : Message) (sync : list Signal) (d : Dispatcher)
  : Dispatcher :=
  match message with
  | ResponseMessage => d
  | InvalidMessage => log (LogError "Received invalid message:") d
  | RequestMessage _ method params | NotificationMessage method params =>
      if String.eqb method "exit" then unsubscribeAll d
      else if String.eqb method "$/cancelRequest" then cancelRequest params d
      else
        let d := default d (lifecycle method params d) in
        let name := camelCase method in
        if negb (hasMethod name) then
          match message with
          | RequestMessage id _ _ =>
              write (ErrorResponse id
                       ("Method " +:+ name +:+ " not implemented") MethodNotFound None) d
          | _ => log (LogWarn ("Method " +:+ name +:+ " not implemented")) d
          end
        else
          let d := invoke name (Some params) d in
          let s := length (subscribers d) in
          match message with
          | RequestMessage id _ _ =>
              let d := set_subscribers
                         (fun l => l ++ [mkSubscriber (ForRequest id method) null false]) d in
              let d := deliverAll s sync d in
              set_subscriptions <[id := s]> d
          | _ =>
              let d := set_subscribers
                         (fun l => l ++ [mkSubscriber (ForNotification name) null false]) d in
              deliverAll s sync d
          end
  end.

(** The listeners of ['close'] and ['error'] (registered with [once],
    which [MessageEmitter] forwards to [on]). *)
Definition onClose (errorMessage : string) (d : Dispatcher) : Dispatcher :=
  let d := unsubscribeAll d in
  if initialized d then
    invoke "shutdown" None (log (LogError errorMessage) (set_initialized false d))
  else d.

(** The callbacks queued by [process.nextTick] run when the current
    tick ends. *)
Definition runNextTick (d : Dispatcher) : Dispatcher :=
  set_nextTick (fun _ => [])
    (set_subscriptions (fun m => foldl (fun m id => delete id m) m (nextTick d)) d).

Inductive Event :=
| Receive (message : Message) (sync : list Signal)   (* 'message' *)
| Emit (s : SubId) (sig : Signal)                    (* an observable sends, later *)
| Close                                              (* 'close' *)
| StreamError.                                       (* 'error' *)

(** An event that comes in a tick of its own: the listener is called,
    or the signal is handled, and the tick ends. *)
Definition step (ev : Event) (d : Dispatcher) : Dispatcher :=
  runNextTick
    match ev with
    | Receive message sync => onMessage message sync d
    | Emit s sig => deliver s sig d
    | Close => onClose "Stream was closed without shutdown notification" d
    | StreamError => onClose "Stream:" d
    end.

Definition run (evs : list Event) (d : Dispatcher) : Dispatcher :=
  foldl (fun d ev => step ev d) d evs.

(** The left fold of [applyReducer] that [reduce] computes. *)
Fixpoint applyAll (doc : Json) (patches : list Operation) : Err + Json :=
  match patches with
  | [] => inr doc
  | p :: ps =>
      match applyReducer doc p with
      | inr doc' => applyAll doc' ps
      | inl err => inl err
      end
  end.

(** Subscription [s] serves request [id], is open, holds accumulator
    [a], and the peer declared streaming. *)
Definition streamingTo (s : SubId) (id : RequestId) (method : string) (a : Json)
    (d : Dispatcher) : Prop :=
  subscribers d !! s = Some (mkSubscriber (ForRequest id method) a false) /\
  streaming d = true.

(** Subscription [s] is open and serves a request with id [id]. *)
Definition openFor (id : RequestId) (d : Dispatcher) (s : SubId) : Prop :=
  exists sub method,
    subscribers d !! s = Some sub /\ closed sub = false /\
    purpose sub = ForRequest id method.

(** The results of the success responses written for [id], in order. *)
Definition resultsFor (id : RequestId) (out : list Outgoing) : list Json :=
  omap (fun o => match o with
                 | ResultResponse id' r => if decide (id' = id) then Some r else None
                 | _ => None
                 end) out.

(** Subscription [s] exists and is closed. *)
Definition closedAt (s : SubId) (d : Dispatcher) : Prop :=
  exists sub, subscribers d !! s = Some sub /\ closed sub = true.

(** No open subscription serves a request with id [id]. *)
Definition noneOpenFor (id : RequestId) (d : Dispatcher) : Prop :=
  forall s, ~ openFor id d s.

(** The event is a request that carries the id [id]. *)
Definition asksWith (id : RequestId) (ev : Event) : bool :=
  match ev with
  | Receive (RequestMessage id' _ _) _ => bool_decide (id' = id)
  | _ => false
  end.

End Dispatcher.

End Connection.

(** ** Fixtures for closed examples *)

Module Sample.
Import Util Memfs.

(** A stand-in for Node in closed examples: [url.parse] on URIs of the
    form [file://<path>] (empty host, no query, no fragment) and
    [decodeURIComponent] on strings without an escape; everything else
    is refused, so an example can only use inputs on which the stand-in
    agrees with Node. *)
Definition parseFileUrl (uri : string) : UrlObject :=
  if String.prefix "file:///" uri && negb (includes uri "?") && negb (includes uri "#")
  then {| protocol := Some "file:";
          pathname := Some (substring 7 (String.length uri - 7) uri) |}
  else {| protocol := None; pathname := None |}.

Definition decodePlain (s : string) : Outcome string :=
  if includes s "%" then Thrown "URIError: URI malformed" else Returned s.

Definition runtime : NodeRuntime :=
  {| url_parse := parseFileUrl; decodeURIComponent := decodePlain |}.

(** An indexer that only records the paths it is asked to index. *)
Definition recorder : ProjectManager.LanguageService (list string) :=
  {| ProjectManager.updateFile := fun _ filePath seen => (true, seen ++ [filePath]) |}.

(** File systems built with the default filter, with a filter that
    vetoes everything, and with the filter [MetaschemaService] installs. *)
Definition openFs : InMemoryFileSystem := Memfs.new "/proj" (fun _ => true).
Definition vetoingFs : InMemoryFileSystem := Memfs.new "/proj" (fun _ => false).
Definition taxonomyFs : InMemoryFileSystem :=
  Memfs.new "/proj"
    (fun uri => isSchemaFile uri &&
                (includes uri "/taxonomy/" || includes uri "/schema/")).

(** A project over a workspace with one schema of its own and one inside
    a dependency, indexed by the recorder. *)
Definition workspaceFs : InMemoryFileSystem :=
  snd (Memfs.add (H := runtime) "file:///proj/node_modules/x/b.schema" None
         (snd (Memfs.add (H := runtime) "file:///proj/a.schema" None openFs))).

Definition project : ProjectManager.ProjectManager (list string) :=
  ProjectManager.new "/proj" workspaceFs [].

(** A file system that was given the relative string
    ["node_modules/x/y.schema"] for a URI: [add] records the key and
    then throws while converting it to a path. *)
Definition relativeFs : InMemoryFileSystem :=
  snd (Memfs.add (H := runtime) "node_modules/x/y.schema" None openFs).

(** Stand-ins for the dispatcher's libraries: documents are scalars and
    a patch operates on the root path, where fast-json-patch replaces
    the document on [add] and [replace], empties it on [remove], and on
    [test] keeps it when it equals the value and throws otherwise. *)
Inductive Scalar := SNull | SNumber (n : Z) | SString (s : string).

#[global] Instance Scalar_eq_dec : EqDecision Scalar.
Proof. solve_decision. Defined.

Record RootPatch := { op : string; value : Scalar }.
Record Failure := { failureMessage : string; failureCode : option Z }.
Record MessageParams := {
  id : option Connection.RequestId;
  streamingCapability : bool
}.

Definition applyRoot (doc : Scalar) (p : RootPatch) : Failure + Scalar :=
  if String.eqb (op p) "add" || String.eqb (op p) "replace" then inr (value p)
  else if String.eqb (op p) "remove" then inr SNull
  else if String.eqb (op p) "test" then
    if decide (doc = value p) then inr doc
    else inl {| failureMessage := "Test operation failed"; failureCode := None |}
  else inl {| failureMessage := "unsupported operation"; failureCode := None |}.

(** lodash's [camelCase] on the method names of the examples; the
    names of one lower-case word, as [initialize], are left as they
    are. *)
Definition camelCaseMethod (method : string) : string :=
  if String.eqb method "textDocument/completion" then "textDocumentCompletion"
  else if String.eqb method "textDocument/hover" then "textDocumentHover"
  else if String.eqb method "workspace/didChangeConfiguration"
       then "workspaceDidChangeConfiguration"
  else method.

Definition libraries : Connection.Libraries Scalar RootPatch Failure MessageParams :=
  {| Connection.null := SNull;
     Connection.applyReducer := applyRoot;
     Connection.errMessage := failureMessage;
     Connection.errCode := failureCode;
     Connection.errData := fun _ => SNull;
     Connection.cancelId := id;
     Connection.declaresStreaming := streamingCapability;
     Connection.camelCase := camelCaseMethod |}.

(** The protocol methods [MetaschemaService] implements. *)
Definition serviceMethods (name : string) : bool :=
  existsb (String.eqb name)
    ["initialize"; "shutdown"; "workspaceDidChangeConfiguration";
     "textDocumentCompletion"].

(** A dispatcher whose peer has declared streaming. *)
Definition streamingDispatcher
  : @Connection.Dispatcher Scalar RootPatch MessageParams :=
  Connection.set_streaming true
    (Connection.set_initialized true Connection.registerLanguageHandler).

Definition noParams : MessageParams := {| id := None; streamingCapability := false |}.
Definition cancelOf (i : Connection.RequestId) : MessageParams :=
  {| id := Some i; streamingCapability := false |}.
Definition addRoot (v : Scalar) : RootPatch := {| op := "add"; value := v |}.

Definition P1 : RootPatch := addRoot (SNumber 1).
Definition P2 : RootPatch := addRoot (SNumber 2).
Definition P3 : RootPatch := addRoot (SNumber 3).
Definition failingTest : RootPatch := {| op := "test"; value := SNumber 1 |}.

Definition completion : @Connection.Message MessageParams :=
  Connection.RequestMessage (Connection.IdNumber 1) "textDocument/completion" noParams.
Definition cancel : @Connection.Message MessageParams :=
  Connection.NotificationMessage "$/cancelRequest" (cancelOf (Connection.IdNumber 1)).

(** The completion request in flight: its first patch came while the
    observable was subscribed, the rest is pending. *)
Definition inFlight : @Connection.Dispatcher Scalar RootPatch MessageParams :=
  Connection.step (H := libraries) serviceMethods
    (Connection.Receive completion [Connection.Next P1]) streamingDispatcher.

End Sample.

(** ** Call sequences the properties speak about *)

Module Scenario.
Import Util Memfs.

(** [add(uri); add(uri, content); add(uri)], each call made whatever the
    previous one did. *)
Definition addAbsentPresentAbsent `{NodeRuntime} (uri content : string)
    (fs : InMemoryFileSystem) : InMemoryFileSystem :=
  snd (add uri None (snd (add uri (Some content) (snd (add uri None fs))))).

(** A view over the same content cache with no editor buffer: what a
    read that bypasses the overlay sees. *)
Definition freshView (fs : InMemoryFileSystem) : InMemoryFileSystem :=
  set_overlay (fun _ => ∅) fs.

(** [didChange(uri, text); didSave(uri)] *)
Definition changeThenSave `{NodeRuntime} (uri text : string)
    (fs : InMemoryFileSystem) : InMemoryFileSystem :=
  snd (didSave uri (snd (didChange uri text fs))).

End Scenario.

(** ** util.ts, continued: separators and the characters of a URI *)

Module Paths.
Import Util.

(** [filePath.replace(/\\/g, '/')] *)
Fixpoint toUnixPath (filePath : string) : string :=
  match filePath with
  | EmptyString => EmptyString
  | String c s' =>
      String (if Ascii.eqb c "\" then "/"%char else c) (toUnixPath s')
  end.

(** Every character of [s] satisfies [p]. *)
Fixpoint allChars (p : ascii -> bool) (s : string) : bool :=
  match s with
  | EmptyString => true
  | String c s' => p c && allChars p s'
  end.

(** The characters [path2uri] puts after the scheme: what
    [encodeURIComponent] lets through, the escape sign, the segment
    separator and the colon of a drive letter. *)
Definition isUriChar (c : ascii) : bool :=
  isUnreserved c || existsb (Ascii.eqb c) ["%"; "/"; ":"]%char.

(** The last character of a string, if any. *)
Fixpoint lastChar (s : string) : option ascii :=
  match s with
  | EmptyString => None
  | String c EmptyString => Some c
  | String _ s' => lastChar s'
  end.

End Paths.

(** ** metaschema-service.ts: the file filter of the service *)

Module MetaschemaService.
Import Util.

(** The predicate [_initializeFileSystems] gives to the
    [InMemoryFileSystem] it creates. *)
Definition fileFilter (uri : string) : bool :=
  isSchemaFile uri && (includes uri "/taxonomy/" || includes uri "/schema/").

End MetaschemaService.

(** ** memfs.ts, continued: the directory tree and runs of [add] *)

Module Tree.
Import Util Memfs.

(** The node reached from [node] by [children.get] along [components]. *)
Fixpoint findNode (components : list string) (node : FileSystemNode)
  : option FileSystemNode :=
  match components with
  | [] => Some node
  | component :: rest =>
      match childGet component (children node) with
      | Some n => findNode rest n
      | None => None
      end
  end.

(** [add] called for each pair in turn, whatever the previous call did. *)
Definition addAll `{NodeRuntime} (adds : list (string * option string))
    (fs : InMemoryFileSystem) : InMemoryFileSystem :=
  foldl (fun fs a => snd (add a.1 a.2 fs)) fs adds.

(** The last content given for [uri] in a run of [add], if any. *)
Fixpoint lastGiven (uri : string) (adds : list (string * option string))
  : option string :=
  match adds with
  | [] => None
  | (u, content) :: rest =>
      match lastGiven uri rest with
      | Some c => Some c
      | None => if String.eqb u uri then content else None
      end
  end.

End Tree.

(** ** project-manager.ts, continued: runs of editor notifications *)

Module Editor.
Import Util Memfs ProjectManager.

Inductive Notification :=
| DidOpen (uri text : string)
| DidChange (uri text : string)
| DidClose (uri : string)
| DidSave (uri : string).

Section WithService.
Context {Svc : Type} `{LanguageService Svc} `{NodeRuntime}.

Definition notify (n : Notification) : Eff (ProjectManager Svc) unit :=
  match n with
  | DidOpen uri text => didOpen uri text
  | DidChange uri text => didChange uri text
  | DidClose uri => didClose uri
  | DidSave uri => didSave uri
  end.

(** The notifications handled one after the other, each whatever the
    previous one did. *)
Definition notifyAll (ns : list Notification) (pm : ProjectManager Svc)
  : ProjectManager Svc :=
  foldl (fun pm n => snd (notify n pm)) pm ns.

(** [uri2path(uri)] returns. *)
Definition converts (uri : string) : bool :=
  match uri2path uri with
  | Returned _ => true
  | Thrown _ => false
  end.

End WithService.

(** Every [updater.ensure(uri)] recorded was called by a pipeline whose
    filter accepts [uri]. *)
Definition fetchesFiltered {Svc : Type} (pm : ProjectManager Svc) : Prop :=
  forall h uri, Ensure h uri ∈ updaterCalls pm ->
    exists p, pipelines pm !! h = Some p /\ pipelineFilter (kind p) uri = true.

(** The notification opens, changes or closes [uri]. *)
Definition edits (uri : string) (n : Notification) : bool :=
  match n with
  | DidOpen u _ | DidChange u _ | DidClose u => String.eqb u uri
  | DidSave _ => false
  end.

End Editor.

(** ** connection.ts, continued: what the peer and the loggers can see *)

Module Wire.
Import Connection.

Section WithLibraries.
Context {Json Operation Err Params : Type} `{Libraries Json Operation Err Params}.
Local Abbreviation D := (@Dispatcher Json Operation Params).

(** Two states of the dispatcher that differ at most in the table of
    subscriptions and in the callbacks queued for the next tick. *)
Definition sameView (d d' : D) : Prop :=
  subscribers d = subscribers d' /\ streaming d = streaming d' /\
  initialized d = initialized d' /\ written d = written d' /\
  logged d = logged d' /\ invoked d = invoked d'.

(** Every entry of the table of subscriptions leads to an open
    subscription of a request with the entry's id. *)
Definition tableOpen (d : D) : Prop :=
  forall id s, subscriptions d !! id = Some s ->
    exists sub method,
      subscribers d !! s = Some sub /\ purpose sub = ForRequest id method /\
      closed sub = false.

(** Every entry of the table of subscriptions leads to a subscription
    of a request with the entry's id that is open, or whose closing has
    queued the deletion of the entry for the next tick. *)
Definition tableTracked (d : D) : Prop :=
  forall id s, subscriptions d !! id = Some s ->
    exists sub method,
      subscribers d !! s = Some sub /\ purpose sub = ForRequest id method /\
      (closed sub = false \/ id ∈ nextTick d).

(** The event is the closing of the stream or an error on it. *)
Definition endsStream (ev : @Event Operation Err Params) : bool :=
  match ev with
  | Close | StreamError => true
  | _ => false
  end.

(** The end of a tick made explicit.  [Connection.step] is an event that
    comes in a tick of its own.  The message reader hands every message
    of one chunk of input to the listener in the same tick, and the
    callbacks queued by [process.nextTick] run when that tick ends:
    [listen] is one call of a listener, or one signal of an observable,
    and [Tick] is the end of a tick. *)
Variable hasMethod : string -> bool.

Definition listen (ev : @Event Operation Err Params) (d : D) : D :=
  match ev with
  | Receive message sync => onMessage hasMethod message sync d
  | Emit s sig => deliver s sig d
  | Close => onClose "Stream was closed without shutdown notification" d
  | StreamError => onClose "Stream:" d
  end.

Inductive Moment :=
| Hear (ev : @Event Operation Err Params)
| Tick.

Definition moment (m : Moment) (d : D) : D :=
  match m with
  | Hear ev => listen ev d
  | Tick => runNextTick d
  end.

Definition play (ms : list Moment) (d : D) : D :=
  foldl (fun d m => moment m d) d ms.

(** The moment is the end of a tick or a signal for subscription [s]. *)
Definition concerns (s : SubId) (m : Moment) : bool :=
  match m with
  | Tick => true
  | Hear (Emit s' _) => Nat.eqb s' s
  | Hear _ => false
  end.

End WithLibraries.

End Wire.

(** ** service/metaschema-lang-service.ts: offsets and positions

    A file is its sequence of UTF-16 code units; numbers are integers. *)

Module Positions.
Local Open Scope Z_scope.

Definition LF : N := 10%N.   (* '\n' *)
Definition CR : N := 13%N.   (* '\r' *)

(** [str[index]]: [undefined] outside the string. *)
Definition charAt (str : list N) (index : Z) : option N :=
  if index <? 0 then None else str !! Z.to_nat index.

Definition isEOL (str : list N) (index : Z) : Z :=
  if bool_decide (charAt str index = Some LF) then 1
  else if bool_decide (charAt str index = Some CR) then
    if (index + 1 <? Z.of_nat (length str)) &&
       bool_decide (charAt str (index + 1) = Some LF)
    then 2 else 1
  else 0.

(** [CustomPosition]: a [Position] with an optional [lastIndex]. *)
Record Position := mkPosition {
  line : Z;
  character : Z;
  lastIndex : option Z
}.

(** The loop of [absoluteOffsetToPosition]; each round moves [i]
    forward, so [file.length - startIndex] rounds are enough. *)
Fixpoint offsetLoop (fuel : nat) (file : list N) (i offset line lineOffset : Z)
  : Z * Z * Z * Z :=
  match fuel with
  | O => (i, offset, line, lineOffset)
  | S fuel =>
      if (i <? Z.of_nat (length file)) && (0 <? offset) then
        let skipCount := isEOL file i in
        if 0 <? skipCount
        then offsetLoop fuel file (i + (skipCount - 1) + 1) offset (line + 1) 0
        else offsetLoop fuel file (i + 1) (offset - 1) line (lineOffset + 1)
      else (i, offset, line, lineOffset)
  end.

Definition absoluteOffsetToPosition (file : list N) (offset startIndex : Z)
  : option Position :=
  let fuel := Z.to_nat (Z.of_nat (length file) - startIndex) in
  let '(i, offset, line, lineOffset) := offsetLoop fuel file startIndex offset 0 0 in
  if 0 <? offset then None
  else Some {| line := line; character := lineOffset; lastIndex := Some i |}.

(** The loop of [positionToAbsoluteOffset]; a round moves [i] forward or
    takes one from [line], so [file.length + position.line] rounds are
    enough. *)
Fixpoint positionLoop (fuel : nat) (file : list N) (i line offset : Z) : Z * Z :=
  match fuel with
  | O => (line, offset)
  | S fuel =>
      if (i <? Z.of_nat (length file)) && (0 <? line) then
        let skipCount := isEOL file i in
        if 0 <? skipCount
        then positionLoop fuel file (i - (skipCount - 1) + 1) (line - 1) offset
        else positionLoop fuel file (i + 1) line (offset + 1)
      else (line, offset)
  end.

Definition positionToAbsoluteOffset (file : list N) (position : Position)
  : option Z :=
  let fuel := (length file + Z.to_nat (line position))%nat in
  let '(line, offset) := positionLoop fuel file 0 (line position) 0 in
  if 0 <? line then None else Some (offset + character position).

(** A code unit that is no line terminator. *)
Definition visible (c : N) : bool := negb (N.eqb c LF || N.eqb c CR).

(** The number of code units of [l] that are no line terminators. *)
Definition visibleCount (l : list N) : Z :=
  Z.of_nat (length (List.filter visible l)).

(** No carriage return of [l] is followed by a line feed. *)
Fixpoint noCRLF (l : list N) : bool :=
  match l with
  | [] => true
  | c :: rest =>
      negb (N.eqb c CR && match rest with c' :: _ => N.eqb c' LF | [] => false end)
      && noCRLF rest
  end.

(** What [isEOL] returns at the head of the rest of a string. *)
Definition eolLength (rest : list N) : Z :=
  match rest with
  | [] => 0
  | c :: rest' =>
      if N.eqb c LF then 1
      else if N.eqb c CR then
        match rest' with
        | c' :: _ => if N.eqb c' LF then 2 else 1
        | [] => 1
        end
      else 0
  end.

End Positions.

(** * Properties *)

(** ** The virtual file system *)

Section MemfsFacts.
Import Util Memfs.
Context `{NodeRuntime}.

(** What [add] does to the content cache, whether or not it goes on to
    throw while converting the URI. *)
Lemma add_files (uri : string) (content : option string) (fs : InMemoryFileSystem) :
  files (snd (add uri content fs)) =
    if fileFilter fs uri
    then if bool_decide (is_Some content) || negb (filesHas fs uri)
         then <[uri := content]> (files fs)
         else files fs
    else files fs.
Proof.
  unfold add, bind, gets, modify, ret, lift; cbn.
  destruct (fileFilter fs uri); cbn; [|reflexivity].
  destruct (bool_decide (is_Some content) || negb (filesHas fs uri)); cbn;
    destruct (uri2path uri); reflexivity.
Qed.

Lemma add_fileFilter (uri : string) (content : option string) (fs : InMemoryFileSystem) :
  fileFilter (snd (add uri content fs)) = fileFilter fs.
Proof.
  unfold add, bind, gets, modify, ret, lift; cbn.
  destruct (fileFilter fs uri); cbn; [|reflexivity].
  destruct (bool_decide (is_Some content) || negb (filesHas fs uri)); cbn;
    destruct (uri2path uri); reflexivity.
Qed.

Lemma add_overlay (uri : string) (content : option string) (fs : InMemoryFileSystem) :
  overlay (snd (add uri content fs)) = overlay fs.
Proof.
  unfold add, bind, gets, modify, ret, lift; cbn.
  destruct (fileFilter fs uri); cbn; [|reflexivity].
  destruct (bool_decide (is_Some content) || negb (filesHas fs uri)); cbn;
    destruct (uri2path uri); reflexivity.
Qed.

Lemma add_vetoed (uri : string) (content : option string) (fs : InMemoryFileSystem) :
  fileFilter fs uri = false -> add uri content fs = (Returned tt, fs).
Proof. intros Hf. unfold add, bind, gets, ret; cbn. by rewrite Hf. Qed.

(** With content, an accepted [add] stores it. *)
Lemma add_present_get (uri c : string) (fs : InMemoryFileSystem) :
  fileFilter fs uri = true ->
  filesGet (snd (add uri (Some c) fs)) uri = Some c.
Proof.
  intros Hf. unfold filesGet. rewrite add_files, Hf.
  rewrite bool_decide_eq_true_2 by eauto. cbn.
  by rewrite lookup_insert_eq.
Qed.

(** Without content, [add] leaves the content it finds. *)
Lemma add_absent_get (uri c : string) (fs : InMemoryFileSystem) :
  filesGet fs uri = Some c ->
  filesGet (snd (add uri None fs)) uri = Some c.
Proof.
  intros Hc. unfold filesGet in *. rewrite add_files.
  destruct (fileFilter fs uri); [|done].
  assert (Hhas : filesHas fs uri = true).
  { unfold filesHas. apply bool_decide_eq_true_2.
    destruct (files fs !! uri); [eauto | discriminate]. }
  rewrite Hhas, bool_decide_eq_false_2 by (intros [? ?]; discriminate).
  done.
Qed.

End MemfsFacts.

Section MemfsClaims.
Import Util Memfs.

(** C2, as amended: for every URI that the file filter accepts, the calls
    [add(uri)], [add(uri, content)], [add(uri)] leave [content] in the
    content cache; and on any file system, whatever its filter, an [add]
    without content keeps the content already cached for the URI. *)
Theorem add_without_content_keeps_content `{NodeRuntime}
    (uri content : string) (fs : InMemoryFileSystem) :
  fileFilter fs uri = true ->
  filesGet (Scenario.addAbsentPresentAbsent uri content fs) uri = Some content /\
  (forall (fs' : InMemoryFileSystem) (c : string),
     filesGet fs' uri = Some c -> filesGet (snd (add uri None fs')) uri = Some c).
Proof.
  intros Hf. split; [|intros fs' c; apply add_absent_get].
  unfold Scenario.addAbsentPresentAbsent.
  apply add_absent_get, add_present_get.
  by rewrite add_fileFilter.
Qed.

Lemma add_without_content_keeps_content_witness :
  fileFilter Sample.openFs "file:///proj/a.schema" = true /\
  filesGet
    (Scenario.addAbsentPresentAbsent (H := Sample.runtime)
       "file:///proj/a.schema" "X" Sample.openFs)
    "file:///proj/a.schema" = Some "X".
Proof.
  split; [reflexivity|].
  refine (proj1 (add_without_content_keeps_content (H := Sample.runtime)
                   "file:///proj/a.schema" "X" Sample.openFs _)).
  reflexivity.
Defined.

(** C2 as stated fails where the filter vetoes the URI: under the filter
    that [MetaschemaService] installs, a schema outside [taxonomy] and
    [schema] directories is never recorded, so the cache does not hold
    ["X"] after the three calls. *)
Lemma add_vetoed_uri_caches_nothing :
  filesGet
    (Scenario.addAbsentPresentAbsent (H := Sample.runtime)
       "file:///proj/a.schema" "X" Sample.taxonomyFs)
    "file:///proj/a.schema" <> Some "X".
Proof.
  unfold Scenario.addAbsentPresentAbsent.
  rewrite !add_vetoed by reflexivity. cbn. discriminate.
Qed.

(** C8, as amended: for every URI that the file filter accepts,
    [didSave(uri)] after [didChange(uri, text)] stores [text] in the
    content cache, and a read through a view without overlay returns it. *)
Theorem didSave_persists_overlay `{NodeRuntime}
    (uri text : string) (fs : InMemoryFileSystem) :
  fileFilter fs uri = true ->
  filesGet (Scenario.changeThenSave uri text fs) uri = Some text /\
  getContent (Scenario.freshView (Scenario.changeThenSave uri text fs)) uri
    = Returned text.
Proof.
  intros Hf.
  assert (Hget : filesGet (Scenario.changeThenSave uri text fs) uri = Some text).
  { unfold Scenario.changeThenSave, didSave, didChange, bind, gets, modify; cbn.
    rewrite lookup_insert_eq. by apply add_present_get. }
  split; [exact Hget|].
  unfold getContent, Scenario.freshView; cbn.
  rewrite lookup_empty. unfold filesGet in *; cbn in *. by rewrite Hget.
Qed.

Lemma didSave_persists_overlay_witness :
  fileFilter Sample.taxonomyFs "file:///proj/taxonomy/a.schema" = true /\
  getContent
    (Scenario.freshView
       (Scenario.changeThenSave (H := Sample.runtime)
          "file:///proj/taxonomy/a.schema" "B" Sample.taxonomyFs))
    "file:///proj/taxonomy/a.schema" = Returned "B".
Proof.
  split; [reflexivity|].
  refine (proj2 (didSave_persists_overlay (H := Sample.runtime)
                   "file:///proj/taxonomy/a.schema" "B" Sample.taxonomyFs _)).
  reflexivity.
Defined.

(** C8 as stated fails where the filter vetoes the URI: [didChange]
    records the buffer, [didSave] hands it to [add], which returns at
    once, and a read without overlay finds no content. *)
Lemma didSave_vetoed_uri_persists_nothing :
  getContent
    (Scenario.freshView
       (Scenario.changeThenSave (H := Sample.runtime)
          "file:///proj/a.schema" "B" Sample.taxonomyFs))
    "file:///proj/a.schema" <> Returned "B".
Proof.
  unfold Scenario.changeThenSave, didSave, didChange, bind, gets, modify; cbn.
  rewrite lookup_insert_eq, add_vetoed by reflexivity. cbn.
  unfold getContent, filesGet; cbn. rewrite !lookup_empty. discriminate.
Qed.

(** C7, as amended: after [didChange(uri, text)], [getContent(uri)]
    returns [text] for every URI, whatever the content cache holds, and
    so does [readFile] at every path that [path2uri] converts to [uri];
    after [didClose(uri)] the cache is what it was, [getContent] returns
    the cached content or throws when there is none, and [readFile] at
    such a path returns the cached content or the empty string with a
    warning. *)
Theorem overlay_shadows_cache (uri text : string) (fs : InMemoryFileSystem) :
  let fs1 := snd (didChange uri text fs) in
  let fs2 := snd (didClose uri fs1) in
  getContent fs1 uri = Returned text /\
  files fs2 = files fs /\
  getContent fs2 uri =
    match filesGet fs uri with
    | Some c => Returned c
    | None => Thrown ("Content of " +:+ uri +:+ " is not available in memory")
    end /\
  (forall p : string, path2uri p = Returned uri ->
     readFile p fs1 = (Returned text, fs1) /\
     readFile p fs2 =
       match filesGet fs uri with
       | Some c => (Returned c, fs2)
       | None =>
           (Returned "",
            warn ("readFile " +:+ p +:+ " requested but content not available") fs2)
       end).
Proof.
  intros fs1 fs2. subst fs1 fs2.
  unfold didChange, didClose, modify, getContent, filesGet; cbn.
  rewrite lookup_insert_eq, lookup_delete_eq.
  split; [reflexivity|]. split; [reflexivity|].
  split; [by destruct (mjoin (files fs !! uri))|].
  intros p Hp. unfold readFile, readFileIfExists, bind, ret, filesGet; cbn.
  rewrite Hp, lookup_insert_eq, lookup_delete_eq.
  split; [reflexivity|]. by destruct (mjoin (files fs !! uri)).
Qed.

Lemma overlay_shadows_cache_witness :
  path2uri "/proj/a.schema" = Returned "file:///proj/a.schema" /\
  getContent (snd (didChange "file:///proj/a.schema" "A" Sample.openFs))
    "file:///proj/a.schema" = Returned "A" /\
  readFile "/proj/a.schema" (snd (didChange "file:///proj/a.schema" "A" Sample.openFs))
    = (Returned "A", snd (didChange "file:///proj/a.schema" "A" Sample.openFs)).
Proof.
  split; [reflexivity|].
  pose proof (overlay_shadows_cache "file:///proj/a.schema" "A" Sample.openFs)
    as (Hget & _ & _ & Hread).
  split; [exact Hget|].
  exact (proj1 (Hread "/proj/a.schema" eq_refl)).
Defined.

(** C7 as stated fails for a URI that is not the one [path2uri] gives
    for its path: the path of [file:///proj/a+b.schema] converts to
    [file:///proj/a%2Bb.schema], so after [didChange] of the former
    [getContent] returns the text while [readFile] at its path finds
    nothing under the latter and returns the empty string. *)
Lemma readFile_misses_overlay_of_other_spelling :
  let uri := "file:///proj/a+b.schema" in
  let fs1 := snd (didChange uri "A" Sample.openFs) in
  uri2path (H := Sample.runtime) uri = Returned "/proj/a+b.schema" /\
  path2uri "/proj/a+b.schema" = Returned "file:///proj/a%2Bb.schema" /\
  getContent fs1 uri = Returned "A" /\
  fst (readFile "/proj/a+b.schema" fs1) = Returned "" /\
  fst (readFile "/proj/a+b.schema" fs1) <> Returned "A".
Proof.
  cbn zeta. split; [vm_compute; reflexivity|]. split; [vm_compute; reflexivity|].
  split; [vm_compute; reflexivity|]. split; [vm_compute; reflexivity|].
  vm_compute. discriminate.
Qed.

(** [readFile] returns on every absolute path: the content of the
    overlay, else of the cache, else the empty string with a warning. *)
Lemma readFile_absolute (p : string) (fs : InMemoryFileSystem) :
  isAbsolutePath p = true ->
  exists uri, path2uri p = Returned uri /\
    readFile p fs =
      match overlay fs !! uri with
      | Some c => (Returned c, fs)
      | None =>
          match filesGet fs uri with
          | Some c => (Returned c, fs)
          | None =>
              (Returned "",
               warn ("readFile " +:+ p +:+ " requested but content not available") fs)
          end
      end.
Proof.
  intros Habs.
  unfold readFile, readFileIfExists, path2uri, bind, ret, modify.
  rewrite Habs; cbn.
  destruct (splitPath p) as [head parts]. eexists; split; [reflexivity|].
  destruct (overlay fs !! _); [reflexivity|].
  destruct (filesGet fs _); reflexivity.
Qed.

(** On a path that is not absolute [path2uri] throws and [readFile] lets
    the exception through. *)
Lemma readFile_relative (p : string) (fs : InMemoryFileSystem) :
  isAbsolutePath p = false ->
  readFile p fs = (Thrown (p +:+ " is not an absolute path"), fs).
Proof.
  intros Hrel. unfold readFile, readFileIfExists, path2uri, bind.
  by rewrite Hrel.
Qed.

(** C9 fails on the code: [readFile] is documented to accept relative
    paths and to return the empty string when there is no such file,
    but on the relative path ["a.schema"] it throws and logs nothing. *)
Theorem readFile_relative_path_throws :
  readFile "a.schema" Sample.openFs =
    (Thrown "a.schema is not an absolute path", Sample.openFs).
Proof. apply readFile_relative. reflexivity. Qed.

(** C10, as amended: on a file system whose filter rejects [uri] (so
    that [add] records nothing for it), after [didChange(uri, text)]
    the call [getContent(uri)] returns [text]; and when [uri] is the URI
    that [path2uri] gives for its own path, [has(uri)] and
    [fileExists(uri2path(uri))] return true. *)
Theorem overlay_bypasses_fileFilter `{NodeRuntime}
    (uri text : string) (fs : InMemoryFileSystem) :
  fileFilter fs uri = false ->
  let fs1 := snd (didChange uri text fs) in
  (forall content, add uri content fs = (Returned tt, fs)) /\
  getContent fs1 uri = Returned text /\
  (forall p : string, uri2path uri = Returned p -> path2uri p = Returned uri ->
     has fs1 uri = Returned true /\ fileExists fs1 p = Returned true).
Proof.
  intros Hf fs1. subst fs1. split; [|split].
  - intros content. by apply add_vetoed.
  - unfold getContent, didChange, modify; cbn. by rewrite lookup_insert_eq.
  - intros p Hu Hp.
    assert (Hex : fileExists (snd (didChange uri text fs)) p = Returned true).
    { unfold fileExists, didChange, modify, overlayHas; cbn. rewrite Hp.
      rewrite lookup_insert_eq, bool_decide_eq_true_2 by eauto. reflexivity. }
    split; [|exact Hex].
    unfold has. rewrite Hu, Hex. by destruct (filesHas _ uri).
Qed.

Lemma overlay_bypasses_fileFilter_witness :
  fileFilter Sample.taxonomyFs "file:///proj/a.schema" = false /\
  uri2path (H := Sample.runtime) "file:///proj/a.schema" = Returned "/proj/a.schema" /\
  path2uri "/proj/a.schema" = Returned "file:///proj/a.schema" /\
  has (H := Sample.runtime)
    (snd (didChange "file:///proj/a.schema" "A" Sample.taxonomyFs))
    "file:///proj/a.schema" = Returned true.
Proof.
  split; [reflexivity|]. split; [reflexivity|]. split; [reflexivity|].
  exact (proj1 (proj2 (proj2 (overlay_bypasses_fileFilter (H := Sample.runtime)
                   "file:///proj/a.schema" "A" Sample.taxonomyFs eq_refl))
                 "/proj/a.schema" eq_refl eq_refl)).
Defined.

(** C10 as stated fails for a URI that is not the one [path2uri] gives
    for its path: after [didChange] of [file:///proj/a+b.schema] on a
    file system that vetoes it, [uri2path] converts the URI and
    [getContent] returns the text, but [has] and [fileExists] look under
    [file:///proj/a%2Bb.schema] and return false. *)
Lemma has_misses_overlay_of_other_spelling :
  let uri := "file:///proj/a+b.schema" in
  let fs1 := snd (didChange uri "A" Sample.vetoingFs) in
  fileFilter Sample.vetoingFs uri = false /\
  uri2path (H := Sample.runtime) uri = Returned "/proj/a+b.schema" /\
  getContent fs1 uri = Returned "A" /\
  has (H := Sample.runtime) fs1 uri = Returned false /\
  fileExists fs1 "/proj/a+b.schema" = Returned false /\
  has (H := Sample.runtime) fs1 uri <> Returned true.
Proof.
  cbn zeta. split; [vm_compute; reflexivity|]. split; [vm_compute; reflexivity|].
  split; [vm_compute; reflexivity|]. split; [vm_compute; reflexivity|].
  split; [vm_compute; reflexivity|]. vm_compute. discriminate.
Qed.

End MemfsClaims.

(** ** The workspace synchronizer *)

Section SynchronizerFacts.
Import Util Memfs ProjectManager.
Context {Svc : Type} `{LanguageService Svc} `{NodeRuntime}.
Local Abbreviation PM := (ProjectManager Svc).

(** The keys of the content cache are enumerated once each. *)
Lemma uris_NoDup (fs : InMemoryFileSystem) : NoDup (uris fs).
Proof. unfold uris. apply NoDup_fst_map_to_list. Qed.

Lemma ensuredBy_app (h : Handle) (l1 l2 : list UpdaterCall) :
  ensuredBy h (l1 ++ l2) = ensuredBy h l1 ++ ensuredBy h l2.
Proof. unfold ensuredBy. apply omap_app. Qed.

Lemma ensuredBy_self (h : Handle) (l : list string) :
  ensuredBy h (map (Ensure h) l) = l.
Proof.
  unfold ensuredBy. induction l as [|u l IH]; cbn; [reflexivity|].
  rewrite Nat.eqb_refl. cbn. by rewrite IH.
Qed.

Lemma ensuredBy_other (h h' : Handle) (l : list string) :
  h' <> h -> ensuredBy h (map (Ensure h') l) = [].
Proof.
  intros Hne. unfold ensuredBy. induction l as [|u l IH]; cbn; [reflexivity|].
  destruct (Nat.eqb_spec h' h); [contradiction|]. cbn. exact IH.
Qed.

Lemma ensuredBy_nil_iff (h : Handle) (l : list UpdaterCall) :
  ensuredBy h l = [] <-> forall uri, Ensure h uri ∉ l.
Proof.
  unfold ensuredBy. induction l as [|c l IH]; cbn.
  - split; [intros _ uri Hin; inversion Hin | reflexivity].
  - destruct c as [|h' u]; cbn.
    + rewrite IH. split; intros Hl uri Hin.
      * apply list_elem_of_In in Hin. destruct Hin as [Hin|Hin]; [discriminate|].
        apply (Hl uri), list_elem_of_In, Hin.
      * apply (Hl uri), list_elem_of_In. right. by apply list_elem_of_In.
    + destruct (Nat.eqb_spec h' h) as [->|Hne]; cbn.
      * split; [discriminate|]. intros Hl. exfalso. apply (Hl u). left.
      * rewrite IH. split; intros Hl uri Hin.
        -- apply list_elem_of_In in Hin. destruct Hin as [Hin|Hin]; [congruence|].
           apply (Hl uri), list_elem_of_In, Hin.
        -- apply (Hl uri), list_elem_of_In. right. by apply list_elem_of_In.
Qed.

End SynchronizerFacts.

Section SingleFlight.
Import Util Memfs ProjectManager.
Arguments ensuredBy : simpl never.
Context {Svc : Type} `{LanguageService Svc} `{NodeRuntime}.
Local Abbreviation PM := (ProjectManager Svc).

Lemma ensureOwnFiles_memoized (h : Handle) (pm : PM) :
  ensuredOwnFiles pm = Some h ->
  ensureOwnFiles pm = (h, log (LogLine "Ensure own files") pm).
Proof. intros Hs. unfold ensureOwnFiles; cbn. by rewrite Hs. Qed.

Lemma ensureOwnFiles_builds (pm : PM) :
  ensuredOwnFiles pm = None ->
  fst (ensureOwnFiles pm) = length (pipelines pm) /\
  ensuredOwnFiles (snd (ensureOwnFiles pm)) = Some (length (pipelines pm)) /\
  pipelines (snd (ensureOwnFiles pm)) = pipelines pm ++ [mkPipeline OwnFiles Cold 0] /\
  updaterCalls (snd (ensureOwnFiles pm)) = updaterCalls pm ++ [EnsureStructure] /\
  inMemoryFs (snd (ensureOwnFiles pm)) = inMemoryFs pm.
Proof. intros Hs. unfold ensureOwnFiles; cbn. rewrite Hs; cbn. done. Qed.

Lemma ensureOwnFiles_slot (pm : PM) :
  ensuredOwnFiles (snd (ensureOwnFiles pm)) = Some (fst (ensureOwnFiles pm)).
Proof.
  destruct (ensuredOwnFiles pm) as [h|] eqn:Hs.
  - rewrite (ensureOwnFiles_memoized h) by exact Hs. exact Hs.
  - destruct (ensureOwnFiles_builds pm Hs) as (-> & -> & _). reflexivity.
Qed.

(** The second of two calls in a row returns the handle of the first and
    builds nothing. *)
Lemma ensureOwnFiles_twice (pm : PM) :
  let pm1 := snd (ensureOwnFiles pm) in
  fst (ensureOwnFiles pm1) = fst (ensureOwnFiles pm) /\
  pipelines (snd (ensureOwnFiles pm1)) = pipelines pm1 /\
  updaterCalls (snd (ensureOwnFiles pm1)) = updaterCalls pm1 /\
  ensuredOwnFiles (snd (ensureOwnFiles pm1)) = Some (fst (ensureOwnFiles pm)).
Proof.
  intros pm1. subst pm1.
  rewrite (ensureOwnFiles_memoized _ _ (ensureOwnFiles_slot pm)). cbn.
  repeat split. apply ensureOwnFiles_slot.
Qed.

Lemma singleFlight_start (pm : PM) :
  callsFromBuilt pm -> ensuredOwnFiles pm = None ->
  singleFlight (length (pipelines pm)) (snd (ensureOwnFiles pm)).
Proof.
  intros Hwf Hs. destruct (ensureOwnFiles_builds pm Hs) as (_ & Hslot & Hps & Hcalls & _).
  assert (Hnone : ensuredBy (length (pipelines pm)) (updaterCalls pm) = []).
  { apply ensuredBy_nil_iff. intros uri Hin. apply Hwf in Hin. lia. }
  split; [exact Hslot|]. exists (mkPipeline OwnFiles Cold 0).
  rewrite Hps, Hcalls, ensuredBy_app, Hnone. cbn.
  rewrite lookup_app_r by lia. rewrite Nat.sub_diag. cbn.
  repeat split; constructor.
Qed.


Lemma singleFlight_frame (h : Handle) (pm pm' : PM) :
  ensuredOwnFiles pm' = ensuredOwnFiles pm ->
  pipelines pm' !! h = pipelines pm !! h ->
  ensuredBy h (updaterCalls pm') = ensuredBy h (updaterCalls pm) ->
  singleFlight h pm -> singleFlight h pm'.
Proof.
  intros Hs Hp Hc (Hslot & p & Hlook & Hrest).
  split; [congruence|]. exists p. rewrite Hc. split; [congruence|exact Hrest].
Qed.

Lemma singleFlight_bound (h : Handle) (pm : PM) :
  singleFlight h pm -> h < length (pipelines pm).
Proof. intros (_ & p & Hlook & _). by apply lookup_lt_Some in Hlook. Qed.

Lemma singleFlight_call (h : Handle) (k : PipelineKind) (pm : PM) :
  singleFlight h pm -> singleFlight h (snd (ensureFiles k pm)).
Proof.
  intros Hsf. pose proof (singleFlight_bound _ _ Hsf) as Hlt.
  destruct k; cbn.
  - unfold ensureBasicFiles; cbn. destruct (ensuredBasicFiles pm); cbn.
    + by apply (singleFlight_frame h pm).
    + apply (singleFlight_frame h pm); cbn; try done.
      * by rewrite lookup_app_l.
      * by rewrite ensuredBy_app, app_nil_r.
  - destruct Hsf as (Hslot & Hrest).
    rewrite (ensureOwnFiles_memoized h) by exact Hslot. cbn.
    apply (singleFlight_frame h pm); done.
  - unfold ensureAllFiles; cbn. destruct (ensuredAllFiles pm); cbn.
    + by apply (singleFlight_frame h pm).
    + apply (singleFlight_frame h pm); cbn; try done.
      * by rewrite lookup_app_l.
      * by rewrite ensuredBy_app, app_nil_r.
Qed.

Lemma singleFlight_step (h : Handle) (ev : PipelineEvent) (pm : PM) :
  steady h (Happens ev) pm = true ->
  singleFlight h pm -> singleFlight h (pipelineStep ev pm).
Proof.
  intros Hst Hsf. pose proof (singleFlight_bound _ _ Hsf) as Hlt.
  destruct ev as [h'|h'|h'|h' uri|h' err|h' uri err]; cbn in Hst;
    try discriminate; cbn.
  - (* Subscribe *)
    destruct (pipelines pm !! h') as [p'|] eqn:Hp'; [|exact Hsf].
    destruct (decide (h' = h)) as [->|Hne].
    + pose proof Hsf as (Hslot & p & Hlook & Hk & Hnd & Hall & Hst').
      assert (p' = p) by congruence. subst p'.
      destruct (state p) eqn:Estate; cbn; try exact Hsf;
        (split; [exact Hslot|]; eexists; cbn;
         rewrite list_lookup_insert_eq by exact Hlt;
         split; [reflexivity|]; cbn; done).
    + destruct (state p'); try exact Hsf;
        (apply (singleFlight_frame h pm); cbn; try done;
         by rewrite list_lookup_insert_ne).
  - (* Unsubscribe: of another pipeline, or of one subscriber among several *)
    destruct (pipelines pm !! h') as [p'|] eqn:Hp'; [|exact Hsf].
    destruct (decide (h' = h)) as [->|Hne].
    + rewrite Nat.eqb_refl, Hp' in Hst. cbn in Hst.
      pose proof Hsf as (Hslot & p & Hlook & Hk & Hnd & Hall & Hst').
      assert (p' = p) by congruence. subst p'.
      destruct (refCount p) as [|[|n]]; [discriminate|discriminate|].
      split; [exact Hslot|]. eexists. cbn.
      rewrite list_lookup_insert_eq by exact Hlt.
      split; [reflexivity|]. cbn. done.
    + destruct (refCount p') as [|[|n]]; [exact Hsf| |];
        (apply (singleFlight_frame h pm); cbn; try done;
         by rewrite list_lookup_insert_ne).
  - (* StructureCompleted *)
    destruct (pipelines pm !! h') as [p'|] eqn:Hp'; [|exact Hsf].
    destruct (state p') eqn:Estate; try exact Hsf.
    destruct (decide (h' = h)) as [->|Hne].
    + destruct Hsf as (Hslot & p & Hlook & Hk & Hnd & Hall & Hst').
      assert (p' = p) by congruence. subst p'.
      rewrite Estate in Hst'. rewrite Hk. cbn.
      split; [exact Hslot|]. eexists. cbn.
      rewrite list_lookup_insert_eq by exact Hlt.
      split; [reflexivity|]. cbn.
      rewrite ensuredBy_app, Hst', ensuredBy_self. cbn.
      split; [exact Hk|]. split; [|split].
      * apply NoDup_ListNoDup, List.NoDup_filter, NoDup_ListNoDup, uris_NoDup.
      * apply Forall_forall. intros u Hu.
        apply list_elem_of_In, filter_In in Hu. apply Hu.
      * by destruct (List.filter ownFilter (uris (inMemoryFs pm))).
    + apply (singleFlight_frame h pm); cbn; try done.
      * by rewrite list_lookup_insert_ne.
      * by rewrite ensuredBy_app, ensuredBy_other, app_nil_r.
  - (* Fetched *)
    destruct (pipelines pm !! h') as [p'|] eqn:Hp'; [|exact Hsf].
    destruct (state p') as [| |pending| |] eqn:Estate; try exact Hsf.
    destruct (bool_decide (uri ∈ pending)); [|exact Hsf].
    destruct (updateFile (inMemoryFs pm) uri (service pm)) as [b svc].
    destruct (decide (h' = h)) as [->|Hne].
    + destruct Hsf as (Hslot & p & Hlook & Hk & Hnd & Hall & Hst').
      assert (p' = p) by congruence. subst p'.
      split; [exact Hslot|]. eexists. cbn.
      rewrite list_lookup_insert_eq by exact Hlt.
      split; [reflexivity|]. cbn.
      repeat (split; [done|]). by destruct (removeFirst uri pending).
    + apply (singleFlight_frame h pm); cbn; try done.
      by rewrite list_lookup_insert_ne.
Qed.

Lemma singleFlight_perform (h : Handle) (a : Activity) (pm : PM) :
  steady h a pm = true -> singleFlight h pm -> singleFlight h (perform a pm).
Proof.
  destruct a as [k|ev|uri content|]; intros Hst Hsf.
  - by apply singleFlight_call.
  - by apply singleFlight_step.
  - by apply (singleFlight_frame h pm).
  - discriminate.
Qed.

Lemma singleFlight_performAll (h : Handle) (acts : list Activity) (pm : PM) :
  steadyAll h acts pm = true ->
  singleFlight h pm -> singleFlight h (performAll acts pm).
Proof.
  revert pm. induction acts as [|a acts IH]; intros pm Hst Hsf; [exact Hsf|].
  cbn in Hst. apply andb_true_iff in Hst as [Ha Hacts].
  cbn. apply IH; [exact Hacts|]. by apply singleFlight_perform.
Qed.

(** An upstream failure of a running own-files pipeline empties the slot,
    and the next call builds a new pipeline. *)
Lemma ensureOwnFiles_retry (pm : PM) (h : Handle) (p : Pipeline) (err : string) :
  pipelines pm !! h = Some p -> kind p = OwnFiles -> running (state p) = true ->
  let pm' := pipelineStep (UpstreamError h err) pm in
  ensuredOwnFiles pm' = None /\
  state <$> pipelines pm' !! h = Some Failed /\
  fst (ensureOwnFiles pm') = length (pipelines pm) /\
  fst (ensureOwnFiles pm') <> h /\
  pipelines (snd (ensureOwnFiles pm')) = pipelines pm' ++ [mkPipeline OwnFiles Cold 0] /\
  updaterCalls (snd (ensureOwnFiles pm')) = updaterCalls pm ++ [EnsureStructure].
Proof.
  intros Hlook Hk Hrun pm'. pose proof (lookup_lt_Some _ _ _ Hlook) as Hlt.
  assert (Hpm' : pm' = set_state h p Failed
                         (set_slot OwnFiles None
                            (log (LogError "Failed to ensure OWN files:" err) pm))).
  { subst pm'. cbn. rewrite Hlook, Hrun, Hk. reflexivity. }
  assert (Hslot : ensuredOwnFiles pm' = None) by (rewrite Hpm'; reflexivity).
  destruct (ensureOwnFiles_builds pm' Hslot) as (Hfst & _ & Hps & Hcalls & _).
  assert (Hlen : length (pipelines pm') = length (pipelines pm)).
  { rewrite Hpm'. cbn. apply length_insert. }
  split; [exact Hslot|]. split.
  { rewrite Hpm'. cbn. by rewrite list_lookup_insert_eq. }
  rewrite Hfst, Hlen. split; [reflexivity|]. split; [lia|].
  split; [exact Hps|]. rewrite Hcalls, Hpm'. reflexivity.
Qed.

(** C5, as amended: a second call of [ensureOwnFiles()] returns the
    handle of the first and builds nothing; from the call that builds
    the pipeline on, as long as it keeps a subscriber and no pipeline
    fails or is invalidated, every call returns that handle and the
    pipeline calls [ensure] at most once per URI, and only for URIs that
    pass the own filter; when [ensureStructure()] or [ensure(uri)] fails
    under a running own-files pipeline, its slot is emptied and the next
    call builds a new pipeline, which calls [ensureStructure()] again. *)
Theorem ensureOwnFiles_single_flight (pm : PM) :
  (let pm1 := snd (ensureOwnFiles pm) in
   fst (ensureOwnFiles pm1) = fst (ensureOwnFiles pm) /\
   pipelines (snd (ensureOwnFiles pm1)) = pipelines pm1 /\
   updaterCalls (snd (ensureOwnFiles pm1)) = updaterCalls pm1) /\
  (callsFromBuilt pm -> ensuredOwnFiles pm = None ->
   forall acts : list Activity,
     steadyAll (fst (ensureOwnFiles pm)) acts (snd (ensureOwnFiles pm)) = true ->
     let h := fst (ensureOwnFiles pm) in
     let pm2 := performAll acts (snd (ensureOwnFiles pm)) in
     fst (ensureOwnFiles pm2) = h /\
     NoDup (ensuredBy h (updaterCalls pm2)) /\
     Forall (fun uri => ownFilter uri = true) (ensuredBy h (updaterCalls pm2))) /\
  (forall (h : Handle) (p : Pipeline) (err : string),
     pipelines pm !! h = Some p -> kind p = OwnFiles -> running (state p) = true ->
     let pm' := pipelineStep (UpstreamError h err) pm in
     ensuredOwnFiles pm' = None /\
     fst (ensureOwnFiles pm') <> h /\
     pipelines (snd (ensureOwnFiles pm')) = pipelines pm' ++ [mkPipeline OwnFiles Cold 0] /\
     updaterCalls (snd (ensureOwnFiles pm')) = updaterCalls pm ++ [EnsureStructure]).
Proof.
  split; [|split].
  - intros pm1. destruct (ensureOwnFiles_twice pm) as (H1 & H2 & H3 & _). done.
  - intros Hwf Hs acts Hst h pm2.
    destruct (ensureOwnFiles_builds pm Hs) as (Hfst & _).
    assert (Hsf : singleFlight h pm2).
    { subst h pm2. apply singleFlight_performAll; [exact Hst|].
      rewrite Hfst. by apply singleFlight_start. }
    destruct Hsf as (Hslot & p & _ & _ & Hnd & Hall & _).
    rewrite (ensureOwnFiles_memoized h) by exact Hslot. done.
  - intros h p err Hlook Hk Hrun pm'.
    destruct (ensureOwnFiles_retry pm h p err Hlook Hk Hrun)
      as (H1 & _ & _ & H4 & H5 & H6). done.
Qed.

End SingleFlight.

Lemma ensureOwnFiles_single_flight_witness :
  let acts := [ProjectManager.Happens (ProjectManager.Subscribe 0);
               ProjectManager.CallEnsure ProjectManager.OwnFiles;
               ProjectManager.Happens (ProjectManager.Subscribe 0);
               ProjectManager.Happens (ProjectManager.Unsubscribe 0);
               ProjectManager.Happens (ProjectManager.StructureCompleted 0)] in
  ProjectManager.callsFromBuilt Sample.project /\
  ProjectManager.ensuredOwnFiles Sample.project = None /\
  ProjectManager.steadyAll (H := Sample.recorder) (H0 := Sample.runtime) 0 acts
    (snd (ProjectManager.ensureOwnFiles Sample.project)) = true /\
  NoDup (ProjectManager.ensuredBy 0
           (ProjectManager.updaterCalls
              (ProjectManager.performAll (H := Sample.recorder) (H0 := Sample.runtime)
                 acts (snd (ProjectManager.ensureOwnFiles Sample.project))))).
Proof.
  intros acts.
  assert (Hwf : ProjectManager.callsFromBuilt Sample.project).
  { intros h uri Hin. inversion Hin. }
  split; [exact Hwf|]. split; [reflexivity|]. split; [reflexivity|].
  refine (proj1 (proj2 (proj1 (proj2
            (ensureOwnFiles_single_flight (H := Sample.recorder) (H0 := Sample.runtime)
               Sample.project)) Hwf eq_refl acts eq_refl))).
Defined.

(** C5 as stated fails: both calls return the same handle, yet when the
    last subscriber leaves the running pipeline and another arrives,
    [refCount] subscribes the source again, the workspace is enumerated
    again, and the pipeline calls [ensure] a second time for the same
    URI.  And a pipeline that fails because [updateFile] throws on the
    URI it is handed keeps its slot: the next call returns the failed
    pipeline and builds nothing. *)
Lemma ensure_repeated_after_last_subscriber_left :
  let pm1 := snd (ProjectManager.ensureOwnFiles Sample.project) in
  let acts := [ProjectManager.CallEnsure ProjectManager.OwnFiles;
               ProjectManager.Happens (ProjectManager.Subscribe 0);
               ProjectManager.Happens (ProjectManager.StructureCompleted 0);
               ProjectManager.Happens (ProjectManager.Unsubscribe 0);
               ProjectManager.Happens (ProjectManager.Subscribe 0);
               ProjectManager.Happens (ProjectManager.StructureCompleted 0)] in
  let pm2 := ProjectManager.performAll (H := Sample.recorder) (H0 := Sample.runtime)
               acts pm1 in
  let thrown := "file:///proj/a.schema is not an absolute path" in
  let pm3 := ProjectManager.performAll (H := Sample.recorder) (H0 := Sample.runtime)
               [ProjectManager.Happens (ProjectManager.Subscribe 0);
                ProjectManager.Happens (ProjectManager.StructureCompleted 0);
                ProjectManager.Happens
                  (ProjectManager.IndexerThrew 0 "file:///proj/a.schema" thrown)]
               pm1 in
  (fst (ProjectManager.ensureOwnFiles Sample.project) = 0 /\
   fst (ProjectManager.ensureOwnFiles pm1) = 0 /\
   fst (ProjectManager.ensureOwnFiles pm2) = 0 /\
   ProjectManager.ensuredBy 0 (ProjectManager.updaterCalls pm2)
     = ["file:///proj/a.schema"; "file:///proj/a.schema"] /\
   ~ NoDup (ProjectManager.ensuredBy 0 (ProjectManager.updaterCalls pm2))) /\
  (Util.path2uri "file:///proj/a.schema" = Thrown thrown /\
   ProjectManager.state <$> ProjectManager.pipelines pm3 !! 0
     = Some ProjectManager.Failed /\
   ProjectManager.ensuredOwnFiles pm3 = Some 0 /\
   fst (ProjectManager.ensureOwnFiles pm3) = 0 /\
   ProjectManager.pipelines (snd (ProjectManager.ensureOwnFiles pm3))
     = ProjectManager.pipelines pm3).
Proof.
  intros pm1 acts pm2 thrown pm3.
  assert (Hcalls : ProjectManager.ensuredBy 0 (ProjectManager.updaterCalls pm2)
                   = ["file:///proj/a.schema"; "file:///proj/a.schema"])
    by (vm_compute; reflexivity).
  split.
  - split; [vm_compute; reflexivity|]. split; [vm_compute; reflexivity|].
    split; [vm_compute; reflexivity|]. split; [exact Hcalls|].
    rewrite Hcalls. intros Hnd. apply NoDup_cons in Hnd as [Hnin _].
    apply Hnin. left.
  - split; [vm_compute; reflexivity|]. split; [vm_compute; reflexivity|].
    split; [vm_compute; reflexivity|]. split; [vm_compute; reflexivity|].
    vm_compute; reflexivity.
Qed.

Section IndexerFailure.
Import Util Memfs ProjectManager.
Context {Svc : Type} `{LanguageService Svc} `{NodeRuntime}.
Local Abbreviation PM := (ProjectManager Svc).

(** A failure that C5, as amended, leaves aside: when [updateFile]
    throws in the next callback of [do()], the pipeline fails but its
    error callback does not run: nothing is logged, every slot keeps
    what it holds, and the next call of [ensureOwnFiles()] returns the
    failed pipeline instead of building a new one. *)
Lemma indexer_throw_keeps_slot (pm : PM) (h : Handle) (p : Pipeline)
    (pending : list string) (uri err : string) :
  pipelines pm !! h = Some p ->
  state p = Fetching pending ->
  uri ∈ pending ->
  let pm' := pipelineStep (IndexerThrew h uri err) pm in
  pipelines pm' !! h = Some (mkPipeline (kind p) Failed (refCount p)) /\
  (forall k, slot k pm' = slot k pm) /\
  logged pm' = logged pm /\
  updaterCalls pm' = updaterCalls pm /\
  (ensuredOwnFiles pm = Some h ->
   fst (ensureOwnFiles pm') = h /\
   pipelines (snd (ensureOwnFiles pm')) = pipelines pm').
Proof.
  intros Hl Hst Hin. cbn. rewrite Hl, Hst.
  rewrite bool_decide_eq_true_2 by exact Hin. cbn.
  pose proof (lookup_lt_Some _ _ _ Hl) as Hlt.
  split; [by apply list_lookup_insert_eq|].
  split; [by intros []|]. split; [reflexivity|]. split; [reflexivity|].
  intros Hslot. unfold ensureOwnFiles; cbn. rewrite Hslot. done.
Qed.

End IndexerFailure.

Section SynchronizerClaims.
Import Util Memfs ProjectManager.

Context {Svc : Type} `{LanguageService Svc} `{NodeRuntime}.
Local Abbreviation PM := (ProjectManager Svc).

(** When [ensureStructure()] completes, a pipeline calls [ensure] for
    the known URIs that pass its filter, and for no other. *)
Lemma structureCompleted_fetch_set (pm : PM) (h : Handle) (p : Pipeline) :
  pipelines pm !! h = Some p -> state p = AwaitStructure ->
  updaterCalls (pipelineStep (StructureCompleted h) pm) =
    updaterCalls pm ++
    map (Ensure h) (List.filter (pipelineFilter (kind p)) (uris (inMemoryFs pm))).
Proof. intros Hlook Hst. cbn. rewrite Hlook, Hst. reflexivity. Qed.

Lemma didChange_eq (pm : PM) (uri text filePath : string) :
  uri2path uri = Returned filePath ->
  didChange uri text pm =
    (Returned tt,
     reindex filePath
       (bumpVersion uri
          (set_inMemoryFs (fun _ => snd (Memfs.didChange uri text (inMemoryFs pm))) pm))).
Proof.
  intros Hu. unfold didChange, bind, lift, onFs, modify. rewrite Hu. reflexivity.
Qed.

Lemma didClose_eq (pm : PM) (uri filePath : string) :
  uri2path uri = Returned filePath ->
  didClose uri pm =
    (Returned tt,
     reindex filePath
       (bumpVersion uri
          (set_inMemoryFs (fun _ => snd (Memfs.didClose uri (inMemoryFs pm))) pm))).
Proof.
  intros Hu. unfold didClose, bind, lift, onFs, modify. rewrite Hu. reflexivity.
Qed.

Lemma reindex_fields (filePath : string) (pm : PM) :
  inMemoryFs (reindex filePath pm) = inMemoryFs pm /\
  versions (reindex filePath pm) = versions pm /\
  service (reindex filePath pm) = snd (updateFile (inMemoryFs pm) filePath (service pm)).
Proof.
  unfold reindex, ensureSourceFile. by destruct (updateFile _ _ _).
Qed.

Lemma bumpVersion_versionOf (uri : string) (pm : PM) :
  versionOf (bumpVersion uri pm) uri = (versionOf pm uri + 1)%Z.
Proof. unfold versionOf, bumpVersion; cbn. by rewrite lookup_insert_eq. Qed.

(** C6, as amended: for a URI that [uri2path] converts, [didChange],
    [didOpen] and [didClose] change the virtual file system as the
    notification says, add one to the version of the URI and index the
    file again through [updateFile], leaving the versions of the other
    URIs as they are; [didSave] only stores the overlay content in the
    content cache: it changes no version and does not index. *)
Theorem editor_notifications (pm : PM) (uri text filePath : string) :
  uri2path uri = Returned filePath ->
  (let pm' := snd (didChange uri text pm) in
   fst (didChange uri text pm) = Returned tt /\
   inMemoryFs pm' = snd (Memfs.didChange uri text (inMemoryFs pm)) /\
   versionOf pm' uri = (versionOf pm uri + 1)%Z /\
   (forall other, other <> uri -> versionOf pm' other = versionOf pm other) /\
   service pm' = snd (updateFile (inMemoryFs pm') filePath (service pm))) /\
  didOpen uri text pm = didChange uri text pm /\
  (let pm' := snd (didClose uri pm) in
   fst (didClose uri pm) = Returned tt /\
   inMemoryFs pm' = snd (Memfs.didClose uri (inMemoryFs pm)) /\
   versionOf pm' uri = (versionOf pm uri + 1)%Z /\
   (forall other, other <> uri -> versionOf pm' other = versionOf pm other) /\
   service pm' = snd (updateFile (inMemoryFs pm') filePath (service pm))) /\
  (let pm' := snd (didSave uri pm) in
   inMemoryFs pm' = snd (Memfs.didSave uri (inMemoryFs pm)) /\
   versions pm' = versions pm /\
   service pm' = service pm).
Proof.
  intros Hu. split; [|split; [reflexivity|split]].
  - rewrite (didChange_eq pm uri text filePath Hu). cbn [fst snd].
    destruct (reindex_fields filePath
                (bumpVersion uri
                   (set_inMemoryFs
                      (fun _ => snd (Memfs.didChange uri text (inMemoryFs pm))) pm)))
      as (Hfs & Hv & Hs).
    split; [reflexivity|]. split; [by rewrite Hfs|]. split; [|split].
    + unfold versionOf. rewrite Hv. cbn. by rewrite lookup_insert_eq.
    + intros other Hne. unfold versionOf. rewrite Hv. cbn.
      by rewrite lookup_insert_ne.
    + by rewrite Hs, Hfs.
  - rewrite (didClose_eq pm uri filePath Hu). cbn [fst snd].
    destruct (reindex_fields filePath
                (bumpVersion uri
                   (set_inMemoryFs
                      (fun _ => snd (Memfs.didClose uri (inMemoryFs pm))) pm)))
      as (Hfs & Hv & Hs).
    split; [reflexivity|]. split; [by rewrite Hfs|]. split; [|split].
    + unfold versionOf. rewrite Hv. cbn. by rewrite lookup_insert_eq.
    + intros other Hne. unfold versionOf. rewrite Hv. cbn.
      by rewrite lookup_insert_ne.
    + by rewrite Hs, Hfs.
  - unfold didSave, onFs. by destruct (Memfs.didSave uri (inMemoryFs pm)).
Qed.

End SynchronizerClaims.

Lemma editor_notifications_witness :
  Util.uri2path (H := Sample.runtime) "file:///proj/a.schema" = Returned "/proj/a.schema" /\
  ProjectManager.versionOf
    (snd (ProjectManager.didChange (H := Sample.recorder) (H0 := Sample.runtime)
            "file:///proj/a.schema" "A" Sample.project))
    "file:///proj/a.schema"
  = (ProjectManager.versionOf Sample.project "file:///proj/a.schema" + 1)%Z.
Proof.
  split; [reflexivity|].
  refine (proj1 (proj2 (proj2 (proj1
            (editor_notifications (H := Sample.recorder) (H0 := Sample.runtime)
               Sample.project "file:///proj/a.schema" "A" "/proj/a.schema" _))))).
  reflexivity.
Defined.

(** C6 as stated fails for [didSave]: after [didChange] then [didSave] on
    the same URI the version is the one [didChange] left, not one more,
    and the indexer was not asked again. *)
Lemma didSave_keeps_version :
  let pm1 := snd (ProjectManager.didChange (H := Sample.recorder) (H0 := Sample.runtime)
                    "file:///proj/a.schema" "B" Sample.project) in
  let pm2 := snd (ProjectManager.didSave (H0 := Sample.runtime)
                    "file:///proj/a.schema" pm1) in
  ProjectManager.versionOf pm2 "file:///proj/a.schema"
    <> (ProjectManager.versionOf pm1 "file:///proj/a.schema" + 1)%Z /\
  ProjectManager.service pm2 = ["/proj/a.schema"].
Proof.
  cbv zeta.
  pose proof (editor_notifications (H := Sample.recorder) (H0 := Sample.runtime)) as E.
  destruct (E (snd (ProjectManager.didChange (H := Sample.recorder) (H0 := Sample.runtime)
                       "file:///proj/a.schema" "B" Sample.project))
              "file:///proj/a.schema" "" "/proj/a.schema" eq_refl)
    as (_ & _ & _ & (_ & Hv & Hs)).
  unfold ProjectManager.versionOf. rewrite Hv, Hs. split; [|reflexivity].
  destruct (default 0%Z _); lia.
Qed.

(** ** The request dispatcher *)

Section DispatcherFacts.
Import Connection.
Context {Json Operation Err Params : Type} `{Libraries Json Operation Err Params}.
Variable hasMethod : string -> bool.
Local Abbreviation D := (@Dispatcher Json Operation Params).
Local Abbreviation Sig := (@Signal Operation Err).

Lemma deliverAll_cons (s : SubId) (sig : Signal) (sigs : list Signal) (d : D) :
  deliverAll s (sig :: sigs) d = deliverAll s sigs (deliver s sig d).
Proof. reflexivity. Qed.

Lemma run_cons (ev : Event) (evs : list Event) (d : D) :
  run hasMethod (ev :: evs) d = run hasMethod evs (step hasMethod ev d).
Proof. reflexivity. Qed.

Lemma step_emit (s : SubId) (sig : Signal) (d : D) :
  step hasMethod (Emit s sig) d = runNextTick (deliver s sig d).
Proof. reflexivity. Qed.

Lemma run_app (evs1 evs2 : list Event) (d : D) :
  run hasMethod (evs1 ++ evs2) d = run hasMethod evs2 (run hasMethod evs1 d).
Proof. unfold run. apply foldl_app. Qed.

(** The queued deletions touch neither the subscriptions' state nor
    what was written. *)
Lemma runNextTick_fields (d : D) :
  subscribers (runNextTick d) = subscribers d /\
  written (runNextTick d) = written d /\
  streaming (runNextTick d) = streaming d /\
  logged (runNextTick d) = logged d.
Proof. done. Qed.

Lemma streamingTo_runNextTick (s : SubId) (id : RequestId) (method : string)
    (a : Json) (d : D) :
  streamingTo s id method a d -> streamingTo s id method a (runNextTick d).
Proof. intros Hs. exact Hs. Qed.

Lemma streamingTo_bound (s : SubId) (id : RequestId) (method : string)
    (a : Json) (d : D) :
  streamingTo s id method a d -> s < length (subscribers d).
Proof. intros [Hl _]. by apply lookup_lt_Some in Hl. Qed.

(** One patch reaches a streaming request: it is written as a partial
    result and folded into the accumulator. *)
Lemma deliver_next (s : SubId) (id : RequestId) (method : string)
    (a a' : Json) (patch : Operation) (d : D) :
  streamingTo s id method a d ->
  applyReducer a patch = inr a' ->
  streamingTo s id method a' (deliver s (Next patch) d) /\
  written (deliver s (Next patch) d) = written d ++ [PartialResult id [patch]].
Proof.
  intros Hs Happ. pose proof (streamingTo_bound _ _ _ _ _ Hs) as Hlt.
  destruct Hs as [Hl Hstr]. unfold deliver. rewrite Hl. cbn.
  rewrite Hstr, Happ. split; [|reflexivity].
  split; [|exact Hstr]. cbn. by rewrite list_lookup_insert_eq.
Qed.

(** The stream of a request completes: the accumulator is the result. *)
Lemma deliver_complete (s : SubId) (id : RequestId) (method : string)
    (a : Json) (d : D) :
  streamingTo s id method a d ->
  written (deliver s Complete d) = written d ++ [ResultResponse id a].
Proof.
  intros [Hl Hstr]. unfold deliver. rewrite Hl. cbn. reflexivity.
Qed.

(** Patches delivered while the handler's observable is subscribed. *)
Lemma deliverAll_nexts (s : SubId) (id : RequestId) (method : string)
    (patches : list Operation) (a a' : Json) (d : D) :
  streamingTo s id method a d ->
  applyAll a patches = inr a' ->
  streamingTo s id method a' (deliverAll s (map Next patches) d) /\
  written (deliverAll s (map Next patches) d) =
    written d ++ map (fun p => PartialResult id [p]) patches.
Proof.
  revert a d. induction patches as [|p ps IH]; intros a d Hs Happ; cbn in Happ.
  - injection Happ as <-. cbn. by rewrite app_nil_r.
  - destruct (applyReducer a p) as [err|a1] eqn:Hp; [discriminate|].
    destruct (deliver_next s id method a a1 p d Hs Hp) as [Hs1 Hw1].
    destruct (IH a1 _ Hs1 Happ) as [Hs2 Hw2].
    cbn [map]. rewrite deliverAll_cons.
    split; [exact Hs2|]. rewrite Hw2, Hw1, <- app_assoc. reflexivity.
Qed.

(** Patches delivered later, one event each. *)
Lemma run_nexts (s : SubId) (id : RequestId) (method : string)
    (patches : list Operation) (a a' : Json) (d : D) :
  streamingTo s id method a d ->
  applyAll a patches = inr a' ->
  streamingTo s id method a' (run hasMethod (map (Emit s) (map Next patches)) d) /\
  written (run hasMethod (map (Emit s) (map Next patches)) d) =
    written d ++ map (fun p => PartialResult id [p]) patches.
Proof.
  revert a d. induction patches as [|p ps IH]; intros a d Hs Happ; cbn in Happ.
  - injection Happ as <-. cbn. by rewrite app_nil_r.
  - destruct (applyReducer a p) as [err|a1] eqn:Hp; [discriminate|].
    destruct (deliver_next s id method a a1 p d Hs Hp) as [Hs1 Hw1].
    apply streamingTo_runNextTick in Hs1.
    destruct (IH a1 _ Hs1 Happ) as [Hs2 Hw2].
    cbn [map]. rewrite run_cons, step_emit.
    split; [exact Hs2|]. rewrite Hw2.
    destruct (runNextTick_fields (deliver s (Next p) d)) as (_ & -> & _).
    rewrite Hw1, <- app_assoc. reflexivity.
Qed.

Lemma applyAll_app (a : Json) (ps1 ps2 : list Operation) :
  applyAll a (ps1 ++ ps2) =
    match applyAll a ps1 with
    | inr a1 => applyAll a1 ps2
    | inl err => inl err
    end.
Proof.
  revert a. induction ps1 as [|p ps1 IH]; intros a; cbn; [reflexivity|].
  destruct (applyReducer a p); [reflexivity|]. apply IH.
Qed.


Lemma deliverAll_app (s : SubId) (sigs1 sigs2 : list Signal) (d : D) :
  deliverAll s (sigs1 ++ sigs2) d = deliverAll s sigs2 (deliverAll s sigs1 d).
Proof. unfold deliverAll. apply foldl_app. Qed.

(** A stream of patches closed by a completion is cut in two either
    inside the patches or after the completion. *)
Lemma split_stream (patches : list Operation) (sync later : list Sig) :
  sync ++ later = map Next patches ++ [Complete] ->
  (exists ps1 ps2, patches = ps1 ++ ps2 /\ sync = map Next ps1 /\
                   later = map Next ps2 ++ [Complete]) \/
  (sync = map Next patches ++ [Complete] /\ later = []).
Proof.
  revert sync. induction patches as [|p ps IH]; intros sync Heq.
  - destruct sync as [|x sync]; cbn in Heq.
    + left. exists [], []. by subst.
    + injection Heq as -> Heq. apply app_eq_nil in Heq as [-> ->]. by right.
  - destruct sync as [|x sync]; cbn in Heq.
    + left. exists [], (p :: ps). by subst.
    + injection Heq as -> Heq. destruct (IH sync Heq) as [(ps1 & ps2 & -> & -> & ->)|[-> ->]].
      * left. by exists (p :: ps1), ps2.
      * by right.
Qed.

Lemma lifecycle_fields (method : string) (params : Params) (d : D) :
  subscribers (default d (lifecycle method params d)) = subscribers d /\
  written (default d (lifecycle method params d)) = written d.
Proof.
  unfold lifecycle.
  destruct (String.eqb method "initialize"); [done|].
  destruct (String.eqb method "shutdown"); done.
Qed.

(** A request for a method the handler has: the subscription is created
    with the accumulator [null], hears what the observable sends at
    once, and is then stored under the request id. *)
Lemma onMessage_request (id : RequestId) (method : string) (params : Params)
    (sync : list Signal) (d : D) :
  String.eqb method "exit" = false ->
  String.eqb method "$/cancelRequest" = false ->
  hasMethod (camelCase method) = true ->
  onMessage hasMethod (RequestMessage id method params) sync d =
    set_subscriptions <[id := length (subscribers d)]>
      (deliverAll (length (subscribers d)) sync
         (set_subscribers (fun l => l ++ [mkSubscriber (ForRequest id method) null false])
            (invoke (camelCase method) (Some params)
               (default d (lifecycle method params d))))).
Proof.
  intros He Hc Hm. unfold onMessage. rewrite He, Hc, Hm. cbn [negb].
  cbn [invoke subscribers].
  by destruct (lifecycle_fields method params d) as [-> _].
Qed.

(** The patches of a request whose stream then completes are written as
    partial results in the order sent, followed by the response that
    carries their fold; at whatever point the observable stops sending
    at once and goes on later. *)
Lemma request_stream (d : D) (id : RequestId) (method : string) (params : Params)
    (patches : list Operation) (r : Json) (sync later : list Signal) :
  String.eqb method "exit" = false ->
  String.eqb method "$/cancelRequest" = false ->
  hasMethod (camelCase method) = true ->
  streaming (default d (lifecycle method params d)) = true ->
  sync ++ later = map Next patches ++ [Complete] ->
  applyAll null patches = inr r ->
  written
    (run hasMethod
       (Receive (RequestMessage id method params) sync
          :: map (Emit (length (subscribers d))) later) d)
  = written d ++ map (fun p => PartialResult id [p]) patches ++ [ResultResponse id r].
Proof.
  intros He Hc Hm Hstr Hsplit Hfold.
  set (s := length (subscribers d)).
  set (d2 := set_subscribers
               (fun l => l ++ [mkSubscriber (ForRequest id method) null false])
               (invoke (camelCase method) (Some params)
                  (default d (lifecycle method params d)))).
  assert (Hs2 : streamingTo s id method null d2).
  { split; [|exact Hstr]. subst d2 s. cbn.
    destruct (lifecycle_fields method params d) as [-> _].
    by rewrite lookup_app_r, Nat.sub_diag by lia. }
  assert (Hw2 : written d2 = written d).
  { subst d2. cbn. by destruct (lifecycle_fields method params d) as [_ ->]. }
  rewrite run_cons. change (step hasMethod (Receive ?m sync) d)
    with (runNextTick (onMessage hasMethod m sync d)).
  rewrite onMessage_request by assumption. fold s d2.
  destruct (split_stream patches sync later Hsplit)
    as [(ps1 & ps2 & -> & -> & ->)|[-> ->]].
  - rewrite applyAll_app in Hfold.
    destruct (applyAll null ps1) as [err|a1] eqn:H1; [discriminate|].
    destruct (deliverAll_nexts s id method ps1 null a1 d2 Hs2 H1) as [Hs3 Hw3].
    set (d3 := deliverAll s (map Next ps1) d2) in *.
    assert (Hs4 : streamingTo s id method a1
                    (runNextTick (set_subscriptions <[id := s]> d3))) by exact Hs3.
    rewrite map_app, run_app.
    destruct (run_nexts s id method ps2 a1 r _ Hs4 Hfold) as [Hs5 Hw5].
    cbn [map]. rewrite run_cons, step_emit. cbn [run foldl].
    destruct (runNextTick_fields
                (deliver s Complete
                   (run hasMethod (map (Emit s) (map Next ps2))
                      (runNextTick (set_subscriptions <[id := s]> d3)))))
      as (_ & -> & _).
    rewrite (deliver_complete s id method r _ Hs5), Hw5. cbn [written runNextTick
      set_nextTick set_subscriptions]. rewrite Hw3, Hw2, map_app, <- !app_assoc.
    reflexivity.
  - destruct (deliverAll_nexts s id method patches null r d2 Hs2 Hfold) as [Hs3 Hw3].
    rewrite deliverAll_app. cbn [map run foldl deliverAll].
    cbn [written runNextTick set_nextTick set_subscriptions].
    rewrite (deliver_complete s id method r _ Hs3), Hw3, Hw2, <- app_assoc.
    reflexivity.
Qed.


Lemma resultsFor_app (id : RequestId) (out1 out2 : list (@Outgoing Json Operation)) :
  resultsFor id (out1 ++ out2) = resultsFor id out1 ++ resultsFor id out2.
Proof. unfold resultsFor. apply omap_app. Qed.

Lemma resultsFor_one (id : RequestId) (o : @Outgoing Json Operation) :
  resultsFor id [o] =
    match o with
    | ResultResponse id' r => if decide (id' = id) then [r] else []
    | _ => []
    end.
Proof.
  destruct o as [id' patch|id' r|id' message code data]; cbn; try reflexivity.
  by destruct (decide (id' = id)).
Qed.

(** Replacing a subscription by one with the same purpose that is open
    only if the old one was opens nothing. *)
Lemma openFor_update (d d' : D) (s s' : SubId) (sub sub' : Subscriber)
    (id : RequestId) :
  subscribers d !! s = Some sub ->
  subscribers d' = <[s := sub']> (subscribers d) ->
  purpose sub' = purpose sub ->
  (closed sub' = false -> closed sub = false) ->
  openFor id d' s' -> openFor id d s'.
Proof.
  intros Hl Hd' Hp Hc (x & method & Hx & Hopen & Hpur). rewrite Hd' in Hx.
  destruct (decide (s' = s)) as [->|Hne].
  - rewrite list_lookup_insert_eq in Hx by (by apply lookup_lt_Some in Hl).
    injection Hx as <-. exists sub, method. rewrite <- Hp. auto.
  - rewrite list_lookup_insert_ne in Hx by done. by exists x, method.
Qed.

Lemma openFor_same (d d' : D) (s' : SubId) (id : RequestId) :
  subscribers d' = subscribers d -> openFor id d' s' -> openFor id d s'.
Proof. intros Hd' (x & method & Hx & Hrest). rewrite Hd' in Hx. by exists x, method. Qed.

Lemma close_opens (d : D) (s s' : SubId) (sub : Subscriber) (id : RequestId) :
  subscribers d !! s = Some sub ->
  openFor id (close s sub d) s' -> openFor id d s' /\ s' <> s.
Proof.
  intros Hl Ho.
  assert (Hsubs : subscribers (close s sub d) =
                  <[s := mkSubscriber (purpose sub) (acc sub) true]> (subscribers d)).
  { unfold close. by destruct (purpose sub). }
  split.
  - apply (openFor_update d _ s s' sub (mkSubscriber (purpose sub) (acc sub) true) id
             Hl Hsubs); [reflexivity|discriminate|exact Ho].
  - intros ->. destruct Ho as (x & method & Hx & Hopen & _). rewrite Hsubs in Hx.
    rewrite list_lookup_insert_eq in Hx by (by apply lookup_lt_Some in Hl).
    injection Hx as <-. discriminate.
Qed.

Lemma close_written (d : D) (s : SubId) (sub : Subscriber) :
  written (close s sub d) = written d.
Proof. unfold close. by destruct (purpose sub). Qed.

Lemma unsubscribe_opens (d : D) (s s' : SubId) (id : RequestId) :
  openFor id (unsubscribe s d) s' -> openFor id d s' /\ s' <> s.
Proof.
  unfold unsubscribe. destruct (subscribers d !! s) as [sub|] eqn:Hl.
  - destruct (closed sub) eqn:Hc.
    + intros Ho. split; [exact Ho|]. intros ->.
      destruct Ho as (x & method & Hx & Hopen & _). congruence.
    + by apply close_opens.
  - intros Ho. split; [exact Ho|]. intros ->.
    destruct Ho as (x & method & Hx & _). congruence.
Qed.

Lemma unsubscribe_written (d : D) (s : SubId) :
  written (unsubscribe s d) = written d.
Proof.
  unfold unsubscribe. destruct (subscribers d !! s) as [sub|]; [|reflexivity].
  destruct (closed sub); [reflexivity|apply close_written].
Qed.


(** A signal opens no subscription. *)
Lemma deliver_opens (d : D) (s s' : SubId) (sig : Sig) (id : RequestId) :
  openFor id (deliver s sig d) s' -> openFor id d s'.
Proof.
  unfold deliver. destruct (subscribers d !! s) as [sub|] eqn:Hl; [|done].
  destruct (closed sub) eqn:Hc; [done|].
  destruct (purpose sub) as [rid method|method] eqn:Hp, sig as [patch| |err];
    try done.
  - destruct (applyReducer (acc sub) patch) as [err|a'].
    + intros Ho. apply close_opens in Ho as [Ho _].
      * revert Ho. apply openFor_same. by destruct (streaming d).
      * destruct (streaming d); exact Hl.
    + apply (openFor_update d _ s s' sub
               (mkSubscriber (ForRequest rid method) a' false) id Hl);
        [by destruct (streaming d)|by rewrite Hp|done].
  - intros Ho. apply close_opens in Ho as [Ho _]; [|exact Hl].
    revert Ho. by apply openFor_same.
  - intros Ho. apply close_opens in Ho as [Ho _]; [|exact Hl].
    revert Ho. by apply openFor_same.
  - intros Ho. by apply close_opens in Ho as [Ho _].
  - intros Ho. apply close_opens in Ho as [Ho _]; [|exact Hl].
    revert Ho. by apply openFor_same.
Qed.

(** While no open subscription serves [id], a signal writes no success
    response for [id]. *)
Lemma deliver_results (d : D) (s : SubId) (sig : Sig) (id : RequestId) :
  noneOpenFor id d ->
  resultsFor id (written (deliver s sig d)) = resultsFor id (written d).
Proof.
  intros Hnone. unfold deliver.
  destruct (subscribers d !! s) as [sub|] eqn:Hl; [|done].
  destruct (closed sub) eqn:Hc; [done|].
  destruct (purpose sub) as [rid method|method] eqn:Hp, sig as [patch| |err];
    try done; rewrite ?close_written; try done.
  - destruct (applyReducer (acc sub) patch) as [err|a']; rewrite ?close_written;
      destruct (streaming d);
      cbn [written write log respondError set_subscribers];
      rewrite ?resultsFor_app, ?resultsFor_one;
      by rewrite ?app_nil_r.
  - cbn [written write]. rewrite resultsFor_app, resultsFor_one.
    destruct (decide (rid = id)) as [->|Hne]; [|by rewrite app_nil_r].
    exfalso. apply (Hnone s). by exists sub, method.
  - cbn [written write log respondError]. rewrite resultsFor_app, resultsFor_one.
    by rewrite app_nil_r.
Qed.

Lemma noneOpenFor_deliverAll (d : D) (s : SubId) (sigs : list Sig) (id : RequestId) :
  noneOpenFor id d ->
  noneOpenFor id (deliverAll s sigs d) /\
  resultsFor id (written (deliverAll s sigs d)) = resultsFor id (written d).
Proof.
  revert d. induction sigs as [|sig sigs IH]; intros d Hnone; [done|].
  rewrite deliverAll_cons.
  assert (Hnone' : noneOpenFor id (deliver s sig d)).
  { intros s' Ho. apply (Hnone s'). by apply deliver_opens in Ho. }
  destruct (IH _ Hnone') as [H1 H2]. split; [exact H1|].
  rewrite H2. by apply deliver_results.
Qed.

Lemma unsubscribeAll_opens (d : D) (s' : SubId) (id : RequestId) :
  openFor id (unsubscribeAll d) s' -> openFor id d s'.
Proof.
  unfold unsubscribeAll. generalize ((map_to_list (subscriptions d)).*2).
  intros l. revert d. induction l as [|s l IH]; intros d; [done|].
  cbn. intros Ho. apply IH in Ho. by apply unsubscribe_opens in Ho as [Ho _].
Qed.

Lemma unsubscribeAll_written (d : D) :
  written (unsubscribeAll d) = written d.
Proof.
  unfold unsubscribeAll. generalize ((map_to_list (subscriptions d)).*2).
  intros l. revert d. induction l as [|s l IH]; intros d; [done|].
  cbn. rewrite IH. apply unsubscribe_written.
Qed.


Lemma noneOpenFor_same (d d' : D) (id : RequestId) :
  subscribers d' = subscribers d -> noneOpenFor id d -> noneOpenFor id d'.
Proof. intros Hs Hnone s' Ho. apply (Hnone s'). by apply (openFor_same d d'). Qed.

Lemma noneOpenFor_unsubscribeAll (d : D) (id : RequestId) :
  noneOpenFor id d -> noneOpenFor id (unsubscribeAll d).
Proof. intros Hnone s' Ho. apply (Hnone s'). by apply unsubscribeAll_opens. Qed.

Lemma cancelRequest_quiet (params : Params) (d : D) (id : RequestId) :
  noneOpenFor id d ->
  noneOpenFor id (cancelRequest params d) /\
  resultsFor id (written (cancelRequest params d)) = resultsFor id (written d).
Proof.
  intros Hnone. unfold cancelRequest.
  destruct (cancelId params) as [i|]; [|done].
  destruct (subscriptions d !! i) as [s|]; [|done].
  split.
  - intros s' Ho. apply (Hnone s').
    apply (openFor_same (unsubscribe s d)) in Ho; [|reflexivity].
    by apply unsubscribe_opens in Ho as [Ho _].
  - cbn [written write set_subscriptions].
    rewrite resultsFor_app, resultsFor_one, app_nil_r. by rewrite unsubscribe_written.
Qed.

(** A message that is not a request with id [id] opens no subscription
    for [id] and, while none is open, writes no success response for it. *)
Lemma onMessage_quiet (message : Message) (sync : list Sig) (d : D) (id : RequestId) :
  asksWith id (Receive message sync) = false ->
  noneOpenFor id d ->
  noneOpenFor id (onMessage hasMethod message sync d) /\
  resultsFor id (written (onMessage hasMethod message sync d))
    = resultsFor id (written d).
Proof.
  intros Hask Hnone.
  assert (Hnew : forall (d0 : D) (pur : Purpose),
            subscribers d0 = subscribers d -> written d0 = written d ->
            (forall method, pur <> ForRequest id method) ->
            let d2 := set_subscribers (fun l => l ++ [mkSubscriber pur null false]) d0 in
            noneOpenFor id (deliverAll (length (subscribers d0)) sync d2) /\
            resultsFor id (written (deliverAll (length (subscribers d0)) sync d2))
              = resultsFor id (written d)).
  { intros d0 pur Hs0 Hw0 Hpur d2.
    assert (Hnone2 : noneOpenFor id d2).
    { intros s' (x & method & Hx & Hopen & Hp). subst d2. cbn in Hx.
      rewrite Hs0 in Hx. apply lookup_app_Some in Hx as [Hx|[_ Hx]].
      - apply (Hnone s'). by exists x, method.
      - destruct (s' - length (subscribers d)) as [|n]; [|done].
        injection Hx as <-. by apply (Hpur method). }
    destruct (noneOpenFor_deliverAll d2 (length (subscribers d0)) sync id Hnone2)
      as [H1 H2].
    split; [exact H1|]. rewrite H2. subst d2. cbn. by rewrite Hw0. }
  destruct message as [|rid method params|method params|]; cbn [onMessage].
  - done.
  - destruct (String.eqb method "exit").
    { split; [by apply noneOpenFor_unsubscribeAll|by rewrite unsubscribeAll_written]. }
    destruct (String.eqb method "$/cancelRequest"); [by apply cancelRequest_quiet|].
    destruct (lifecycle_fields method params d) as [Hs0 Hw0].
    destruct (hasMethod (camelCase method)); cbn [negb].
    + cbn in Hask. apply bool_decide_eq_false in Hask.
      destruct (Hnew (invoke (camelCase method) (Some params)
                        (default d (lifecycle method params d)))
                  (ForRequest rid method) Hs0 Hw0) as [H1 H2].
      { intros m' [= -> _]. done. }
      split; [exact H1|exact H2].
    + split; [by apply (noneOpenFor_same d)|].
      cbn [written write]. by rewrite resultsFor_app, resultsFor_one, app_nil_r, Hw0.
  - destruct (String.eqb method "exit").
    { split; [by apply noneOpenFor_unsubscribeAll|by rewrite unsubscribeAll_written]. }
    destruct (String.eqb method "$/cancelRequest"); [by apply cancelRequest_quiet|].
    destruct (lifecycle_fields method params d) as [Hs0 Hw0].
    destruct (hasMethod (camelCase method)); cbn [negb].
    + by apply (Hnew (invoke (camelCase method) (Some params)
                        (default d (lifecycle method params d)))
                  (ForNotification (camelCase method)) Hs0 Hw0).
    + split; [by apply (noneOpenFor_same d)|]. cbn [written log]. by rewrite Hw0.
  - done.
Qed.

Lemma onClose_quiet (errorMessage : string) (d : D) (id : RequestId) :
  noneOpenFor id d ->
  noneOpenFor id (onClose errorMessage d) /\
  resultsFor id (written (onClose errorMessage d)) = resultsFor id (written d).
Proof.
  intros Hnone. unfold onClose.
  pose proof (noneOpenFor_unsubscribeAll d id Hnone) as H1.
  pose proof (unsubscribeAll_written d) as H2.
  destruct (initialized (unsubscribeAll d)); cbn; rewrite ?H2; split; try done.
Qed.

Lemma step_quiet (ev : Event) (d : D) (id : RequestId) :
  asksWith id ev = false ->
  noneOpenFor id d ->
  noneOpenFor id (step hasMethod ev d) /\
  resultsFor id (written (step hasMethod ev d)) = resultsFor id (written d).
Proof.
  intros Hask Hnone. unfold step.
  destruct ev as [message sync|s sig| |].
  - by apply onMessage_quiet.
  - split; [|by apply deliver_results].
    intros s' Ho. apply (Hnone s'). by apply deliver_opens in Ho.
  - by apply onClose_quiet.
  - by apply onClose_quiet.
Qed.

(** Once no open subscription serves [id], no success response for
    [id] is written until a new request carries that id. *)
Lemma run_quiet (evs : list Event) (d : D) (id : RequestId) :
  forallb (fun ev => negb (asksWith id ev)) evs = true ->
  noneOpenFor id d ->
  resultsFor id (written (run hasMethod evs d)) = resultsFor id (written d).
Proof.
  revert d. induction evs as [|ev evs IH]; intros d Hevs Hnone; [done|].
  cbn in Hevs. apply andb_true_iff in Hevs as [Hev Hevs].
  apply negb_true_iff in Hev.
  destruct (step_quiet ev d id Hev Hnone) as [H1 H2].
  rewrite run_cons, (IH _ Hevs H1). exact H2.
Qed.


Lemma lookup_after_deletes (q : list RequestId) (m : gmap RequestId SubId)
    (id : RequestId) :
  m !! id = None -> foldl (fun m i => delete i m) m q !! id = None.
Proof.
  revert m. induction q as [|i q IH]; intros m Hm; [exact Hm|].
  cbn. apply IH. apply lookup_delete_None. by right.
Qed.

Lemma unsubscribe_closes (d : D) (s : SubId) (sub : Subscriber) :
  subscribers (unsubscribe s d) !! s = Some sub -> closed sub = true.
Proof.
  unfold unsubscribe. destruct (subscribers d !! s) as [x|] eqn:Hl; [|congruence].
  destruct (closed x) eqn:Hc; [congruence|].
  assert (Hsubs : subscribers (close s x d) =
                  <[s := mkSubscriber (purpose x) (acc x) true]> (subscribers d)).
  { unfold close. by destruct (purpose x). }
  rewrite Hsubs, list_lookup_insert_eq by (by apply lookup_lt_Some in Hl).
  by intros [= <-].
Qed.


(** A closed subscription stays closed and hears nothing. *)
Lemma deliver_closed (d : D) (s : SubId) (sig : Sig) :
  closedAt s d -> deliver s sig d = d.
Proof. intros (sub & Hl & Hc). unfold deliver. by rewrite Hl, Hc. Qed.

Lemma closedAt_update (d d' : D) (s s1 : SubId) (sub1 sub1' : Subscriber) :
  subscribers d !! s1 = Some sub1 -> closed sub1 = false ->
  subscribers d' = <[s1 := sub1']> (subscribers d) ->
  closedAt s d -> closedAt s d'.
Proof.
  intros Hl1 Hc1 Hd' (sub & Hl & Hc). exists sub. split; [|exact Hc].
  rewrite Hd', list_lookup_insert_ne; [exact Hl|]. intros ->. congruence.
Qed.

Lemma closedAt_same (d d' : D) (s : SubId) :
  subscribers d' = subscribers d -> closedAt s d -> closedAt s d'.
Proof. intros Hd' (sub & Hl & Hc). exists sub. by rewrite Hd'. Qed.

Lemma closedAt_close (d : D) (s s1 : SubId) (sub1 : Subscriber) :
  subscribers d !! s1 = Some sub1 -> closed sub1 = false ->
  closedAt s d -> closedAt s (close s1 sub1 d).
Proof.
  intros Hl1 Hc1.
  apply (closedAt_update d _ s s1 sub1
           (mkSubscriber (purpose sub1) (acc sub1) true) Hl1 Hc1).
  unfold close. by destruct (purpose sub1).
Qed.

Lemma closedAt_unsubscribe (d : D) (s s1 : SubId) :
  closedAt s d -> closedAt s (unsubscribe s1 d).
Proof.
  intros Hcl. unfold unsubscribe.
  destruct (subscribers d !! s1) as [sub1|] eqn:Hl1; [|exact Hcl].
  destruct (closed sub1) eqn:Hc1; [exact Hcl|]. by apply closedAt_close.
Qed.

Lemma closedAt_unsubscribeAll (d : D) (s : SubId) :
  closedAt s d -> closedAt s (unsubscribeAll d).
Proof.
  unfold unsubscribeAll. generalize ((map_to_list (subscriptions d)).*2).
  intros l. revert d. induction l as [|s1 l IH]; intros d Hcl; [exact Hcl|].
  cbn. by apply IH, closedAt_unsubscribe.
Qed.

Lemma closedAt_deliver (d : D) (s s1 : SubId) (sig : Sig) :
  closedAt s d -> closedAt s (deliver s1 sig d).
Proof.
  intros Hcl. unfold deliver.
  destruct (subscribers d !! s1) as [sub1|] eqn:Hl1; [|exact Hcl].
  destruct (closed sub1) eqn:Hc1; [exact Hcl|].
  destruct (purpose sub1) as [rid method|method] eqn:Hp, sig as [patch| |err];
    try exact Hcl.
  - destruct (applyReducer (acc sub1) patch) as [err|a'].
    + apply closedAt_close; [by destruct (streaming d)|exact Hc1|].
      apply (closedAt_same d); [by destruct (streaming d)|exact Hcl].
    + apply (closedAt_update d _ s s1 sub1
               (mkSubscriber (ForRequest rid method) a' false) Hl1 Hc1);
        [by destruct (streaming d)|exact Hcl].
  - by apply closedAt_close.
  - by apply closedAt_close.
  - by apply closedAt_close.
  - by apply closedAt_close.
Qed.

Lemma closedAt_deliverAll (d : D) (s s1 : SubId) (sigs : list Sig) :
  closedAt s d -> closedAt s (deliverAll s1 sigs d).
Proof.
  revert d. induction sigs as [|sig sigs IH]; intros d Hcl; [exact Hcl|].
  rewrite deliverAll_cons. by apply IH, closedAt_deliver.
Qed.

Lemma closedAt_grow (d : D) (s : SubId) (sub' : Subscriber) :
  closedAt s d -> closedAt s (set_subscribers (fun l => l ++ [sub']) d).
Proof.
  intros (sub & Hl & Hc). exists sub. split; [|exact Hc]. cbn.
  by apply lookup_app_l_Some.
Qed.

Lemma closedAt_onMessage (message : Message) (sync : list Sig) (d : D) (s : SubId) :
  closedAt s d -> closedAt s (onMessage hasMethod message sync d).
Proof.
  intros Hcl.
  assert (Hnormal : forall method params,
            closedAt s (default d (lifecycle method params d))).
  { intros method params. apply (closedAt_same d); [|exact Hcl].
    by destruct (lifecycle_fields method params d) as [-> _]. }
  assert (Hcancel : forall params, closedAt s (cancelRequest params d)).
  { intros params. unfold cancelRequest.
    destruct (cancelId params) as [i|]; [|exact Hcl].
    destruct (subscriptions d !! i) as [s1|]; [|exact Hcl].
    exact (closedAt_unsubscribe d s s1 Hcl). }
  assert (Hnew : forall method params pur,
            closedAt s
              (deliverAll
                 (length (subscribers (invoke (camelCase method) (Some params)
                                         (default d (lifecycle method params d)))))
                 sync
                 (set_subscribers (fun l => l ++ [mkSubscriber pur null false])
                    (invoke (camelCase method) (Some params)
                       (default d (lifecycle method params d)))))).
  { intros method params pur. apply closedAt_deliverAll, closedAt_grow.
    exact (Hnormal method params). }
  destruct message as [|rid method params|method params|]; cbn [onMessage];
    try exact Hcl.
  - destruct (String.eqb method "exit"); [by apply closedAt_unsubscribeAll|].
    destruct (String.eqb method "$/cancelRequest"); [apply Hcancel|].
    destruct (hasMethod (camelCase method)); cbn [negb].
    + exact (Hnew method params (ForRequest rid method)).
    + exact (Hnormal method params).
  - destruct (String.eqb method "exit"); [by apply closedAt_unsubscribeAll|].
    destruct (String.eqb method "$/cancelRequest"); [apply Hcancel|].
    destruct (hasMethod (camelCase method)); cbn [negb].
    + exact (Hnew method params (ForNotification (camelCase method))).
    + exact (Hnormal method params).
Qed.

Lemma closedAt_step (ev : Event) (d : D) (s : SubId) :
  closedAt s d -> closedAt s (step hasMethod ev d).
Proof.
  intros Hcl.
  assert (Hclose : forall errorMessage, closedAt s (onClose errorMessage d)).
  { intros errorMessage. unfold onClose.
    pose proof (closedAt_unsubscribeAll d s Hcl) as Hcl'.
    destruct (initialized (unsubscribeAll d)); exact Hcl'. }
  destruct ev as [message sync|s1 sig| |].
  - exact (closedAt_onMessage message sync d s Hcl).
  - exact (closedAt_deliver d s s1 sig Hcl).
  - exact (Hclose _).
  - exact (Hclose _).
Qed.

Lemma closedAt_run (evs : list Event) (d : D) (s : SubId) :
  closedAt s d -> closedAt s (run hasMethod evs d).
Proof.
  revert d. induction evs as [|ev evs IH]; intros d Hcl; [exact Hcl|].
  rewrite run_cons. by apply IH, closedAt_step.
Qed.

Lemma unsubscribe_closedAt (d : D) (s : SubId) (sub : Subscriber) :
  subscribers d !! s = Some sub -> closedAt s (unsubscribe s d).
Proof.
  intros Hl. unfold unsubscribe. rewrite Hl.
  destruct (closed sub) eqn:Hc; [by exists sub|].
  exists (mkSubscriber (purpose sub) (acc sub) true). split; [|reflexivity].
  assert (Hsubs : subscribers (close s sub d) =
                  <[s := mkSubscriber (purpose sub) (acc sub) true]> (subscribers d)).
  { unfold close. by destruct (purpose sub). }
  rewrite Hsubs. apply list_lookup_insert_eq. by apply lookup_lt_Some in Hl.
Qed.

End DispatcherFacts.

Section DispatcherClaims.
Import Connection.
Context {Json Operation Err Params : Type} `{Libraries Json Operation Err Params}.
Variable hasMethod : string -> bool.
Local Abbreviation D := (@Dispatcher Json Operation Params).
Local Abbreviation Sig := (@Signal Operation Err).

(** C1: a request for a method of the handler arrives while the peer has
    declared streaming; the observable of the handler sends the patches
    [P1], [P2], [P3] and completes, part of it while it is subscribed
    ([sync]) and the rest later; their fold by [applyReducer] from
    [null] is [r].  Then the dispatcher writes exactly the partial
    results for [P1], [P2], [P3], in this order, and then the response
    with result [r]. *)
Theorem partial_results_then_final_response (d : D) (id : RequestId)
    (method : string) (params : Params) (P1 P2 P3 : Operation) (r : Json)
    (sync later : list Sig) :
  String.eqb method "exit" = false ->
  String.eqb method "$/cancelRequest" = false ->
  hasMethod (camelCase method) = true ->
  streaming (default d (lifecycle method params d)) = true ->
  sync ++ later = [Next P1; Next P2; Next P3; Complete] ->
  applyAll null [P1; P2; P3] = inr r ->
  written
    (run hasMethod
       (Receive (RequestMessage id method params) sync
          :: map (Emit (length (subscribers d))) later) d)
  = written d ++
    [PartialResult id [P1]; PartialResult id [P2]; PartialResult id [P3];
     ResultResponse id r].
Proof.
  intros He Hc Hm Hstr Hsplit Hfold.
  exact (request_stream hasMethod d id method params [P1; P2; P3] r sync later
           He Hc Hm Hstr Hsplit Hfold).
Qed.

(** C4: a [$/cancelRequest], request or notification.  When its id has
    no entry in the table of subscriptions, nothing is written, nothing
    is unsubscribed, the handler is not called and one warning is
    logged.  When its id has the entry [s], subscription [s] is closed,
    the entry is removed and exactly one error response with the code
    [RequestCancelled] is written; whatever follows, subscription [s]
    hears no signal any more, so the cancelled computation writes
    nothing; and if [s] was the only open subscription serving that id,
    no success response for the id is written by anything that follows,
    until a new request carries the id. *)
Theorem cancelRequest_response (d : D) (message : Message) (params : Params)
    (sync : list Sig) :
  (message = NotificationMessage "$/cancelRequest" params \/
   exists rid, message = RequestMessage rid "$/cancelRequest" params) ->
  let d' := step hasMethod (Receive message sync) d in
  ((forall id, cancelId params = Some id -> subscriptions d !! id = None) ->
   written d' = written d /\
   subscribers d' = subscribers d /\
   invoked d' = invoked d /\
   logged d' = logged d ++ [LogWarn "$/cancelRequest for unknown request ID"]) /\
  (forall id s,
     cancelId params = Some id -> subscriptions d !! id = Some s ->
     written d' =
       written d ++ [ErrorResponse id "Request cancelled" RequestCancelled None] /\
     subscriptions d' !! id = None /\
     (forall sub, subscribers d' !! s = Some sub -> closed sub = true) /\
     (forall sub, subscribers d !! s = Some sub ->
      forall (evs : list Event) (sig : Sig),
        deliver s sig (run hasMethod evs d') = run hasMethod evs d') /\
     ((forall s', openFor id d s' -> s' = s) ->
      forall evs : list Event,
        forallb (fun ev => negb (asksWith id ev)) evs = true ->
        resultsFor id (written (run hasMethod evs d')) = resultsFor id (written d))).
Proof.
  intros Hmsg d'.
  assert (Hd' : d' = runNextTick (cancelRequest params d)).
  { subst d'. by destruct Hmsg as [->|[rid ->]]. }
  rewrite Hd'. clear Hd' d' Hmsg. split.
  - intros Hunknown. unfold cancelRequest.
    destruct (cancelId params) as [id|]; [|done].
    by rewrite (Hunknown id eq_refl).
  - intros id s Hid Hs. unfold cancelRequest. rewrite Hid, Hs.
    split; [|split; [|split; [|split]]].
    + cbn. by rewrite unsubscribe_written.
    + cbn. apply lookup_after_deletes, lookup_delete_eq.
    + intros sub. cbn. apply unsubscribe_closes.
    + intros sub Hsub evs sig. apply deliver_closed, closedAt_run.
      exact (unsubscribe_closedAt d s sub Hsub).
    + intros Huniq evs Hevs.
      rewrite (run_quiet hasMethod evs _ id Hevs).
      * cbn [written write runNextTick set_nextTick set_subscriptions].
        rewrite resultsFor_app, resultsFor_one, app_nil_r.
        by rewrite unsubscribe_written.
      * intros s' Ho.
        apply (openFor_same (unsubscribe s d)) in Ho; [|reflexivity].
        apply unsubscribe_opens in Ho as [Ho Hne]. by apply Hne, Huniq.
Qed.

End DispatcherClaims.

Section DispatcherExamples.
Import Connection Sample.

Lemma partial_results_then_final_response_witness :
  streaming streamingDispatcher = true /\
  applyAll (H := libraries) SNull [P1; P2; P3] = inr (SNumber 3) /\
  written
    (run (H := libraries) serviceMethods
       (Receive completion [Next P1] :: map (Emit 0) [Next P2; Next P3; Complete])
       streamingDispatcher)
  = [PartialResult (IdNumber 1) [P1]; PartialResult (IdNumber 1) [P2];
     PartialResult (IdNumber 1) [P3]; ResultResponse (IdNumber 1) (SNumber 3)].
Proof.
  split; [reflexivity|]. split; [reflexivity|].
  exact (partial_results_then_final_response (H := libraries)
           serviceMethods streamingDispatcher (IdNumber 1)
           "textDocument/completion" noParams P1 P2 P3 (SNumber 3)
           [Next P1] [Next P2; Next P3; Complete]
           eq_refl eq_refl eq_refl eq_refl eq_refl eq_refl).
Defined.

(** When [applyReducer] throws, here on a failed [test], [reduce] turns
    the exception into a stream error: the patch was already sent as a
    partial result, the error response follows, and the subscription
    hears nothing more. *)
Example failing_patch_ends_in_error :
  written
    (run (H := libraries) serviceMethods
       [Receive completion [Next failingTest; Next P2; Complete]]
       streamingDispatcher)
  = [PartialResult (IdNumber 1) [failingTest];
     ErrorResponse (IdNumber 1) "Test operation failed" UnknownErrorCode
       (Some SNull)].
Proof. reflexivity. Qed.

Lemma cancelRequest_response_witness :
  subscriptions inFlight !! IdNumber 1 = Some 0 /\
  (forall s', openFor (IdNumber 1) inFlight s' -> s' = 0) /\
  resultsFor (IdNumber 1)
    (written
       (run (H := libraries) serviceMethods
          [Emit 0 (Next P2); Emit 0 Complete]
          (step (H := libraries) serviceMethods (Receive cancel []) inFlight)))
  = resultsFor (IdNumber 1) (written inFlight).
Proof.
  assert (Hentry : subscriptions inFlight !! IdNumber 1 = Some 0) by reflexivity.
  assert (Huniq : forall s', openFor (IdNumber 1) inFlight s' -> s' = 0).
  { intros s' (sub & method & Hsub & _). apply lookup_lt_Some in Hsub.
    cbn in Hsub. lia. }
  split; [exact Hentry|]. split; [exact Huniq|].
  refine (proj2 (proj2 (proj2 (proj2
            (proj2 (cancelRequest_response (H := libraries)
                      serviceMethods inFlight cancel
                      (cancelOf (IdNumber 1)) [] (or_introl eq_refl))
               (IdNumber 1) 0 eq_refl Hentry)))) Huniq
            [Emit 0 (Next P2); Emit 0 Complete] eq_refl).
Defined.

End DispatcherExamples.

(** * Further properties of the code *)

(** ** Paths and URIs *)

Section PathFacts.
Import Util Paths.

Lemma isSep_toUnix (c : ascii) :
  isSep (if Ascii.eqb c "\" then "/"%char else c) = isSep c.
Proof. destruct c as [[] [] [] [] [] [] [] []]; reflexivity. Qed.

Lemma isLetter_toUnix (c : ascii) :
  isLetter (if Ascii.eqb c "\" then "/"%char else c) = isLetter c.
Proof. destruct c as [[] [] [] [] [] [] [] []]; reflexivity. Qed.

Lemma notSep_toUnix (c : ascii) :
  isSep c = false -> (if Ascii.eqb c "\" then "/"%char else c) = c.
Proof. destruct c as [[] [] [] [] [] [] [] []]; cbn; congruence. Qed.

(** The test of [isAbsolutePath] with the colon compared, not matched. *)
Lemma isAbsolutePath_eq (path : string) :
  isAbsolutePath path =
    match path with
    | EmptyString => false
    | String c0 rest =>
        isSep c0 ||
        (isLetter c0 &&
         match rest with
         | String c1 (String c2 _) => Ascii.eqb c1 ":" && isSep c2
         | _ => false
         end)
    end.
Proof.
  destruct path as [|c0 [|c1 [|c2 rest]]]; try reflexivity.
  - cbn. by destruct c1 as [[] [] [] [] [] [] [] []].
  - cbn. f_equal. f_equal. by destruct c1 as [[] [] [] [] [] [] [] []].
Qed.

Lemma colon_toUnix (c : ascii) :
  Ascii.eqb (if Ascii.eqb c "\" then "/"%char else c) ":" = Ascii.eqb c ":".
Proof. destruct c as [[] [] [] [] [] [] [] []]; reflexivity. Qed.

Lemma isAbsolutePath_toUnixPath (path : string) :
  isAbsolutePath (toUnixPath path) = isAbsolutePath path.
Proof.
  rewrite !isAbsolutePath_eq.
  destruct path as [|c0 [|c1 [|c2 rest]]]; cbn [toUnixPath];
    rewrite ?isSep_toUnix, ?isLetter_toUnix, ?colon_toUnix; reflexivity.
Qed.

Lemma splitPath_toUnixPath (path : string) :
  splitPath (toUnixPath path) = splitPath path.
Proof.
  induction path as [|c s IH]; [reflexivity|].
  cbn [toUnixPath splitPath]. rewrite IH, isSep_toUnix.
  destruct (splitPath s) as [seg segs].
  destruct (isSep c) eqn:Hc; [reflexivity|]. by rewrite notSep_toUnix.
Qed.

(** X1: [path2uri] does not tell backslashes from slashes: a path and its
    form with slashes only convert to the same URI. *)
Theorem path2uri_toUnixPath (path uri : string) :
  path2uri path = Returned uri -> path2uri (toUnixPath path) = Returned uri.
Proof.
  unfold path2uri. rewrite isAbsolutePath_toUnixPath, splitPath_toUnixPath.
  destruct (isAbsolutePath path); [|discriminate]. exact id.
Qed.

Lemma path2uri_toUnixPath_witness :
  path2uri "c:\foo\bar" = Returned "file:///c:/foo/bar" /\
  path2uri (toUnixPath "c:\foo\bar") = Returned "file:///c:/foo/bar".
Proof.
  split; [reflexivity|].
  exact (path2uri_toUnixPath "c:\foo\bar" "file:///c:/foo/bar" eq_refl).
Defined.

Lemma allChars_app (p : ascii -> bool) (s1 s2 : string) :
  allChars p (s1 +:+ s2) = allChars p s1 && allChars p s2.
Proof.
  induction s1 as [|c s1 IH]; simpl; [reflexivity|].
  by rewrite IH, andb_assoc.
Qed.

Lemma hexDigit_unreserved (c : ascii) :
  isUnreserved (hexDigit (nat_of_ascii c / 16)) = true /\
  isUnreserved (hexDigit (nat_of_ascii c mod 16)) = true.
Proof. destruct c as [[] [] [] [] [] [] [] []]; split; reflexivity. Qed.

Lemma encodeURIComponent_chars (s : string) :
  allChars isUriChar (encodeURIComponent s) = true.
Proof.
  induction s as [|c s IH]; [reflexivity|]. cbn [encodeURIComponent].
  destruct (isUnreserved c) eqn:Hc; cbn [allChars].
  - unfold isUriChar at 1. by rewrite Hc, IH.
  - destruct (hexDigit_unreserved c) as [H1 H2].
    unfold isUriChar at 2 3. rewrite H1, H2, IH. reflexivity.
Qed.

Lemma concat_chars (parts : list string) :
  allChars isUriChar (String.concat "/" (map encodeURIComponent parts)) = true.
Proof.
  induction parts as [|x [|y parts] IH]; [reflexivity| |].
  - cbn. apply encodeURIComponent_chars.
  - change (String.concat "/" (map encodeURIComponent (x :: y :: parts)))
      with (encodeURIComponent x +:+ "/" +:+
            String.concat "/" (map encodeURIComponent (y :: parts))).
    rewrite !allChars_app, encodeURIComponent_chars, IH. reflexivity.
Qed.

(** An absolute path that does not begin with a separator begins with a
    drive: its first segment is a letter and a colon. *)
Lemma drive_head (path head : string) (parts : list string) :
  isAbsolutePath path = true -> splitPath path = (head, parts) ->
  String.eqb head "" = false ->
  exists c0, head = String c0 (String ":" EmptyString) /\ isLetter c0 = true.
Proof.
  rewrite isAbsolutePath_eq. intros Habs Hsplit Hhead.
  destruct path as [|c0 rest]; [discriminate|].
  cbn [splitPath] in Hsplit. destruct (isSep c0) eqn:H0.
  { destruct (splitPath rest). injection Hsplit as <- _. discriminate. }
  cbn in Habs. apply andb_true_iff in Habs as [Hl Habs].
  destruct rest as [|c1 [|c2 rest]]; try discriminate.
  apply andb_true_iff in Habs as [H1 H2]. apply Ascii.eqb_eq in H1. subst c1.
  cbn [splitPath] in Hsplit. rewrite H2 in Hsplit.
  destruct (splitPath rest) as [seg segs]. cbn in Hsplit.
  injection Hsplit as <- _. by exists c0.
Qed.

Lemma isLetter_unreserved (c : ascii) : isLetter c = true -> isUnreserved c = true.
Proof. intros Hc. unfold isUnreserved. by rewrite Hc. Qed.

(** X2: whatever the absolute path, the URI [path2uri] returns is
    [file:///] followed only by characters that [encodeURIComponent] lets
    through, [%], [/] and [:]; so it holds no backslash, space, [?] or [#]. *)
Theorem path2uri_wellformed (path uri : string) :
  path2uri path = Returned uri ->
  exists rest, uri = "file:///" +:+ rest /\ allChars isUriChar rest = true.
Proof.
  unfold path2uri. destruct (isAbsolutePath path) eqn:Habs; [|discriminate].
  cbn [negb]. destruct (splitPath path) as [head parts] eqn:Hsplit.
  destruct (String.eqb head "") eqn:Hhead; intros [= <-].
  - apply String.eqb_eq in Hhead. subst head.
    exists (String.concat "/" (map encodeURIComponent parts)).
    split; [reflexivity|apply concat_chars].
  - destruct (drive_head path head parts Habs Hsplit Hhead) as (c0 & -> & Hl).
    exists (String c0 (String ":" (String "/"
              (String.concat "/" (map encodeURIComponent parts))))).
    split; [reflexivity|]. cbn [allChars].
    rewrite concat_chars. unfold isUriChar at 1.
    rewrite (isLetter_unreserved c0 Hl). reflexivity.
Qed.

Lemma path2uri_wellformed_witness :
  path2uri "/proj/a b?.schema" = Returned "file:///proj/a%20b%3F.schema" /\
  exists rest, "file:///proj/a%20b%3F.schema" = "file:///" +:+ rest /\
               allChars isUriChar rest = true.
Proof.
  split; [reflexivity|].
  exact (path2uri_wellformed "/proj/a b?.schema" "file:///proj/a%20b%3F.schema"
           eq_refl).
Defined.

Lemma encodeURIComponent_length (s : string) :
  String.length s <= String.length (encodeURIComponent s).
Proof.
  induction s as [|c s IH]; [reflexivity|]. cbn [encodeURIComponent].
  destruct (isUnreserved c); cbn [String.length]; lia.
Qed.

(** X3: [encodeURIComponent] returns its argument unchanged exactly when
    every character is unreserved; any other string grows, and so does
    its encoding when encoded again. *)
Theorem encodeURIComponent_fixed_iff (s : string) :
  encodeURIComponent s = s <-> allChars isUnreserved s = true.
Proof.
  induction s as [|c s IH]; [done|]. cbn [encodeURIComponent allChars].
  destruct (isUnreserved c) eqn:Hc; cbn [andb].
  - rewrite <- IH. split; [by intros [= ->]|by intros ->].
  - split; [|discriminate]. intros [= _ Hs].
    pose proof (encodeURIComponent_length s) as Hlen.
    rewrite <- Hs in Hlen at 1. cbn [String.length] in Hlen. lia.
Qed.

End PathFacts.

(** ** What the pipelines fetch *)

Section FilterFacts.
Import Util Paths Memfs ProjectManager.

Lemma substring_whole (s : string) : substring 0 (String.length s) s = s.
Proof. induction s as [|c s IH]; [reflexivity|]. cbn. by rewrite IH. Qed.

Lemma substring_none (s : string) : substring 0 0 s = EmptyString.
Proof. by destruct s. Qed.

Lemma substring_prefix_suffix (s : string) (m : nat) :
  m <= String.length s ->
  s = substring 0 m s +:+ substring m (String.length s - m) s.
Proof.
  revert m. induction s as [|c s IH]; intros m Hm.
  - destruct m; [reflexivity|cbn in Hm; lia].
  - destruct m as [|m].
    + by rewrite substring_none, Nat.sub_0_r, substring_whole.
    + cbn [substring String.length Nat.sub].
      change (String c (substring 0 m s) +:+ ?x)
        with (String c (substring 0 m s +:+ x)).
      f_equal. apply IH. cbn in Hm. lia.
Qed.

(** A match of [/suffix$/] is a decomposition of the string. *)
Lemma endsWith_inv (s suffix : string) :
  endsWith s suffix = true -> exists p, s = p +:+ suffix.
Proof.
  unfold endsWith. remember (String.length suffix) as k.
  intros H. apply andb_true_iff in H as [Hle Heq].
  apply Nat.leb_le in Hle. apply String.eqb_eq in Heq.
  exists (substring 0 (String.length s - k) s). rewrite <- Heq.
  replace (substring (String.length s - k) k s)
    with (substring (String.length s - k)
            (String.length s - (String.length s - k)) s)
    by (f_equal; lia).
  apply substring_prefix_suffix. lia.
Qed.

Lemma lastChar_app (p s : string) (c : ascii) :
  lastChar s = Some c -> lastChar (p +:+ s) = Some c.
Proof.
  intros Hs. induction p as [|x p IH]; [exact Hs|].
  change (lastChar (String x (p +:+ s)) = Some c).
  remember (p +:+ s) as t. destruct t; [discriminate|exact IH].
Qed.

(** A schema file is no package manifest: the names end differently. *)
Lemma schema_not_manifest (uri : string) :
  isSchemaFile uri = true -> isPackageJsonFile uri = false.
Proof.
  intros Hs. apply endsWith_inv in Hs as [p ->].
  assert (Hlast : lastChar (p +:+ ".schema") = Some "a"%char)
    by (by apply lastChar_app).
  unfold isPackageJsonFile. apply orb_false_iff. split.
  - apply String.eqb_neq. intros E. rewrite E in Hlast. discriminate.
  - destruct (endsWith (p +:+ ".schema") "/package.json") eqn:E; [|reflexivity].
    apply endsWith_inv in E as [q E]. rewrite E in Hlast.
    rewrite (lastChar_app q "/package.json" "n") in Hlast by reflexivity.
    discriminate.
Qed.

(** X4: the fetch sets are nested: whatever the own-files pipeline or the
    basic-files pipeline fetches from a file system, the all-files
    pipeline fetches too. *)
Theorem fetch_sets_nested (fs : InMemoryFileSystem) :
  incl (List.filter ownFilter (uris fs)) (List.filter allFilter (uris fs)) /\
  incl (List.filter basicFilter (uris fs)) (List.filter allFilter (uris fs)).
Proof.
  split; intros uri Hin; apply filter_In in Hin as [Hin Hf]; apply filter_In;
    (split; [exact Hin|]); unfold ownFilter, basicFilter, allFilter in *.
  - destruct (isSchemaFile uri), (isPackageJsonFile uri); try reflexivity.
    by rewrite andb_false_r in Hf.
  - apply andb_true_iff in Hf as [_ ->]. reflexivity.
Qed.

(** X5: under the filter that [MetaschemaService] gives its file system,
    a recorded URI is never a package manifest, always passes the
    all-files filter, and passes the own-files filter exactly when it
    does not contain [/node_modules/]. *)
Theorem service_filter_and_pipelines (uri : string) :
  MetaschemaService.fileFilter uri = true ->
  isPackageJsonFile uri = false /\
  allFilter uri = true /\
  ownFilter uri = negb (includes uri "/node_modules/").
Proof.
  unfold MetaschemaService.fileFilter. intros H.
  apply andb_true_iff in H as [Hs _].
  pose proof (schema_not_manifest uri Hs) as Hm.
  unfold allFilter, ownFilter. rewrite Hs, Hm.
  repeat split. by rewrite andb_true_r, orb_false_r.
Qed.

Lemma service_filter_and_pipelines_witness :
  MetaschemaService.fileFilter "file:///proj/taxonomy/a.schema" = true /\
  ownFilter "file:///proj/taxonomy/a.schema"
    = negb (includes "file:///proj/taxonomy/a.schema" "/node_modules/").
Proof.
  split; [reflexivity|].
  exact (proj2 (proj2 (service_filter_and_pipelines
                         "file:///proj/taxonomy/a.schema" eq_refl))).
Defined.

(** C3, as amended: the string ["node_modules/x/y.schema"] never passes
    the filter of the basic-files pipeline and passes the filter of the
    all-files pipeline; the filter of the own-files pipeline keeps out
    every schema URI that contains the path segment [/node_modules/],
    as the absolute URI [file:///proj/node_modules/x/y.schema] of a
    dependency does: such a URI is in no fetch set of the own-files
    pipeline, passes the basic filter only if it lies under
    [/metaschema/schemas], and is fetched by the all-files pipeline from
    every file system that knows it. *)
Theorem dependency_schema_kept_out (uri : string) (fs : InMemoryFileSystem) :
  isSchemaFile uri = true ->
  includes uri "/node_modules/" = true ->
  (ownFilter uri = false /\
   (isMetaschemaFile uri = false -> basicFilter uri = false) /\
   allFilter uri = true /\
   ~ In uri (List.filter ownFilter (uris fs)) /\
   (In uri (uris fs) -> In uri (List.filter allFilter (uris fs)))) /\
  (basicFilter "node_modules/x/y.schema" = false /\
   ~ In "node_modules/x/y.schema" (List.filter basicFilter (uris fs)) /\
   allFilter "node_modules/x/y.schema" = true /\
   (In "node_modules/x/y.schema" (uris fs) ->
    In "node_modules/x/y.schema" (List.filter allFilter (uris fs)))).
Proof.
  intros Hs Hn. pose proof (schema_not_manifest uri Hs) as Hm.
  assert (Hown : ownFilter uri = false).
  { unfold ownFilter. by rewrite Hn, Hm. }
  assert (Hall : allFilter uri = true).
  { unfold allFilter. by rewrite Hs. }
  split.
  - split; [exact Hown|]. split; [|split; [exact Hall|split]].
    + intros Hb. unfold basicFilter. by rewrite Hb.
    + intros Hin. apply filter_In in Hin as [_ Hf]. congruence.
    + intros Hin. apply filter_In. by split.
  - split; [reflexivity|]. split; [|split; [reflexivity|]].
    + intros Hin. apply filter_In in Hin as [_ Hf]. discriminate Hf.
    + intros Hin. apply filter_In. by split.
Qed.

Lemma dependency_schema_kept_out_witness :
  isSchemaFile "file:///proj/node_modules/x/y.schema" = true /\
  includes "file:///proj/node_modules/x/y.schema" "/node_modules/" = true /\
  ownFilter "file:///proj/node_modules/x/y.schema" = false /\
  basicFilter "file:///proj/node_modules/x/y.schema" = false /\
  allFilter "file:///proj/node_modules/x/y.schema" = true.
Proof.
  split; [reflexivity|]. split; [reflexivity|].
  pose proof (dependency_schema_kept_out "file:///proj/node_modules/x/y.schema"
                Sample.workspaceFs eq_refl eq_refl) as ((Hown & Hbasic & Hall & _) & _).
  split; [exact Hown|]. split; [exact (Hbasic eq_refl) | exact Hall].
Defined.

(** C3 as stated fails: the string ["node_modules/x/y.schema"] has no
    slash before [node_modules], so the filter of the own-files
    pipeline, which looks for [/node_modules/], accepts it.  The string
    is not a file URI: [add] records it as a key and then throws while
    converting it to a path, and from the file system that is left the
    own filter selects it. *)
Lemma relative_dependency_passes_own_filter :
  includes "node_modules/x/y.schema" "/node_modules/" = false /\
  ownFilter "node_modules/x/y.schema" = true /\
  fst (add (H := Sample.runtime) "node_modules/x/y.schema" None Sample.openFs)
    = Thrown "Cannot resolve non-file uri to path: node_modules/x/y.schema" /\
  List.filter ownFilter (uris Sample.relativeFs) = ["node_modules/x/y.schema"].
Proof.
  split; [vm_compute; reflexivity|]. split; [vm_compute; reflexivity|].
  split; [vm_compute; reflexivity|]. vm_compute; reflexivity.
Qed.

End FilterFacts.

(** ** The content cache and the overlay *)

Section CacheFacts.
Import Util Memfs Tree.
Context `{NodeRuntime}.

Lemma add_get_other (uri uri' : string) (content : option string)
    (fs : InMemoryFileSystem) :
  uri' <> uri -> files (snd (add uri content fs)) !! uri' = files fs !! uri'.
Proof.
  intros Hne. rewrite add_files.
  destruct (fileFilter fs uri); [|reflexivity].
  destruct (bool_decide (is_Some content) || negb (filesHas fs uri)); [|reflexivity].
  by rewrite lookup_insert_ne.
Qed.

Lemma add_get_same (uri : string) (content : option string)
    (fs : InMemoryFileSystem) :
  fileFilter fs uri = true ->
  filesGet (snd (add uri content fs)) uri =
    match content with
    | Some c => Some c
    | None => filesGet fs uri
    end.
Proof.
  intros Hf. destruct content as [c|]; [by apply add_present_get|].
  unfold filesGet. rewrite add_files, Hf. unfold filesHas.
  destruct (files fs !! uri) as [x|] eqn:E.
  - rewrite bool_decide_eq_false_2 by (intros [? ?]; discriminate).
    rewrite bool_decide_eq_true_2 by eauto. cbn. by rewrite E.
  - rewrite (bool_decide_eq_false_2 (is_Some None)) by (intros [? ?]; discriminate).
    cbn. by rewrite lookup_insert_eq.
Qed.

(** X6: over any run of [add] calls, to this and to other URIs, with and
    without content, the content cache holds for an accepted URI the
    last content any call gave for it, or what it held before when no
    call gave any; for a vetoed URI it holds what it held before. *)
Theorem addAll_keeps_last_content (adds : list (string * option string))
    (uri : string) (fs : InMemoryFileSystem) :
  filesGet (addAll adds fs) uri =
    if fileFilter fs uri
    then match lastGiven uri adds with
         | Some c => Some c
         | None => filesGet fs uri
         end
    else filesGet fs uri.
Proof.
  revert fs. induction adds as [|[u content] adds IH]; intros fs.
  - cbn. by destruct (fileFilter fs uri).
  - change (addAll ((u, content) :: adds) fs)
      with (addAll adds (snd (add u content fs))).
    rewrite IH, add_fileFilter. cbn [lastGiven].
    destruct (String.eqb_spec u uri) as [->|Hne].
    + destruct (fileFilter fs uri) eqn:Hf.
      * rewrite (add_get_same uri content fs Hf).
        destruct (lastGiven uri adds); [reflexivity|]. by destruct content.
      * by rewrite (add_vetoed uri content fs Hf).
    + assert (Hsame : filesGet (snd (add u content fs)) uri = filesGet fs uri).
      { unfold filesGet. rewrite add_get_other; [reflexivity|congruence]. }
      rewrite Hsame. by destruct (lastGiven uri adds).
Qed.

(** X7: a URI can be known without content: after [add(uri)] with no
    content on a file system that accepts the URI and knew nothing of it,
    [has(uri)] is true and [uris()] lists it, but [getContent(uri)]
    throws. *)
Theorem add_records_existence (uri : string) (fs : InMemoryFileSystem) :
  fileFilter fs uri = true ->
  files fs !! uri = None -> overlay fs !! uri = None ->
  let fs' := snd (add uri None fs) in
  has fs' uri = Returned true /\
  uri ∈ uris fs' /\
  getContent fs' uri
    = Thrown ("Content of " +:+ uri +:+ " is not available in memory").
Proof.
  intros Hf Hfiles Hov fs'.
  assert (Hfiles' : files fs' !! uri = Some None).
  { subst fs'. rewrite add_files, Hf. unfold filesHas. rewrite Hfiles.
    rewrite (bool_decide_eq_false_2 (is_Some None)) by (intros [? ?]; discriminate).
    rewrite orb_true_r. apply lookup_insert_eq. }
  split; [|split].
  - unfold has, filesHas. rewrite Hfiles'.
    by rewrite bool_decide_eq_true_2 by eauto.
  - unfold uris. apply list_elem_of_fmap. exists (uri, None). split; [reflexivity|].
    by apply elem_of_map_to_list.
  - unfold getContent, filesGet. rewrite Hfiles'.
    subst fs'. by rewrite add_overlay, Hov.
Qed.

(** What [didSave] leaves alone: the overlay. *)
Lemma didSave_overlay (uri : string) (fs : InMemoryFileSystem) :
  overlay (snd (didSave uri fs)) = overlay fs.
Proof.
  unfold didSave, bind, gets; cbn.
  destruct (overlay fs !! uri); [apply add_overlay | reflexivity].
Qed.

Lemma didSave_files_other (uri uri' : string) (fs : InMemoryFileSystem) :
  uri' <> uri -> files (snd (didSave uri fs)) !! uri' = files fs !! uri'.
Proof.
  intros Hne. unfold didSave, bind, gets; cbn.
  destruct (overlay fs !! uri); [by apply add_get_other | reflexivity].
Qed.

Lemma didSave_lookup (uri uri' : string) (fs : InMemoryFileSystem) :
  match overlay fs !! uri' with
  | Some c => Some c
  | None => filesGet (snd (didSave uri fs)) uri'
  end
  = match overlay fs !! uri' with
    | Some c => Some c
    | None => filesGet fs uri'
    end.
Proof.
  destruct (overlay fs !! uri') as [c|] eqn:Hov; [reflexivity|].
  unfold filesGet. destruct (decide (uri' = uri)) as [->|Hne].
  - unfold didSave, bind, gets; cbn. by rewrite Hov.
  - by rewrite didSave_files_other.
Qed.

Lemma didSave_getContent (uri uri' : string) (fs : InMemoryFileSystem) :
  getContent (snd (didSave uri fs)) uri' = getContent fs uri'.
Proof.
  unfold getContent. rewrite didSave_overlay.
  pose proof (didSave_lookup uri uri' fs) as Hget.
  destruct (overlay fs !! uri'); [reflexivity|]. by rewrite Hget.
Qed.

(** X8: a save changes nothing a reader can see: for every file system
    and every pair of URIs, [getContent] and [readFileIfExists] give
    after [didSave(uri)] what they gave before, whether the filter
    accepts the URI or not and whether [add] throws or not. *)
Theorem didSave_invisible_to_readers (uri : string) (fs : InMemoryFileSystem) :
  (forall uri', getContent (snd (didSave uri fs)) uri' = getContent fs uri') /\
  (forall p, readFileIfExists (snd (didSave uri fs)) p = readFileIfExists fs p).
Proof.
  split.
  - intros uri'. apply didSave_getContent.
  - intros p. unfold readFileIfExists. destruct (path2uri p) as [u|e]; [|reflexivity].
    rewrite didSave_overlay. pose proof (didSave_lookup uri u fs) as Hget.
    destruct (overlay fs !! u); [reflexivity|]. by rewrite Hget.
Qed.

(** X9: closing discards the unsaved edit: [didChange(uri, text)]
    followed by [didClose(uri)] leaves the file system as [didClose(uri)]
    alone does, so a reader of [uri] sees the cached content again, or
    an error when the cache holds none; when the overlay held nothing
    for [uri], the file system is as it was before the edit. *)
Theorem didChange_didClose (uri text : string) (fs : InMemoryFileSystem) :
  let fs' := snd (didClose uri (snd (didChange uri text fs))) in
  fs' = snd (didClose uri fs) /\
  getContent fs' uri
    = match filesGet fs uri with
      | Some c => Returned c
      | None => Thrown ("Content of " +:+ uri +:+ " is not available in memory")
      end /\
  (overlay fs !! uri = None -> fs' = fs).
Proof.
  cbn. unfold set_overlay; cbn. rewrite delete_insert_eq.
  split; [reflexivity|]. split.
  - unfold getContent, filesGet; cbn. by rewrite lookup_delete_eq.
  - intros Hov. rewrite delete_id by done. by destruct fs.
Qed.

(** X10: the operations on one URI leave the content of every other
    URI as it was: [add], [didChange], [didClose] and [didSave] on [uri]
    do not change what [getContent] gives for [uri' <> uri]. *)
Theorem operations_keep_other_uris (uri uri' : string) (content : option string)
    (text : string) (fs : InMemoryFileSystem) :
  uri' <> uri ->
  getContent (snd (add uri content fs)) uri' = getContent fs uri' /\
  getContent (snd (didChange uri text fs)) uri' = getContent fs uri' /\
  getContent (snd (didClose uri fs)) uri' = getContent fs uri' /\
  getContent (snd (didSave uri fs)) uri' = getContent fs uri'.
Proof.
  intros Hne. repeat split.
  - unfold getContent, filesGet. by rewrite add_overlay, add_get_other.
  - unfold getContent, filesGet; cbn. by rewrite lookup_insert_ne.
  - unfold getContent, filesGet; cbn. by rewrite lookup_delete_ne.
  - apply didSave_getContent.
Qed.

(** X11: [add] is not atomic: for an accepted URI that [uri2path]
    refuses, [add] throws after the URI was recorded in [files], and
    before the tree is touched or the [add] event is emitted. *)
Theorem add_throws_after_recording (uri e : string) (content : option string)
    (fs : InMemoryFileSystem) :
  fileFilter fs uri = true ->
  uri2path uri = Thrown e ->
  let fs' := snd (add uri content fs) in
  fst (add uri content fs) = Thrown e /\
  filesHas fs' uri = true /\
  rootNode fs' = rootNode fs /\
  emitted fs' = emitted fs.
Proof.
  intros Hf He fs'. subst fs'.
  assert (Hhas : filesHas (snd (add uri content fs)) uri = true).
  { unfold filesHas at 1. apply bool_decide_eq_true_2. rewrite add_files, Hf.
    destruct (bool_decide (is_Some content) || negb (filesHas fs uri)) eqn:Hc.
    - rewrite lookup_insert_eq. eauto.
    - apply orb_false_elim in Hc as [_ Hk]. apply negb_false_iff in Hk.
      unfold filesHas in Hk. by apply bool_decide_eq_true_1 in Hk. }
  split; [|split; [exact Hhas|]]; clear Hhas;
    unfold add, bind, gets, modify, ret, lift; cbn; rewrite Hf; cbn;
    destruct (bool_decide (is_Some content) || negb (filesHas fs uri)); cbn;
    rewrite He; cbn; auto.
Qed.

End CacheFacts.

Section TreeFacts.
Import Util Memfs Tree.

Lemma childGet_childSet_eq (k : string) (n : FileSystemNode)
    (cs : list (string * FileSystemNode)) :
  childGet k (childSet k n cs) = Some n.
Proof.
  induction cs as [|[k' m] cs IH]; cbn.
  - by rewrite String.eqb_refl.
  - destruct (String.eqb k' k) eqn:E; cbn; rewrite E; [reflexivity | exact IH].
Qed.

Lemma childGet_childSet_ne (k k' : string) (n : FileSystemNode)
    (cs : list (string * FileSystemNode)) :
  k' <> k -> childGet k' (childSet k n cs) = childGet k' cs.
Proof.
  intros Hne. induction cs as [|[k0 m] cs IH]; cbn.
  - destruct (String.eqb_spec k k'); [congruence | reflexivity].
  - destruct (String.eqb_spec k0 k) as [->|Hk]; cbn.
    + destruct (String.eqb_spec k k'); [congruence | reflexivity].
    + destruct (String.eqb k0 k'); [reflexivity | exact IH].
Qed.

Lemma childSet_same (k : string) (n : FileSystemNode)
    (cs : list (string * FileSystemNode)) :
  childGet k cs = Some n -> childSet k n cs = cs.
Proof.
  induction cs as [|[k' m] cs IH]; cbn; [discriminate|].
  destruct (String.eqb k' k) eqn:E.
  - intros [= ->]. reflexivity.
  - intros Hg. by rewrite IH.
Qed.

Lemma addToTree_file (components : list string) (node : FileSystemNode) :
  file (addToTree components node) = file node.
Proof.
  destruct components as [|c rest]; [reflexivity|]. cbn.
  destruct (childGet c (children node)); [reflexivity|]. by destruct rest.
Qed.

(** A path that is in the tree: [addToTree] changes nothing. *)
Lemma addToTree_present (components : list string) (node n : FileSystemNode) :
  findNode components node = Some n -> addToTree components node = node.
Proof.
  revert node. induction components as [|c rest IH]; intros node; [reflexivity|].
  cbn. destruct (childGet c (children node)) as [m|] eqn:E; [|discriminate].
  intros Hfind. rewrite (IH m Hfind), (childSet_same _ _ _ E). by destruct node.
Qed.

(** A path that is not in the tree: [addToTree] ends it in a new file. *)
Lemma addToTree_absent (components : list string) (node : FileSystemNode) :
  findNode components node = None ->
  findNode components (addToTree components node) = Some emptyFile.
Proof.
  revert node. induction components as [|c rest IH]; intros node; [discriminate|].
  cbn. destruct (childGet c (children node)) as [m|] eqn:E.
  - intros Hfind. cbn. rewrite childGet_childSet_eq. by apply IH.
  - intros _. destruct rest as [|c' rest'].
    + cbn. by rewrite childGet_childSet_eq.
    + cbn [findNode children]. rewrite childGet_childSet_eq. by apply IH.
Qed.

Lemma addToTree_reaches (components : list string) (node : FileSystemNode) :
  findNode components (addToTree components node)
    = Some (default emptyFile (findNode components node)).
Proof.
  destruct (findNode components node) as [n|] eqn:E; cbn.
  - by rewrite (addToTree_present _ _ _ E).
  - by apply addToTree_absent.
Qed.

(** Every node of the tree is still there after [addToTree], with the
    same [file] flag. *)
Lemma addToTree_keeps (components others : list string) (node n : FileSystemNode) :
  findNode others node = Some n ->
  exists n', findNode others (addToTree components node) = Some n' /\
             file n' = file n.
Proof.
  revert others node n.
  induction components as [|c rest IH]; intros others node n Hfind; [by eauto|].
  destruct others as [|o others'].
  - injection Hfind as <-. eexists; split; [reflexivity|]. apply addToTree_file.
  - cbn in Hfind. destruct (childGet o (children node)) as [m|] eqn:Eo; [|discriminate].
    destruct (String.eqb_spec o c) as [->|Hne].
    + cbn. rewrite Eo. cbn. rewrite childGet_childSet_eq. by apply IH.
    + assert (Hsame : forall x,
        childGet o (childSet c x (children node)) = Some m).
      { intros x. by rewrite childGet_childSet_ne. }
      cbn. destruct (childGet c (children node)) as [m'|].
      * cbn. rewrite Hsame. eauto.
      * destruct rest; cbn; rewrite Hsame; eauto.
Qed.

Context `{NodeRuntime}.

Lemma add_rootNode (uri : string) (content : option string) (fs : InMemoryFileSystem) :
  rootNode (snd (add uri content fs)) =
    if fileFilter fs uri
    then match uri2path uri with
         | Returned p => addToTree (pathComponents p) (rootNode fs)
         | Thrown _ => rootNode fs
         end
    else rootNode fs.
Proof.
  unfold add, bind, gets, modify, ret, lift; cbn.
  destruct (fileFilter fs uri); cbn; [|reflexivity].
  destruct (bool_decide (is_Some content) || negb (filesHas fs uri)); cbn;
    destruct (uri2path uri); reflexivity.
Qed.

(** X12: after an accepted [add(uri)] the directory tree leads to the
    file: following the components of [uri2path(uri)] from the root
    reaches the node that was there before, unchanged, or, when there
    was none, a new node with [file: true] and no children. *)
Theorem add_makes_path_reachable (uri p : string) (content : option string)
    (fs : InMemoryFileSystem) :
  fileFilter fs uri = true ->
  uri2path uri = Returned p ->
  findNode (pathComponents p) (rootNode (snd (add uri content fs)))
    = Some (default emptyFile (findNode (pathComponents p) (rootNode fs))).
Proof.
  intros Hf Hp. rewrite add_rootNode, Hf, Hp. apply addToTree_reaches.
Qed.

(** X13: [add] never removes a node and never changes its kind: every
    node reachable in the tree before [add(uri)] is reachable along the
    same components afterwards and has the same [file] flag.  So a
    folder that is later added as a file stays a folder. *)
Theorem add_keeps_nodes (uri : string) (content : option string)
    (components : list string) (n : FileSystemNode) (fs : InMemoryFileSystem) :
  findNode components (rootNode fs) = Some n ->
  exists n', findNode components (rootNode (snd (add uri content fs))) = Some n' /\
             file n' = file n.
Proof.
  intros Hfind. rewrite add_rootNode.
  destruct (fileFilter fs uri); [|by eauto].
  destruct (uri2path uri); [|by eauto].
  by apply addToTree_keeps.
Qed.

(** X14: adding a URI again leaves the tree as the first [add] left
    it, whatever contents the two calls carry. *)
Theorem add_twice_same_tree (uri : string) (content content' : option string)
    (fs : InMemoryFileSystem) :
  rootNode (snd (add uri content' (snd (add uri content fs))))
    = rootNode (snd (add uri content fs)).
Proof.
  rewrite (add_rootNode uri content'), add_fileFilter.
  destruct (fileFilter fs uri) eqn:Hf; [|reflexivity].
  destruct (uri2path uri) as [p|e] eqn:Hp; [|reflexivity].
  rewrite (add_rootNode uri content), Hf, Hp.
  eapply addToTree_present, addToTree_reaches.
Qed.

End TreeFacts.

Section CacheExamples.
Import Util Memfs Tree.

Lemma add_records_existence_witness :
  fileFilter Sample.openFs "file:///proj/a.schema" = true /\
  has (H := Sample.runtime)
    (snd (add (H := Sample.runtime) "file:///proj/a.schema" None Sample.openFs))
    "file:///proj/a.schema" = Returned true.
Proof.
  split; [reflexivity|].
  exact (proj1 (add_records_existence (H := Sample.runtime)
                  "file:///proj/a.schema" Sample.openFs eq_refl eq_refl eq_refl)).
Defined.

Lemma operations_keep_other_uris_witness :
  getContent
    (snd (didChange "file:///proj/a.schema" "A"
            (snd (didChange "file:///proj/b.schema" "B" Sample.openFs))))
    "file:///proj/b.schema" = Returned "B".
Proof.
  refine (eq_trans
            (proj1 (proj2 (operations_keep_other_uris (H := Sample.runtime)
                             "file:///proj/a.schema" "file:///proj/b.schema"
                             None "A"
                             (snd (didChange "file:///proj/b.schema" "B" Sample.openFs))
                             _)))
            _).
  - discriminate.
  - reflexivity.
Defined.

Lemma add_throws_after_recording_witness :
  uri2path (H := Sample.runtime) "node_modules/x/y.schema"
    = Thrown "Cannot resolve non-file uri to path: node_modules/x/y.schema" /\
  filesHas Sample.relativeFs "node_modules/x/y.schema" = true /\
  rootNode Sample.relativeFs = emptyFolder.
Proof.
  split; [reflexivity|].
  pose proof (add_throws_after_recording (H := Sample.runtime)
                "node_modules/x/y.schema"
                "Cannot resolve non-file uri to path: node_modules/x/y.schema"
                None Sample.openFs eq_refl eq_refl) as (_ & Hhas & Hroot & _).
  split; [exact Hhas | exact Hroot].
Defined.

Lemma add_makes_path_reachable_witness :
  findNode ["proj"; "a.schema"]
    (rootNode (snd (add (H := Sample.runtime) "file:///proj/a.schema" None
                      Sample.openFs)))
    = Some emptyFile.
Proof.
  exact (add_makes_path_reachable (H := Sample.runtime)
           "file:///proj/a.schema" "/proj/a.schema" None Sample.openFs
           eq_refl eq_refl).
Defined.

Lemma add_keeps_nodes_witness :
  findNode ["proj"] (rootNode Sample.workspaceFs)
    = Some (mkNode false
              [("a.schema", emptyFile);
               ("node_modules", mkNode false [("x", mkNode false [("b.schema", emptyFile)])])]) /\
  exists n',
    findNode ["proj"]
      (rootNode (snd (add (H := Sample.runtime) "file:///proj" (Some "text")
                        Sample.workspaceFs))) = Some n' /\
    file n' = false.
Proof.
  split; [reflexivity|].
  exact (add_keeps_nodes (H := Sample.runtime) "file:///proj" (Some "text") ["proj"]
           _ Sample.workspaceFs eq_refl).
Defined.

End CacheExamples.

Section ProjectFacts.
Import Util Memfs ProjectManager Editor.
Context {Svc : Type} `{LanguageService Svc} `{NodeRuntime}.
Local Abbreviation PM := (ProjectManager Svc).

Lemma reindex_versionOf (filePath uri : string) (pm : PM) :
  versionOf (reindex filePath pm) uri = versionOf pm uri.
Proof.
  unfold versionOf, reindex, ensureSourceFile. by destruct (updateFile _ _ _).
Qed.

Lemma bumpVersion_other (uri other : string) (pm : PM) :
  other <> uri -> versionOf (bumpVersion uri pm) other = versionOf pm other.
Proof. intros Hne. unfold versionOf, bumpVersion; cbn. by rewrite lookup_insert_ne. Qed.

Lemma notify_versionOf (n : Notification) (uri : string) (pm : PM) :
  versionOf (snd (notify n pm)) uri =
    (versionOf pm uri + (if edits uri n && converts uri then 1 else 0))%Z.
Proof.
  unfold converts.
  assert (Hedit : forall u (step : string -> PM -> PM),
    (forall p pm0, versionOf (step p pm0) uri = versionOf pm0 uri) ->
    forall m : Eff PM unit,
    (forall p, uri2path u = Returned p ->
       m pm = (Returned tt, reindex p (bumpVersion u (step p pm)))) ->
    (forall e, uri2path u = Thrown e -> m pm = (Thrown e, pm)) ->
    versionOf (snd (m pm)) uri =
      (versionOf pm uri +
       (if String.eqb u uri &&
           match uri2path uri with Returned _ => true | Thrown _ => false end
        then 1 else 0))%Z).
  { intros u step Hstep m Hok Hthrow.
    destruct (String.eqb_spec u uri) as [->|Hne]; cbn [andb].
    - destruct (uri2path uri) as [p|e] eqn:Hu.
      + rewrite (Hok p eq_refl). cbn [snd].
        by rewrite reindex_versionOf, bumpVersion_versionOf, Hstep.
      + rewrite (Hthrow e eq_refl). cbn [snd]. lia.
    - destruct (uri2path u) as [p|e] eqn:Hu.
      + rewrite (Hok p eq_refl). cbn [snd].
        rewrite reindex_versionOf, bumpVersion_other, Hstep by congruence. lia.
      + rewrite (Hthrow e eq_refl). cbn [snd]. lia. }
  destruct n as [u t|u t|u|u]; cbn [notify edits].
  - apply (Hedit u (fun _ pm0 =>
             set_inMemoryFs (fun _ => snd (Memfs.didChange u t (inMemoryFs pm0))) pm0)).
    + reflexivity.
    + intros p Hp. unfold didOpen, didChange, bind, lift, onFs, modify. by rewrite Hp.
    + intros e He. unfold didOpen, didChange, bind, lift. by rewrite He.
  - apply (Hedit u (fun _ pm0 =>
             set_inMemoryFs (fun _ => snd (Memfs.didChange u t (inMemoryFs pm0))) pm0)).
    + reflexivity.
    + intros p Hp. unfold didChange, bind, lift, onFs, modify. by rewrite Hp.
    + intros e He. unfold didChange, bind, lift. by rewrite He.
  - apply (Hedit u (fun _ pm0 =>
             set_inMemoryFs (fun _ => snd (Memfs.didClose u (inMemoryFs pm0))) pm0)).
    + reflexivity.
    + intros p Hp. unfold didClose, bind, lift, onFs, modify. by rewrite Hp.
    + intros e He. unfold didClose, bind, lift. by rewrite He.
  - cbn [andb]. unfold didSave, onFs, versionOf.
    destruct (Memfs.didSave u (inMemoryFs pm)). cbn. lia.
Qed.

(** X15: over any run of editor notifications, the version of a URI is
    its version before the run plus the number of [didOpen], [didChange]
    and [didClose] notifications for it, when [uri2path] converts the
    URI; otherwise each of these throws before anything is changed and
    the version stays.  [didSave] and the notifications for other URIs
    never count. *)
Theorem version_counts_edits (ns : list Notification) (uri : string) (pm : PM) :
  versionOf (notifyAll ns pm) uri =
    (versionOf pm uri +
     (if converts uri then Z.of_nat (length (List.filter (edits uri) ns)) else 0))%Z.
Proof.
  revert pm. induction ns as [|n ns IH]; intros pm.
  - cbn. destruct (converts uri); lia.
  - change (notifyAll (n :: ns) pm) with (notifyAll ns (snd (notify n pm))).
    rewrite IH, notify_versionOf. cbn [List.filter].
    destruct (edits uri n), (converts uri); cbn [andb length]; lia.
Qed.

(** Pipelines keep their place in the list and their kind. *)
Lemma perform_keeps_kind (a : Activity) (pm : PM) (h : Handle) (p : Pipeline) :
  pipelines pm !! h = Some p ->
  exists p', pipelines (perform a pm) !! h = Some p' /\ kind p' = kind p.
Proof.
  intros Hl.
  assert (Hins : forall (h0 : Handle) p0 q,
    pipelines pm !! h0 = Some p0 -> kind q = kind p0 ->
    exists p', <[h0 := q]> (pipelines pm) !! h = Some p' /\ kind p' = kind p).
  { intros h0 p0 q Hl0 Hk. destruct (decide (h = h0)) as [->|Hne].
    - rewrite list_lookup_insert_eq by (by apply lookup_lt_Some in Hl0).
      exists q. split; [reflexivity|].
      rewrite Hl in Hl0. injection Hl0 as <-. exact Hk.
    - rewrite list_lookup_insert_ne by done. eauto. }
  destruct a as [k|ev|uri content|]; cbn [perform]; [| |by eauto|by eauto].
  - destruct k; cbn; unfold ensureBasicFiles, ensureOwnFiles, ensureAllFiles; cbn;
      match goal with |- context [match ?s with Some _ => _ | None => _ end] =>
        destruct s end; cbn; try (by eauto);
      rewrite lookup_app_l by (by apply lookup_lt_Some in Hl); eauto.
  - destruct ev as [h0|h0|h0|h0 u|h0 err|h0 u err]; cbn [pipelineStep];
      destruct (pipelines pm !! h0) as [p0|] eqn:Hl0; try (by eauto).
    + destruct (state p0); cbn; eauto.
    + destruct (refCount p0) as [|[|n]]; cbn; eauto.
    + destruct (state p0); cbn; eauto.
    + destruct (state p0); try (by eauto).
      destruct (bool_decide (u ∈ pending)); [|by eauto].
      destruct (updateFile _ _ _). cbn. eauto.
    + destruct (running (state p0)); cbn; eauto.
    + destruct (state p0); try (by eauto).
      destruct (bool_decide (u ∈ pending)); cbn; eauto.
Qed.

Lemma perform_calls (a : Activity) (pm : PM) :
  updaterCalls (perform a pm) = updaterCalls pm \/
  updaterCalls (perform a pm) = updaterCalls pm ++ [EnsureStructure] \/
  exists h p, a = Happens (StructureCompleted h) /\
    pipelines pm !! h = Some p /\
    updaterCalls (perform a pm) =
      updaterCalls pm ++
      map (Ensure h) (List.filter (pipelineFilter (kind p)) (uris (inMemoryFs pm))).
Proof.
  destruct a as [k|ev|uri content|]; cbn [perform]; [| |by left|by left].
  - destruct k; cbn; unfold ensureBasicFiles, ensureOwnFiles, ensureAllFiles; cbn;
      match goal with |- context [match ?s with Some _ => _ | None => _ end] =>
        destruct s end; cbn; auto.
  - destruct ev as [h0|h0|h0|h0 u|h0 err|h0 u err]; cbn [pipelineStep];
      destruct (pipelines pm !! h0) as [p0|] eqn:Hl0; try (by left).
    + destruct (state p0); by left.
    + destruct (refCount p0) as [|[|n]]; by left.
    + destruct (state p0) eqn:Hst; try (by left).
      right; right. exists h0, p0. split; [reflexivity|]. split; [exact Hl0|].
      reflexivity.
    + destruct (state p0); try (by left).
      destruct (bool_decide (u ∈ pending)); [|by left].
      destruct (updateFile _ _ _). by left.
    + destruct (running (state p0)); by left.
    + destruct (state p0); try (by left).
      destruct (bool_decide (u ∈ pending)); by left.
Qed.

Lemma perform_fetchesFiltered (a : Activity) (pm : PM) :
  fetchesFiltered pm -> fetchesFiltered (perform a pm).
Proof.
  intros Hinv h uri Hin.
  assert (Hold : Ensure h uri ∈ updaterCalls pm ->
    exists p, pipelines (perform a pm) !! h = Some p /\
              pipelineFilter (kind p) uri = true).
  { intros Hin0. destruct (Hinv h uri Hin0) as (p & Hl & Hf).
    destruct (perform_keeps_kind a pm h p Hl) as (p' & Hl' & Hk).
    exists p'. by rewrite Hk. }
  destruct (perform_calls a pm) as [Hc|[Hc|(h0 & p0 & -> & Hl0 & Hc)]];
    rewrite Hc in Hin.
  - by apply Hold.
  - apply elem_of_app in Hin as [Hin|Hin]; [by apply Hold|].
    apply list_elem_of_singleton in Hin. discriminate.
  - apply elem_of_app in Hin as [Hin|Hin]; [by apply Hold|].
    apply list_elem_of_fmap in Hin as (u & [= -> ->] & Hu).
    apply list_elem_of_In, filter_In in Hu as [_ Hf].
    destruct (perform_keeps_kind (Happens (StructureCompleted h0)) pm h0 p0 Hl0)
      as (p' & Hl' & Hk).
    exists p'. by rewrite Hk.
Qed.

Lemma performAll_fetchesFiltered (acts : list Activity) (pm : PM) :
  fetchesFiltered pm -> fetchesFiltered (performAll acts pm).
Proof.
  revert pm. induction acts as [|a acts IH]; intros pm Hinv; [exact Hinv|].
  change (performAll (a :: acts) pm) with (performAll acts (perform a pm)).
  by apply IH, perform_fetchesFiltered.
Qed.

(** X16: whatever callers, pipelines and the updater do to a new project
    manager, it asks the updater for the content of a file only through
    a pipeline whose filter accepts the URI; so it never fetches a file
    that is neither a schema nor a package manifest. *)
Theorem fetches_only_filtered_files (acts : list Activity) (rootPath : string)
    (fs : InMemoryFileSystem) (svc : Svc) (h : Handle) (uri : string) :
  let pm := performAll acts (new rootPath fs svc) in
  Ensure h uri ∈ updaterCalls pm ->
  (exists p, pipelines pm !! h = Some p /\ pipelineFilter (kind p) uri = true) /\
  (isSchemaFile uri || isPackageJsonFile uri = true).
Proof.
  intros pm Hin.
  assert (Hinv : fetchesFiltered pm).
  { apply performAll_fetchesFiltered. intros h0 u0 Hin0. cbn in Hin0.
    by apply elem_of_nil in Hin0. }
  destruct (Hinv h uri Hin) as (p & Hl & Hf). split; [by eauto|].
  change (allFilter uri = true). unfold allFilter.
  destruct (kind p); cbn in Hf; unfold basicFilter, ownFilter in Hf.
  - apply andb_true_iff in Hf as [_ ->]. reflexivity.
  - apply orb_true_iff in Hf as [Hf| ->]; [|by rewrite orb_true_r].
    apply andb_true_iff in Hf as [_ ->]. reflexivity.
  - exact Hf.
Qed.

(** X17: each of [ensureBasicFiles], [ensureOwnFiles] and
    [ensureAllFiles] memoizes on its own: a second call in a row returns
    the observable of the first and builds nothing, and a call never
    changes what the other two have memoized.
    [invalidateModuleStructure] forgets all three: the next call of each
    builds a new pipeline and calls [ensureStructure()] again, while the
    pipelines built before stay as they are. *)
Theorem ensureFiles_memoizes_per_kind (k k' : PipelineKind) (pm : PM) :
  let pm1 := snd (ensureFiles k pm) in
  let r := ensureFiles k (invalidateModuleStructure pm1) in
  (fst (ensureFiles k pm1) = fst (ensureFiles k pm) /\
   pipelines (snd (ensureFiles k pm1)) = pipelines pm1 /\
   updaterCalls (snd (ensureFiles k pm1)) = updaterCalls pm1 /\
   (k' <> k -> slot k' pm1 = slot k' pm)) /\
  (fst r = length (pipelines pm1) /\
   pipelines (snd r) = pipelines pm1 ++ [mkPipeline k Cold 0] /\
   updaterCalls (snd r) = updaterCalls pm1 ++ [EnsureStructure] /\
   slot k (snd r) = Some (length (pipelines pm1))).
Proof.
  split; [|by destruct k].
  destruct k; cbn; unfold ensureBasicFiles, ensureOwnFiles, ensureAllFiles; cbn.
  - destruct (ensuredBasicFiles pm) as [h|] eqn:Hs; cbn; rewrite ?Hs; cbn;
      repeat split; by destruct k'.
  - destruct (ensuredOwnFiles pm) as [h|] eqn:Hs; cbn; rewrite ?Hs; cbn;
      repeat split; by destruct k'.
  - destruct (ensuredAllFiles pm) as [h|] eqn:Hs; cbn; rewrite ?Hs; cbn;
      repeat split; by destruct k'.
Qed.

(** X18: the error handler of a pipeline empties the slot of its kind
    whatever the slot holds.  When a pipeline that still has a subscriber
    fails after an invalidation, the slot holds a newer pipeline: that
    one is left as it is but forgotten, and the next call of the ensure
    function builds yet another pipeline and calls [ensureStructure()]
    again. *)
Theorem stale_failure_forgets_newer_pipeline (h h' : Handle) (err : string)
    (p : Pipeline) (pm : PM) :
  pipelines pm !! h = Some p ->
  running (state p) = true ->
  slot (kind p) pm = Some h' ->
  h' <> h ->
  let pm' := pipelineStep (UpstreamError h err) pm in
  slot (kind p) pm' = None /\
  pipelines pm' !! h' = pipelines pm !! h' /\
  fst (ensureFiles (kind p) pm') = length (pipelines pm) /\
  updaterCalls (snd (ensureFiles (kind p) pm')) = updaterCalls pm ++ [EnsureStructure].
Proof.
  intros Hl Hrun _ Hne. cbn. rewrite Hl, Hrun.
  destruct (kind p) eqn:Hk; cbn; rewrite length_insert, list_lookup_insert_ne by done;
    done.
Qed.

End ProjectFacts.

Section ProjectExamples.
Import Util Memfs ProjectManager Editor.

Lemma fetches_only_filtered_files_witness :
  isSchemaFile "file:///proj/a.schema" || isPackageJsonFile "file:///proj/a.schema"
    = true.
Proof.
  refine (proj2 (fetches_only_filtered_files
                   (H := Sample.recorder) (H0 := Sample.runtime)
                   [CallEnsure OwnFiles; Happens (Subscribe 0);
                    Happens (StructureCompleted 0)]
                   "/proj" Sample.workspaceFs [] 0 "file:///proj/a.schema" _)).
  vm_compute. apply list_elem_of_further, list_elem_of_here.
Defined.

Lemma stale_failure_forgets_newer_pipeline_witness :
  let pm :=
    performAll (H := Sample.recorder) (H0 := Sample.runtime)
      [CallEnsure OwnFiles; Happens (Subscribe 0); Invalidates;
       CallEnsure OwnFiles; Happens (Subscribe 1)] Sample.project in
  slot OwnFiles pm = Some 1 /\
  slot OwnFiles
    (pipelineStep (H := Sample.recorder) (UpstreamError 0 "ECONNRESET") pm) = None.
Proof.
  split; [reflexivity|].
  refine (proj1 (stale_failure_forgets_newer_pipeline
                   (H := Sample.recorder)
                   0 1 "ECONNRESET" (mkPipeline OwnFiles AwaitStructure 1) _ _ _ _ _)).
  - reflexivity.
  - reflexivity.
  - reflexivity.
  - discriminate.
Defined.

End ProjectExamples.

Section WireFacts.
Import Connection Wire.
Context {Json Operation Err Params : Type} `{Libraries Json Operation Err Params}.
Variable hasMethod : string -> bool.
Local Abbreviation D := (@Dispatcher Json Operation Params).
Local Abbreviation Sig := (@Signal Operation Err).

Ltac same_view :=
  repeat match goal with
         | Hv : sameView _ _ |- _ => destruct Hv as (?&?&?&?&?&?)
         end;
  repeat match goal with
         | d : Dispatcher |- _ => destruct d
         end;
  cbn in *; subst; repeat split; reflexivity.

Lemma sameView_trans (d1 d2 d3 : D) :
  sameView d1 d2 -> sameView d2 d3 -> sameView d1 d3.
Proof.
  intros (?&?&?&?&?&?) (?&?&?&?&?&?). repeat split; congruence.
Qed.

Lemma sameView_sym (d1 d2 : D) : sameView d1 d2 -> sameView d2 d1.
Proof. intros (?&?&?&?&?&?). by repeat split. Qed.

Lemma sameView_runNextTick (d : D) : sameView (runNextTick d) d.
Proof. by repeat split. Qed.

Lemma sameView_set_subscriptions (f : gmap RequestId SubId -> gmap RequestId SubId)
    (d : D) :
  sameView (set_subscriptions f d) d.
Proof. by repeat split. Qed.

Lemma sameView_close (s : SubId) (sub : Subscriber) (d1 d2 : D) :
  sameView d1 d2 -> sameView (close s sub d1) (close s sub d2).
Proof.
  intros Hv. unfold close. destruct (purpose sub); same_view.
Qed.

(** A signal is handled by what the subscriptions hold and by the
    streaming flag alone. *)
Lemma sameView_deliver (s : SubId) (sig : Sig) (d1 d2 : D) :
  sameView d1 d2 -> sameView (deliver s sig d1) (deliver s sig d2).
Proof.
  intros Hv. pose proof Hv as (Hs & Hstr & Hi & Hw & Hl & Hin).
  unfold deliver. rewrite Hs, Hstr.
  destruct (subscribers d2 !! s) as [sub|]; [|exact Hv].
  destruct (closed sub); [exact Hv|].
  clear Hs Hstr Hi Hw Hl Hin.
  assert (Hwrite : forall m, sameView (write m d1) (write m d2)).
  { intros m. clear sub. same_view. }
  assert (Hlog : forall e, sameView (log e d1) (log e d2)).
  { intros e. clear sub Hwrite. same_view. }
  assert (Herr : forall id method err,
            sameView (respondError id method err d1) (respondError id method err d2)).
  { intros id method err. clear sub Hwrite Hlog. same_view. }
  destruct (purpose sub) as [id method|method], sig as [patch| |err];
    try exact Hv; try (apply sameView_close; auto).
  assert (Hpart : forall b : bool,
            sameView (if b then write (PartialResult id [patch]) d1 else d1)
                     (if b then write (PartialResult id [patch]) d2 else d2)).
  { intros [|]; auto. }
  destruct (applyReducer (acc sub) patch) as [err|a'].
  - apply sameView_close. specialize (Hpart (streaming d2)).
    revert Hpart. generalize (if streaming d2 then write (PartialResult id [patch]) d1 else d1).
    generalize (if streaming d2 then write (PartialResult id [patch]) d2 else d2).
    clear. intros d2 d1 Hv. same_view.
  - specialize (Hpart (streaming d2)).
    revert Hpart. generalize (if streaming d2 then write (PartialResult id [patch]) d1 else d1).
    generalize (if streaming d2 then write (PartialResult id [patch]) d2 else d2).
    clear. intros d2 d1 Hv. same_view.
Qed.

(** Signals that come one event each are handled as signals that come
    at once. *)
Lemma sameView_emits (s : SubId) (sigs : list Sig) (d1 d2 : D) :
  sameView d1 d2 ->
  sameView (run hasMethod (map (Emit s) sigs) d1) (deliverAll s sigs d2).
Proof.
  revert d1 d2. induction sigs as [|sig sigs IH]; intros d1 d2 Hv; [exact Hv|].
  cbn [map]. rewrite run_cons, step_emit, deliverAll_cons.
  apply IH. apply (sameView_trans _ (deliver s sig d1)).
  - apply sameView_runNextTick.
  - by apply sameView_deliver.
Qed.

(** A notification for a method the handler has. *)
Lemma onMessage_notification (method : string) (params : Params)
    (sync : list Sig) (d : D) :
  String.eqb method "exit" = false ->
  String.eqb method "$/cancelRequest" = false ->
  hasMethod (camelCase method) = true ->
  onMessage hasMethod (NotificationMessage method params) sync d =
    deliverAll (length (subscribers d)) sync
      (set_subscribers
         (fun l => l ++ [mkSubscriber (ForNotification (camelCase method)) null false])
         (invoke (camelCase method) (Some params)
            (default d (lifecycle method params d)))).
Proof.
  intros He Hc Hm. unfold onMessage. rewrite He, Hc, Hm. cbn [negb].
  cbn [invoke subscribers].
  by destruct (lifecycle_fields method params d) as [-> _].
Qed.

(** The state in which the subscription of a request hears its first
    signal. *)
Lemma request_view (d : D) (id : RequestId) (method : string) (params : Params)
    (sync later : list Sig) :
  String.eqb method "exit" = false ->
  String.eqb method "$/cancelRequest" = false ->
  hasMethod (camelCase method) = true ->
  sameView
    (run hasMethod
       (Receive (RequestMessage id method params) sync
          :: map (Emit (length (subscribers d))) later) d)
    (deliverAll (length (subscribers d)) (sync ++ later)
       (set_subscribers (fun l => l ++ [mkSubscriber (ForRequest id method) null false])
          (invoke (camelCase method) (Some params)
             (default d (lifecycle method params d))))).
Proof.
  intros He Hc Hm. rewrite run_cons.
  change (step hasMethod (Receive ?m sync) d)
    with (runNextTick (onMessage hasMethod m sync d)).
  rewrite onMessage_request by assumption.
  rewrite deliverAll_app. apply sameView_emits.
  apply (sameView_trans _ _ _ (sameView_runNextTick _)).
  apply sameView_set_subscriptions.
Qed.

Lemma notification_view (d : D) (method : string) (params : Params)
    (sync later : list Sig) :
  String.eqb method "exit" = false ->
  String.eqb method "$/cancelRequest" = false ->
  hasMethod (camelCase method) = true ->
  sameView
    (run hasMethod
       (Receive (NotificationMessage method params) sync
          :: map (Emit (length (subscribers d))) later) d)
    (deliverAll (length (subscribers d)) (sync ++ later)
       (set_subscribers
          (fun l => l ++ [mkSubscriber (ForNotification (camelCase method)) null false])
          (invoke (camelCase method) (Some params)
             (default d (lifecycle method params d))))).
Proof.
  intros He Hc Hm. rewrite run_cons.
  change (step hasMethod (Receive ?m sync) d)
    with (runNextTick (onMessage hasMethod m sync d)).
  rewrite onMessage_notification by assumption.
  rewrite deliverAll_app. apply sameView_emits, sameView_runNextTick.
Qed.

(** X19: what the dispatcher writes, logs and keeps of a computation
    does not depend on when the observable sends: for a request or a
    notification that reaches the handler, signals sent while the
    observable is subscribed and signals sent later, one event each, have
    the effect of the same signals all sent at once. *)
Theorem timing_of_signals_is_invisible (d : D) (message : Message)
    (method : string) (params : Params) (sync later : list Sig) :
  (message = NotificationMessage method params \/
   exists id, message = RequestMessage id method params) ->
  String.eqb method "exit" = false ->
  String.eqb method "$/cancelRequest" = false ->
  hasMethod (camelCase method) = true ->
  let timed :=
    run hasMethod
      (Receive message sync :: map (Emit (length (subscribers d))) later) d in
  let atOnce := step hasMethod (Receive message (sync ++ later)) d in
  written timed = written atOnce /\
  logged timed = logged atOnce /\
  subscribers timed = subscribers atOnce.
Proof.
  intros Hmsg He Hc Hm timed atOnce.
  assert (Hv : sameView timed atOnce).
  { subst timed atOnce. destruct Hmsg as [->|[id ->]].
    - apply (sameView_trans _ _ _ (notification_view d method params sync later He Hc Hm)).
      apply sameView_sym.
      pose proof (notification_view d method params (sync ++ later) [] He Hc Hm) as Hv.
      by rewrite app_nil_r in Hv.
    - apply (sameView_trans _ _ _ (request_view d id method params sync later He Hc Hm)).
      apply sameView_sym.
      pose proof (request_view d id method params (sync ++ later) [] He Hc Hm) as Hv.
      by rewrite app_nil_r in Hv. }
  destruct Hv as (Hs & _ & _ & Hw & Hl & _). done.
Qed.

(** Patches reach an open subscription of a request, streaming or
    not: they are folded, and written as partial results only to a
    streaming peer. *)
Lemma deliverAll_patches (s : SubId) (id : RequestId) (method : string)
    (patches : list Operation) (a a' : Json) (d : D) :
  subscribers d !! s = Some (mkSubscriber (ForRequest id method) a false) ->
  applyAll a patches = inr a' ->
  let d' := deliverAll s (map Next patches) d in
  subscribers d' !! s = Some (mkSubscriber (ForRequest id method) a' false) /\
  streaming d' = streaming d /\
  written d' = written d ++
    (if streaming d then map (fun p => PartialResult id [p]) patches else []).
Proof.
  revert a d. induction patches as [|p ps IH]; intros a d Hl Happ; cbn in Happ.
  - injection Happ as <-. cbn. split; [exact Hl|]. split; [reflexivity|].
    destruct (streaming d); by rewrite app_nil_r.
  - destruct (applyReducer a p) as [err|a1] eqn:Hp; [discriminate|].
    cbn [map]. rewrite deliverAll_cons.
    assert (Hd1 : subscribers (deliver s (Next p) d) !! s
                  = Some (mkSubscriber (ForRequest id method) a1 false) /\
                  streaming (deliver s (Next p) d) = streaming d /\
                  written (deliver s (Next p) d) = written d ++
                    (if streaming d then [PartialResult id [p]] else [])).
    { unfold deliver. rewrite Hl. cbn. rewrite Hp.
      pose proof (lookup_lt_Some _ _ _ Hl) as Hlt.
      destruct (streaming d) eqn:Hstr; cbn; rewrite list_lookup_insert_eq by done;
        by rewrite ?app_nil_r. }
    destruct Hd1 as (Hl1 & Hstr1 & Hw1).
    destruct (IH a1 _ Hl1 Happ) as (Hl2 & Hstr2 & Hw2).
    split; [exact Hl2|]. split; [congruence|].
    rewrite Hw2, Hw1, Hstr1. destruct (streaming d); cbn; by rewrite <- ?app_assoc.
Qed.

(** Once the subscription is closed, the rest of the stream is not
    heard. *)
Lemma deliverAll_closed (s : SubId) (sigs : list Sig) (d : D) :
  closedAt s d -> deliverAll s sigs d = d.
Proof.
  induction sigs as [|sig sigs IH]; intros Hcl; [reflexivity|].
  rewrite deliverAll_cons, deliver_closed by exact Hcl. by apply IH.
Qed.

Lemma close_closedAt (s : SubId) (sub : Subscriber) (d : D) :
  s < length (subscribers d) -> closedAt s (close s sub d).
Proof.
  intros Hlt. exists (mkSubscriber (purpose sub) (acc sub) true).
  split; [|reflexivity]. unfold close.
  destruct (purpose sub); cbn; by rewrite list_lookup_insert_eq.
Qed.

(** The subscription of a new request, before it hears anything. *)
Lemma request_start (d : D) (id : RequestId) (method : string) (params : Params) :
  let d2 := set_subscribers
              (fun l => l ++ [mkSubscriber (ForRequest id method) null false])
              (invoke (camelCase method) (Some params)
                 (default d (lifecycle method params d))) in
  subscribers d2 !! length (subscribers d)
    = Some (mkSubscriber (ForRequest id method) null false) /\
  streaming d2 = streaming (default d (lifecycle method params d)) /\
  written d2 = written d.
Proof.
  cbn. destruct (lifecycle_fields method params d) as [-> ->].
  by rewrite lookup_app_r, Nat.sub_diag by lia.
Qed.

(** X20: to a peer that has not declared streaming the dispatcher sends
    no partial result: for a request whose stream is the patches
    followed by the completion, sent at once or later, exactly one
    message is written, the response that carries the fold of the
    patches. *)
Theorem plain_peer_gets_only_the_result (d : D) (id : RequestId)
    (method : string) (params : Params) (patches : list Operation) (r : Json)
    (sync later : list Sig) :
  String.eqb method "exit" = false ->
  String.eqb method "$/cancelRequest" = false ->
  hasMethod (camelCase method) = true ->
  streaming (default d (lifecycle method params d)) = false ->
  sync ++ later = map Next patches ++ [Complete] ->
  applyAll null patches = inr r ->
  written
    (run hasMethod
       (Receive (RequestMessage id method params) sync
          :: map (Emit (length (subscribers d))) later) d)
  = written d ++ [ResultResponse id r].
Proof.
  intros He Hc Hm Hstr Hsplit Hfold.
  destruct (request_view d id method params sync later He Hc Hm)
    as (_ & _ & _ & -> & _).
  rewrite Hsplit, deliverAll_app.
  destruct (request_start d id method params) as (Hl2 & Hstr2 & Hw2).
  destruct (deliverAll_patches _ id method patches null r _ Hl2 Hfold)
    as (Hl3 & Hstr3 & Hw3).
  cbn [deliverAll foldl]. unfold deliver at 1. rewrite Hl3. cbn.
  rewrite Hw3, Hstr2, Hstr, Hw2. by rewrite app_nil_r.
Qed.

(** X21: a stream that ends in an error: the patches sent before it are
    written as partial results (to a streaming peer), then exactly one
    error response with the message of the error, its code, or
    [UnknownErrorCode] when it has none, and its other fields as data;
    what the observable sends afterwards is not heard. *)
Theorem stream_error_gives_error_response (d : D) (id : RequestId)
    (method : string) (params : Params) (patches : list Operation) (a : Json)
    (err : Err) (rest sync later : list Sig) :
  String.eqb method "exit" = false ->
  String.eqb method "$/cancelRequest" = false ->
  hasMethod (camelCase method) = true ->
  sync ++ later = map Next patches ++ Error err :: rest ->
  applyAll null patches = inr a ->
  written
    (run hasMethod
       (Receive (RequestMessage id method params) sync
          :: map (Emit (length (subscribers d))) later) d)
  = written d ++
    (if streaming (default d (lifecycle method params d))
     then map (fun p => PartialResult id [p]) patches else []) ++
    [ErrorResponse id (errMessage err) (default UnknownErrorCode (errCode err))
       (Some (errData err))].
Proof.
  intros He Hc Hm Hsplit Hfold.
  destruct (request_view d id method params sync later He Hc Hm)
    as (_ & _ & _ & -> & _).
  rewrite Hsplit, deliverAll_app, deliverAll_cons.
  destruct (request_start d id method params) as (Hl2 & Hstr2 & Hw2).
  destruct (deliverAll_patches _ id method patches null a _ Hl2 Hfold)
    as (Hl3 & Hstr3 & Hw3).
  set (d3 := deliverAll _ (map Next patches) _) in *.
  assert (Hd4 : deliver (length (subscribers d)) (Error err) d3 =
                close (length (subscribers d))
                  (mkSubscriber (ForRequest id method) a false)
                  (respondError id method err d3)).
  { unfold deliver. by rewrite Hl3. }
  rewrite Hd4, deliverAll_closed.
  - rewrite close_written. cbn [written respondError write log].
    by rewrite Hw3, Hstr2, Hw2, <- app_assoc.
  - apply close_closedAt. cbn. by apply lookup_lt_Some in Hl3.
Qed.

(** X22: a patch that [applyReducer] refuses ends the stream like an
    error: a streaming peer still gets the refused patch as a partial
    result, since the patch is written before it is folded; then the
    error response follows and nothing else is heard. *)
Theorem refused_patch_gives_error_response (d : D) (id : RequestId)
    (method : string) (params : Params) (patches : list Operation) (a : Json)
    (patch : Operation) (err : Err) (rest sync later : list Sig) :
  String.eqb method "exit" = false ->
  String.eqb method "$/cancelRequest" = false ->
  hasMethod (camelCase method) = true ->
  sync ++ later = map Next patches ++ Next patch :: rest ->
  applyAll null patches = inr a ->
  applyReducer a patch = inl err ->
  written
    (run hasMethod
       (Receive (RequestMessage id method params) sync
          :: map (Emit (length (subscribers d))) later) d)
  = written d ++
    (if streaming (default d (lifecycle method params d))
     then map (fun p => PartialResult id [p]) (patches ++ [patch]) else []) ++
    [ErrorResponse id (errMessage err) (default UnknownErrorCode (errCode err))
       (Some (errData err))].
Proof.
  intros He Hc Hm Hsplit Hfold Hbad.
  destruct (request_view d id method params sync later He Hc Hm)
    as (_ & _ & _ & -> & _).
  rewrite Hsplit, deliverAll_app, deliverAll_cons.
  destruct (request_start d id method params) as (Hl2 & Hstr2 & Hw2).
  destruct (deliverAll_patches _ id method patches null a _ Hl2 Hfold)
    as (Hl3 & Hstr3 & Hw3).
  set (d3 := deliverAll _ (map Next patches) _) in *.
  assert (Hd4 : deliver (length (subscribers d)) (Next patch) d3 =
                close (length (subscribers d))
                  (mkSubscriber (ForRequest id method) a false)
                  (respondError id method err
                     (if streaming d3 then write (PartialResult id [patch]) d3 else d3))).
  { unfold deliver. rewrite Hl3. cbn. by rewrite Hbad. }
  rewrite Hd4, deliverAll_closed.
  - rewrite close_written. cbn [written respondError write log].
    rewrite Hstr3, Hstr2.
    destruct (streaming (default d (lifecycle method params d))); cbn [written write];
      rewrite Hw3, Hstr2, Hw2.
    + by rewrite map_app, <- !app_assoc.
    + by rewrite <- !app_assoc.
  - apply close_closedAt. cbn.
    destruct (streaming d3); cbn; by apply lookup_lt_Some in Hl3.
Qed.

(** X23: a method the handler does not have.  A request is answered
    with exactly one error response with the code [MethodNotFound], a
    notification with nothing but a warning in the log; the handler is
    not called and no subscription is made.  The [initialize] and
    [shutdown] cases of the switch have run before the method is looked
    up, so the two flags change even so. *)
Theorem unknown_method_is_refused (d : D) (id : RequestId) (method : string)
    (params : Params) (sync : list Sig) :
  String.eqb method "exit" = false ->
  String.eqb method "$/cancelRequest" = false ->
  hasMethod (camelCase method) = false ->
  let asked := step hasMethod (Receive (RequestMessage id method params) sync) d in
  let told := step hasMethod (Receive (NotificationMessage method params) sync) d in
  (written asked = written d ++
     [ErrorResponse id ("Method " +:+ camelCase method +:+ " not implemented")
        MethodNotFound None] /\
   logged asked = logged d /\ invoked asked = invoked d /\
   subscribers asked = subscribers d /\
   initialized asked = initialized (default d (lifecycle method params d))) /\
  (written told = written d /\
   logged told = logged d ++
     [LogWarn ("Method " +:+ camelCase method +:+ " not implemented")] /\
   invoked told = invoked d /\
   subscribers told = subscribers d /\
   initialized told = initialized (default d (lifecycle method params d))).
Proof.
  intros He Hc Hm. cbn. rewrite He, Hc, Hm. cbn.
  unfold lifecycle.
  destruct (String.eqb method "initialize"); [done|].
  destruct (String.eqb method "shutdown"); done.
Qed.

Lemma close_frame (s : SubId) (sub : Subscriber) (d : D) :
  length (subscribers (close s sub d)) = length (subscribers d) /\
  initialized (close s sub d) = initialized d /\
  invoked (close s sub d) = invoked d /\
  logged (close s sub d) = logged d.
Proof.
  unfold close. destruct (purpose sub); cbn; by rewrite length_insert.
Qed.

Lemma unsubscribe_frame (s : SubId) (d : D) :
  length (subscribers (unsubscribe s d)) = length (subscribers d) /\
  initialized (unsubscribe s d) = initialized d /\
  invoked (unsubscribe s d) = invoked d /\
  logged (unsubscribe s d) = logged d.
Proof.
  unfold unsubscribe. destruct (subscribers d !! s) as [sub|]; [|done].
  destruct (closed sub); [done|]. apply close_frame.
Qed.

Lemma unsubscribeAll_frame (d : D) :
  length (subscribers (unsubscribeAll d)) = length (subscribers d) /\
  initialized (unsubscribeAll d) = initialized d /\
  invoked (unsubscribeAll d) = invoked d /\
  logged (unsubscribeAll d) = logged d.
Proof.
  unfold unsubscribeAll. generalize ((map_to_list (subscriptions d)).*2).
  intros l. revert d. induction l as [|s l IH]; intros d; [done|].
  cbn. destruct (IH (unsubscribe s d)) as (-> & -> & -> & ->).
  apply unsubscribe_frame.
Qed.

(** Signals for a subscription that does not exist change nothing. *)
Lemma emits_absent (s : SubId) (sigs : list Sig) (d : D) :
  subscribers d !! s = None ->
  written (run hasMethod (map (Emit s) sigs) d) = written d.
Proof.
  revert d. induction sigs as [|sig sigs IH]; intros d Hl; [reflexivity|].
  cbn [map]. rewrite run_cons, step_emit.
  assert (Hd : deliver s sig d = d) by (unfold deliver; by rewrite Hl).
  rewrite Hd, IH; [reflexivity | exact Hl].
Qed.

(** The subscription of a notification writes nothing, whatever it
    hears. *)
Lemma deliverAll_notification (s : SubId) (method : string) (sigs : list Sig)
    (d : D) :
  (exists sub, subscribers d !! s = Some sub /\ purpose sub = ForNotification method) ->
  written (deliverAll s sigs d) = written d.
Proof.
  revert d. induction sigs as [|sig sigs IH]; intros d (sub & Hl & Hp); [reflexivity|].
  rewrite deliverAll_cons.
  pose proof (lookup_lt_Some _ _ _ Hl) as Hlt.
  assert (Hd : written (deliver s sig d) = written d /\
               exists sub', subscribers (deliver s sig d) !! s = Some sub' /\
                            purpose sub' = ForNotification method).
  { unfold deliver. rewrite Hl. destruct (closed sub); [by eauto|]. rewrite Hp.
    destruct sig as [patch| |err]; [by eauto| |]; unfold close; cbn; rewrite Hp; cbn;
      (split; [reflexivity|]); rewrite list_lookup_insert_eq by done; eauto. }
  destruct Hd as [Hw Hsub]. by rewrite IH.
Qed.

(** X24: a notification is never answered: whatever its method, except
    [$/cancelRequest], whether the handler has the method or not, and
    whatever the observable sends at once or later, errors included,
    the dispatcher writes nothing. *)
Theorem notification_is_never_answered (d : D) (method : string) (params : Params)
    (sync later : list Sig) :
  String.eqb method "$/cancelRequest" = false ->
  written
    (run hasMethod
       (Receive (NotificationMessage method params) sync
          :: map (Emit (length (subscribers d))) later) d)
  = written d.
Proof.
  intros Hc.
  assert (Habsent : forall d1 : D,
            length (subscribers d1) = length (subscribers d) ->
            written d1 = written d ->
            written (run hasMethod (map (Emit (length (subscribers d))) later)
                       (runNextTick d1)) = written d).
  { intros d1 Hlen Hw. rewrite emits_absent; [exact Hw|].
    apply lookup_ge_None. cbn. lia. }
  destruct (String.eqb method "exit") eqn:He.
  { rewrite run_cons.
    change (step hasMethod (Receive ?m sync) d)
      with (runNextTick (onMessage hasMethod m sync d)).
    unfold onMessage. rewrite He.
    apply Habsent; [apply unsubscribeAll_frame | apply unsubscribeAll_written]. }
  destruct (hasMethod (camelCase method)) eqn:Hm.
  - destruct (notification_view d method params sync later He Hc Hm)
      as (_ & _ & _ & -> & _).
    rewrite (deliverAll_notification _ (camelCase method)).
    + cbn. by destruct (lifecycle_fields method params d) as [_ ->].
    + exists (mkSubscriber (ForNotification (camelCase method)) null false).
      split; [|reflexivity]. cbn.
      destruct (lifecycle_fields method params d) as [-> _].
      by rewrite lookup_app_r, Nat.sub_diag by lia.
  - rewrite run_cons.
    change (step hasMethod (Receive ?m sync) d)
      with (runNextTick (onMessage hasMethod m sync d)).
    unfold onMessage. rewrite He, Hc, Hm. cbn [negb].
    destruct (lifecycle_fields method params d) as [Hs Hw].
    apply Habsent; cbn; congruence.
Qed.

Lemma onClose_fields (errorMessage : string) (d : D) :
  written (onClose errorMessage d) = written d /\
  initialized (onClose errorMessage d) = false /\
  invoked (onClose errorMessage d)
    = invoked d ++ (if initialized d then [("shutdown", None)] else []).
Proof.
  unfold onClose. destruct (unsubscribeAll_frame d) as (_ & Hi & Hin & _).
  rewrite Hi. destruct (initialized d) eqn:Hd; cbn;
    rewrite ?unsubscribeAll_written, ?Hin, ?Hi, ?app_nil_r; done.
Qed.

(** X25: when the stream closes or fails, the handler is shut down
    once: over any run of [close] and [error] events, [shutdown] is
    called exactly once if the handler was initialized and not at all
    otherwise, the handler is left not initialized, and nothing is
    written. *)
Theorem stream_end_shuts_down_once (ev : Event) (evs : list Event) (d : D) :
  forallb endsStream (ev :: evs) = true ->
  let d' := run hasMethod (ev :: evs) d in
  invoked d' = invoked d ++ (if initialized d then [("shutdown", None)] else []) /\
  initialized d' = false /\
  written d' = written d.
Proof.
  intros Hevs. cbn zeta.
  assert (Hstep : forall (e : Event) (d0 : D), endsStream e = true ->
            written (step hasMethod e d0) = written d0 /\
            initialized (step hasMethod e d0) = false /\
            invoked (step hasMethod e d0)
              = invoked d0 ++ (if initialized d0 then [("shutdown", None)] else [])).
  { intros e d0 He. destruct e; try discriminate; cbn [step];
      exact (onClose_fields _ d0). }
  assert (Hrest : forall (l : list Event) (d0 : D),
            forallb endsStream l = true -> initialized d0 = false ->
            invoked (run hasMethod l d0) = invoked d0 /\
            initialized (run hasMethod l d0) = false /\
            written (run hasMethod l d0) = written d0).
  { induction l as [|e l IH]; intros d0 Hl Hi; [done|].
    cbn in Hl. apply andb_true_iff in Hl as [He Hl].
    destruct (Hstep e d0 He) as (Hw & Hi' & Hin).
    rewrite run_cons. destruct (IH _ Hl Hi') as (-> & -> & ->).
    rewrite Hin, Hi, app_nil_r. done. }
  cbn in Hevs. apply andb_true_iff in Hevs as [He Hevs].
  destruct (Hstep ev d He) as (Hw & Hi & Hin).
  rewrite run_cons. destruct (Hrest evs _ Hevs Hi) as (-> & -> & ->).
  by rewrite Hin, Hw.
Qed.

(** The ids that the [finally] callback of a subscription queues when
    the subscription goes from [before] to [after]. *)
Lemma foldl_delete_lookup (q : list RequestId) (m : gmap RequestId SubId)
    (id : RequestId) :
  foldl (fun m i => delete i m) m q !! id =
    if bool_decide (id ∈ q) then None else m !! id.
Proof.
  revert m. induction q as [|i q IH]; intros m; [reflexivity|].
  cbn [foldl]. rewrite IH.
  destruct (decide (id = i)) as [->|Hne].
  - rewrite lookup_delete_eq.
    rewrite (bool_decide_eq_true_2 (i ∈ i :: q)) by left.
    by destruct (bool_decide (i ∈ q)).
  - rewrite lookup_delete_ne by done.
    destruct (bool_decide (id ∈ q)) eqn:Hq.
    + apply bool_decide_eq_true_1 in Hq.
      by rewrite (bool_decide_eq_true_2 (id ∈ i :: q)) by (by right).
    + apply bool_decide_eq_false_1 in Hq.
      rewrite (bool_decide_eq_false_2 (id ∈ i :: q)); [reflexivity|].
      intros Hin. apply elem_of_cons in Hin as [?|?]; done.
Qed.

(** What one signal does to the subscription it reaches, to the others,
    to the table and to the queue of the next tick. *)
Lemma deliver_own (s : SubId) (sig : Sig) (sub : Subscriber) (d : D) :
  subscribers d !! s = Some sub ->
  exists sub',
    subscribers (deliver s sig d) !! s = Some sub' /\
    purpose sub' = purpose sub /\
    (closed sub = true -> closed sub' = true) /\
    nextTick (deliver s sig d) = nextTick d ++
      (if negb (closed sub) && closed sub'
       then match purpose sub with ForRequest id _ => [id] | ForNotification _ => [] end
       else []) /\
    subscriptions (deliver s sig d) = subscriptions d /\
    (forall s', s' <> s -> subscribers (deliver s sig d) !! s' = subscribers d !! s').
Proof.
  intros Hl. pose proof (lookup_lt_Some _ _ _ Hl) as Hlt.
  assert (Hsame : exists sub',
    subscribers d !! s = Some sub' /\ purpose sub' = purpose sub /\
    (closed sub = true -> closed sub' = true) /\
    nextTick d = nextTick d ++
      (if negb (closed sub) && closed sub'
       then match purpose sub with ForRequest id _ => [id] | ForNotification _ => [] end
       else []) /\
    subscriptions d = subscriptions d /\
    (forall s', s' <> s -> subscribers d !! s' = subscribers d !! s')).
  { exists sub. rewrite andb_negb_l, app_nil_r. done. }
  assert (Hclose : forall d0 : D,
    subscribers d0 = subscribers d -> nextTick d0 = nextTick d ->
    subscriptions d0 = subscriptions d -> closed sub = false ->
    exists sub',
    subscribers (close s sub d0) !! s = Some sub' /\ purpose sub' = purpose sub /\
    (closed sub = true -> closed sub' = true) /\
    nextTick (close s sub d0) = nextTick d ++
      (if negb (closed sub) && closed sub'
       then match purpose sub with ForRequest id _ => [id] | ForNotification _ => [] end
       else []) /\
    subscriptions (close s sub d0) = subscriptions d /\
    (forall s', s' <> s -> subscribers (close s sub d0) !! s' = subscribers d !! s')).
  { intros d0 Hs0 Hq0 Ht0 Hc. exists (mkSubscriber (purpose sub) (acc sub) true).
    unfold close. rewrite Hc.
    destruct (purpose sub); cbn; rewrite Hs0, ?Hq0, ?Ht0, ?app_nil_r,
      list_lookup_insert_eq by done;
      repeat split; try done; intros s' Hne; by rewrite list_lookup_insert_ne. }
  unfold deliver. rewrite Hl. destruct (closed sub) eqn:Hc; [exact Hsame|].
  destruct (purpose sub) as [id method|method] eqn:Hp, sig as [patch| |err];
    try exact Hsame.
  - destruct (applyReducer (acc sub) patch) as [err|a'].
    + apply Hclose; by destruct (streaming d).
    + exists (mkSubscriber (ForRequest id method) a' false).
      destruct (streaming d); cbn; rewrite list_lookup_insert_eq, app_nil_r by done;
        repeat split; try done; intros s' Hne; by rewrite list_lookup_insert_ne.
  - by apply Hclose.
  - by apply Hclose.
  - by apply Hclose.
  - by apply Hclose.
Qed.

Lemma deliverAll_own (s : SubId) (sigs : list Sig) (sub : Subscriber) (d : D) :
  subscribers d !! s = Some sub ->
  exists sub',
    subscribers (deliverAll s sigs d) !! s = Some sub' /\
    purpose sub' = purpose sub /\
    (closed sub = true -> closed sub' = true) /\
    nextTick (deliverAll s sigs d) = nextTick d ++
      (if negb (closed sub) && closed sub'
       then match purpose sub with ForRequest id _ => [id] | ForNotification _ => [] end
       else []) /\
    subscriptions (deliverAll s sigs d) = subscriptions d /\
    (forall s', s' <> s ->
       subscribers (deliverAll s sigs d) !! s' = subscribers d !! s').
Proof.
  revert sub d. induction sigs as [|sig sigs IH]; intros sub d Hl.
  - exists sub. rewrite andb_negb_l, app_nil_r. done.
  - rewrite deliverAll_cons.
    destruct (deliver_own s sig sub d Hl) as (sub1 & Hl1 & Hp1 & Hc1 & Hq1 & Ht1 & Ho1).
    destruct (IH sub1 _ Hl1) as (sub' & Hl' & Hp' & Hc' & Hq' & Ht' & Ho').
    exists sub'. split; [exact Hl'|]. split; [congruence|].
    split; [by auto|]. split; [|split; [congruence|]].
    + rewrite Hq', Hq1, Hp1, <- app_assoc. f_equal.
      destruct (closed sub) eqn:E.
      * rewrite (Hc1 eq_refl) in *. by rewrite (Hc' eq_refl).
      * destruct (closed sub1) eqn:E1; cbn.
        -- rewrite (Hc' eq_refl). cbn. by rewrite app_nil_r.
        -- reflexivity.
    + intros s' Hne. by rewrite Ho', Ho1.
Qed.

Lemma lifecycle_frame (method : string) (params : Params) (d : D) :
  subscriptions (default d (lifecycle method params d)) = subscriptions d /\
  nextTick (default d (lifecycle method params d)) = nextTick d.
Proof.
  unfold lifecycle.
  destruct (String.eqb method "initialize"); [done|].
  destruct (String.eqb method "shutdown"); done.
Qed.

Local Abbreviation Ev := (@Event Operation Err Params).
Local Abbreviation Mo := (@Moment Operation Err Params).

Lemma play_cons (m : Mo) (ms : list Mo) (d : D) :
  play hasMethod (m :: ms) d = play hasMethod ms (moment hasMethod m d).
Proof. reflexivity. Qed.

(** An event in a tick of its own is the listener's call and then the
    end of the tick. *)
Lemma step_listen (ev : Ev) (d : D) :
  step hasMethod ev d = runNextTick (listen hasMethod ev d).
Proof. by destruct ev. Qed.

(** X26: the table of subscriptions holds a request from the call of the
    listener until the tick after its subscription is closed.  After a
    request for a method of the handler, whose id is not queued for
    deletion, the entry of the id leads to the new subscription,
    whether or not the stream has ended while it was being subscribed;
    so a [$/cancelRequest] for the id that comes in the same tick is
    answered with the error response even then.  Over the signals and
    ticks that follow, the entry is there while the subscription is
    open; once it is closed the entry stays, queued for deletion, until
    the tick ends, and is absent afterwards. *)
Theorem table_holds_request_until_tick (d : D) (id : RequestId)
    (method : string) (params : Params) (sync : list Sig) (ms : list Mo) :
  String.eqb method "exit" = false ->
  String.eqb method "$/cancelRequest" = false ->
  hasMethod (camelCase method) = true ->
  (id ∉ nextTick d) ->
  forallb (concerns (length (subscribers d))) ms = true ->
  let s := length (subscribers d) in
  let d1 := listen hasMethod (Receive (RequestMessage id method params) sync) d in
  let d' := play hasMethod ms d1 in
  subscriptions d1 !! id = Some s /\
  (forall (cancel : Params) (csync : list Sig),
     cancelId cancel = Some id ->
     written (listen hasMethod
                (Receive (NotificationMessage "$/cancelRequest" cancel) csync) d1)
       = written d1 ++ [ErrorResponse id "Request cancelled" RequestCancelled None]) /\
  exists sub,
    subscribers d' !! s = Some sub /\
    purpose sub = ForRequest id method /\
    ((closed sub = false /\ (id ∉ nextTick d') /\ subscriptions d' !! id = Some s) \/
     (closed sub = true /\ (id ∈ nextTick d') /\ subscriptions d' !! id = Some s) \/
     (closed sub = true /\ (id ∉ nextTick d') /\ subscriptions d' !! id = None)).
Proof.
  intros He Hc Hm Hq Hms s d1 d'.
  assert (Hinv : forall (l : list Mo) (d0 : D),
    forallb (concerns s) l = true ->
    (exists sub, subscribers d0 !! s = Some sub /\
       purpose sub = ForRequest id method /\
       ((closed sub = false /\ (id ∉ nextTick d0) /\ subscriptions d0 !! id = Some s) \/
        (closed sub = true /\ (id ∈ nextTick d0) /\ subscriptions d0 !! id = Some s) \/
        (closed sub = true /\ (id ∉ nextTick d0) /\ subscriptions d0 !! id = None))) ->
    exists sub, subscribers (play hasMethod l d0) !! s = Some sub /\
       purpose sub = ForRequest id method /\
       ((closed sub = false /\ (id ∉ nextTick (play hasMethod l d0)) /\
         subscriptions (play hasMethod l d0) !! id = Some s) \/
        (closed sub = true /\ (id ∈ nextTick (play hasMethod l d0)) /\
         subscriptions (play hasMethod l d0) !! id = Some s) \/
        (closed sub = true /\ (id ∉ nextTick (play hasMethod l d0)) /\
         subscriptions (play hasMethod l d0) !! id = None))).
  { induction l as [|m l IH]; intros d0 Hl (sub & Hsub & Hp & Hcase); [by eauto|].
    cbn [forallb] in Hl. apply andb_true_iff in Hl as [Hm0 Hl].
    rewrite play_cons. apply IH; [exact Hl|]. clear IH Hl.
    destruct m as [ev|]; cbn [moment].
    - destruct ev as [message sync0|s0 sig| |]; try discriminate.
      cbn in Hm0. apply Nat.eqb_eq in Hm0. subst s0. cbn [listen].
      destruct (deliver_own s sig sub d0 Hsub)
        as (sub' & Hl' & Hp' & Hc' & Hq' & Ht' & _).
      exists sub'. split; [exact Hl'|]. split; [congruence|].
      rewrite Hq', Ht', Hp.
      destruct Hcase as [(Ho & Hnq & Ht)|[(Hcl & Hin & Ht)|(Hcl & Hnq & Ht)]].
      + rewrite Ho. cbn [negb andb]. destruct (closed sub') eqn:E.
        * right; left. split; [reflexivity|]. split; [|exact Ht].
          apply elem_of_app. right. left.
        * left. split; [reflexivity|]. by rewrite app_nil_r.
      + rewrite Hcl, (Hc' Hcl). cbn. rewrite app_nil_r. right; left. done.
      + rewrite Hcl, (Hc' Hcl). cbn. rewrite app_nil_r. right; right. done.
    - exists sub. split; [exact Hsub|]. split; [exact Hp|].
      cbn [runNextTick subscriptions set_nextTick set_subscriptions nextTick].
      unfold SubId in *. rewrite foldl_delete_lookup.
      destruct (bool_decide (id ∈ nextTick d0)) eqn:Hb;
        [apply bool_decide_eq_true_1 in Hb | apply bool_decide_eq_false_1 in Hb];
        destruct Hcase as [(Ho & Hnq & Ht)|[(Hcl & Hin & Ht)|(Hcl & Hnq & Ht)]];
        try contradiction.
      + right; right. split; [exact Hcl|]. split; [apply not_elem_of_nil | reflexivity].
      + left. split; [exact Ho|]. split; [apply not_elem_of_nil | exact Ht].
      + right; right. split; [exact Hcl|]. split; [apply not_elem_of_nil | exact Ht]. }
  assert (Hd1 : d1 = set_subscriptions <[id := s]>
                       (deliverAll s sync
                          (set_subscribers
                             (fun l => l ++ [mkSubscriber (ForRequest id method) null false])
                             (invoke (camelCase method) (Some params)
                                (default d (lifecycle method params d)))))).
  { subst d1 s. cbn [listen]. by apply onMessage_request. }
  destruct (request_start d id method params) as (Hl2 & _ & _). fold s in Hl2.
  destruct (deliverAll_own s sync _ _ Hl2) as (sub' & Hl' & Hp' & _ & Hq' & _ & _).
  cbn [closed negb andb purpose set_subscribers invoke nextTick] in Hq'.
  destruct (lifecycle_frame method params d) as [_ Hq0]. rewrite Hq0 in Hq'.
  assert (Hentry : subscriptions d1 !! id = Some s).
  { rewrite Hd1. cbn. apply lookup_insert_eq. }
  split; [exact Hentry|]. split.
  - intros cancel csync Hid. cbn [listen onMessage]. cbn [String.eqb Ascii.eqb Bool.eqb].
    unfold cancelRequest. rewrite Hid. unfold SubId in *. rewrite Hentry.
    cbn [written write set_subscriptions]. by rewrite unsubscribe_written.
  - subst d'. apply Hinv; [exact Hms|].
    exists sub'. rewrite Hd1.
    cbn [subscribers subscriptions nextTick set_subscriptions].
    split; [exact Hl'|]. split; [exact Hp'|]. rewrite Hq', lookup_insert_eq.
    destruct (closed sub'); cbn.
    + right; left. split; [reflexivity|]. split; [|reflexivity].
      apply elem_of_app. right. left.
    + left. rewrite app_nil_r. done.
Qed.

Lemma unsubscribe_effect (s : SubId) (sub : Subscriber) (d : D) :
  subscribers d !! s = Some sub ->
  subscribers (unsubscribe s d)
    = <[s := mkSubscriber (purpose sub) (acc sub) true]> (subscribers d) /\
  nextTick (unsubscribe s d) = nextTick d ++
    (if closed sub then []
     else match purpose sub with ForRequest id _ => [id] | ForNotification _ => [] end) /\
  subscriptions (unsubscribe s d) = subscriptions d.
Proof.
  intros Hl. unfold unsubscribe. rewrite Hl. destruct (closed sub) eqn:Hc.
  - rewrite app_nil_r. split; [|done]. symmetry. apply list_insert_id.
    transitivity (Some sub); [exact Hl|]. f_equal. destruct sub; cbn in *. by subst.
  - unfold close. destruct (purpose sub); cbn; by rewrite ?app_nil_r.
Qed.

(** After [unsubscribe()] was called on the values of the table, the
    id of every entry is queued for deletion. *)
Lemma unsubscribe_values_queue (l : list (RequestId * SubId)) (d : D) :
  (forall id s, (id, s) ∈ l ->
     exists sub method,
       subscribers d !! s = Some sub /\ purpose sub = ForRequest id method /\
       (closed sub = false \/ (id ∈ nextTick d))) ->
  let d' := foldl (fun d s => unsubscribe s d) d l.*2 in
  (forall id s, (id, s) ∈ l -> (id ∈ nextTick d')) /\
  (forall id, (id ∈ nextTick d) -> (id ∈ nextTick d')) /\
  subscriptions d' = subscriptions d.
Proof.
  revert d. induction l as [|[id0 s0] l IH]; intros d Hpre; cbn zeta.
  - split; [|done]. intros id s Hin. by apply elem_of_nil in Hin.
  - cbn [fmap list_fmap foldl fst snd].
    destruct (Hpre id0 s0) as (sub0 & method0 & Hl0 & Hp0 & Hopen0); [left|].
    destruct (unsubscribe_effect s0 sub0 d Hl0) as (Hs1 & Hq1 & Ht1).
    pose proof (lookup_lt_Some _ _ _ Hl0) as Hlt0.
    assert (Hgrow : forall id, (id ∈ nextTick d) -> id ∈ nextTick (unsubscribe s0 d)).
    { intros id Hin. rewrite Hq1. apply elem_of_app. by left. }
    assert (Hid0 : id0 ∈ nextTick (unsubscribe s0 d)).
    { destruct Hopen0 as [Hc0|Hin]; [|by apply Hgrow].
      rewrite Hq1, Hc0, Hp0. apply elem_of_app. right. left. }
    destruct (IH (unsubscribe s0 d)) as (Hall & Hmono & Ht).
    { intros id s Hin.
      destruct (Hpre id s) as (sub & method & Hl & Hp & Hopen); [by right|].
      destruct (decide (s = s0)) as [->|Hne].
      - exists (mkSubscriber (purpose sub0) (acc sub0) true), method0.
        rewrite Hs1, list_lookup_insert_eq by done.
        split; [reflexivity|].
        assert (sub = sub0) as -> by congruence.
        assert (id = id0) as -> by congruence.
        split; [exact Hp0 | by right].
      - exists sub, method. rewrite Hs1, list_lookup_insert_ne by done.
        split; [exact Hl|]. split; [exact Hp|].
        destruct Hopen as [?|Hin']; [by left | right; by apply Hgrow]. }
    split; [|split].
    + intros id s Hin. apply elem_of_cons in Hin as [[= -> ->]|Hin].
      * by apply Hmono.
      * by apply (Hall id s).
    + intros id Hin. by apply Hmono, Hgrow.
    + by rewrite Ht.
Qed.

Lemma tableOpen_tracked (d : D) : tableOpen d -> tableTracked d.
Proof.
  intros Ho id s Hl. destruct (Ho id s Hl) as (sub & method & ? & ? & ?).
  exists sub, method. auto.
Qed.

(** When the tick ends, the entries that are left lead to open
    subscriptions. *)
Lemma tableTracked_tick (d : D) : tableTracked d -> tableOpen (runNextTick d).
Proof.
  intros Hinv id s Hl. cbn in Hl. rewrite foldl_delete_lookup in Hl.
  destruct (bool_decide (id ∈ nextTick d)) eqn:Hin; [discriminate|].
  apply bool_decide_eq_false_1 in Hin.
  destruct (Hinv id s Hl) as (sub & method & Hs & Hp & [Hc|Hq]); [|done].
  by exists sub, method.
Qed.

Lemma tableTracked_deliver (s : SubId) (sig : Sig) (d : D) :
  tableTracked d -> tableTracked (deliver s sig d).
Proof.
  intros Hinv id s' Hl.
  destruct (subscribers d !! s) as [sub|] eqn:Hs.
  - destruct (deliver_own s sig sub d Hs) as (sub' & Hl' & Hp' & Hc' & Hq' & Ht' & Ho').
    rewrite Ht' in Hl. destruct (Hinv id s' Hl) as (x & method & Hx & Hpx & Hcx).
    destruct (decide (s' = s)) as [->|Hne].
    + assert (x = sub) as -> by congruence.
      exists sub', method. split; [exact Hl'|]. split; [congruence|].
      destruct (closed sub') eqn:E; [right|by left].
      rewrite Hq', Hpx. apply elem_of_app.
      destruct Hcx as [Hopen|Hin]; [right|by left].
      rewrite Hopen. cbn. left.
    + exists x, method. rewrite Ho' by exact Hne.
      split; [exact Hx|]. split; [exact Hpx|].
      destruct Hcx as [?|Hin]; [by left|right].
      rewrite Hq'. apply elem_of_app. by left.
  - assert (Hd : deliver s sig d = d) by (unfold deliver; by rewrite Hs).
    rewrite Hd in Hl |- *. exact (Hinv id s' Hl).
Qed.

Lemma tableTracked_deliverAll (s : SubId) (sigs : list Sig) (d : D) :
  tableTracked d -> tableTracked (deliverAll s sigs d).
Proof.
  revert d. induction sigs as [|sig sigs IH]; intros d Hinv; [exact Hinv|].
  rewrite deliverAll_cons. by apply IH, tableTracked_deliver.
Qed.

Lemma tableTracked_unsubscribe (s : SubId) (d : D) :
  tableTracked d -> tableTracked (unsubscribe s d).
Proof.
  intros Hinv id s' Hl.
  destruct (subscribers d !! s) as [sub|] eqn:Hs.
  - destruct (unsubscribe_effect s sub d Hs) as (Hs1 & Hq1 & Ht1).
    pose proof (lookup_lt_Some _ _ _ Hs) as Hlt.
    rewrite Ht1 in Hl. destruct (Hinv id s' Hl) as (x & method & Hx & Hpx & Hcx).
    destruct (decide (s' = s)) as [->|Hne].
    + assert (x = sub) as -> by congruence.
      exists (mkSubscriber (purpose sub) (acc sub) true), method.
      rewrite Hs1, list_lookup_insert_eq by exact Hlt.
      split; [reflexivity|]. split; [exact Hpx|]. right.
      rewrite Hq1, Hpx. apply elem_of_app.
      destruct Hcx as [Hopen|Hin]; [right|by left].
      rewrite Hopen. left.
    + exists x, method. rewrite Hs1, list_lookup_insert_ne by done.
      split; [exact Hx|]. split; [exact Hpx|].
      destruct Hcx as [?|Hin]; [by left|right].
      rewrite Hq1. apply elem_of_app. by left.
  - assert (Hd : unsubscribe s d = d) by (unfold unsubscribe; by rewrite Hs).
    rewrite Hd in Hl |- *. exact (Hinv id s' Hl).
Qed.

Lemma tableTracked_unsubscribeAll (d : D) :
  tableTracked d -> tableTracked (unsubscribeAll d).
Proof.
  unfold unsubscribeAll. generalize ((map_to_list (subscriptions d)).*2).
  intros l. revert d. induction l as [|s l IH]; intros d Hinv; [exact Hinv|].
  cbn. by apply IH, tableTracked_unsubscribe.
Qed.

(** A change that leaves the subscriptions and the queue alone and
    removes entries at most. *)
Lemma tableTracked_frame (d d1 : D) :
  subscribers d1 = subscribers d -> nextTick d1 = nextTick d ->
  (forall id s, subscriptions d1 !! id = Some s -> subscriptions d !! id = Some s) ->
  tableTracked d -> tableTracked d1.
Proof.
  intros Hs Hq Ht Hinv id s Hl. rewrite Hs, Hq. exact (Hinv id s (Ht id s Hl)).
Qed.

Lemma tableTracked_cancelRequest (params : Params) (d : D) :
  tableTracked d -> tableTracked (cancelRequest params d).
Proof.
  intros Hinv. unfold cancelRequest.
  destruct (cancelId params) as [id0|]; [|by apply (tableTracked_frame d)].
  destruct (subscriptions d !! id0) as [s0|]; [|by apply (tableTracked_frame d)].
  apply (tableTracked_frame (unsubscribe s0 d)); [reflexivity|reflexivity| |].
  - intros id s. cbn. intros Hl. apply lookup_delete_Some in Hl. tauto.
  - by apply tableTracked_unsubscribe.
Qed.

Lemma tableTracked_onClose (errorMessage : string) (d : D) :
  tableTracked d -> tableTracked (onClose errorMessage d).
Proof.
  intros Hinv. unfold onClose.
  pose proof (tableTracked_unsubscribeAll d Hinv) as Hinv'.
  destruct (initialized (unsubscribeAll d)); [|exact Hinv'].
  by apply (tableTracked_frame (unsubscribeAll d)).
Qed.

Lemma tableTracked_grow (d d0 : D) (sub0 : Subscriber) :
  subscribers d0 = subscribers d -> nextTick d0 = nextTick d ->
  subscriptions d0 = subscriptions d ->
  tableTracked d -> tableTracked (set_subscribers (fun l => l ++ [sub0]) d0).
Proof.
  intros Hs Hq Ht Hinv id s Hl. cbn in Hl |- *. rewrite Ht in Hl. rewrite Hs, Hq.
  destruct (Hinv id s Hl) as (sub & method & Hsub & Hrest).
  exists sub, method. split; [|exact Hrest]. by apply lookup_app_l_Some.
Qed.

Lemma tableTracked_onMessage (message : Message) (sync : list Sig) (d : D) :
  tableTracked d -> tableTracked (onMessage hasMethod message sync d).
Proof.
  intros Hinv.
  destruct message as [|rid method params|method params|]; cbn [onMessage].
  - exact Hinv.
  - destruct (String.eqb method "exit"); [by apply tableTracked_unsubscribeAll|].
    destruct (String.eqb method "$/cancelRequest");
      [by apply tableTracked_cancelRequest|].
    destruct (lifecycle_fields method params d) as [Hs0 _].
    destruct (lifecycle_frame method params d) as [Ht0 Hq0].
    destruct (hasMethod (camelCase method)) eqn:Hm; cbn [negb];
      [|by apply (tableTracked_frame d); cbn; try congruence].
    cbn [invoke subscribers]. rewrite Hs0.
    destruct (request_start d rid method params) as (Hl2 & _ & _).
    destruct (deliverAll_own (length (subscribers d)) sync _ _ Hl2)
      as (sub' & Hl' & Hp' & _ & Hq' & _ & _).
    set (d2 := set_subscribers
                 (fun l => l ++ [mkSubscriber (ForRequest rid method) null false])
                 (invoke (camelCase method) (Some params)
                    (default d (lifecycle method params d)))) in *.
    assert (Hinv3 : tableTracked (deliverAll (length (subscribers d)) sync d2)).
    { apply tableTracked_deliverAll. subst d2.
      by apply (tableTracked_grow d). }
    intros id s Hl. cbn [subscriptions set_subscriptions subscribers nextTick] in *.
    destruct (decide (id = rid)) as [->|Hne].
    + rewrite lookup_insert_eq in Hl. injection Hl as <-.
      exists sub', method. split; [exact Hl'|]. split; [exact Hp'|].
      destruct (closed sub') eqn:E; [right|by left].
      rewrite Hq'. cbn. apply elem_of_app. right. left.
    + rewrite lookup_insert_ne in Hl by done. exact (Hinv3 id s Hl).
  - destruct (String.eqb method "exit"); [by apply tableTracked_unsubscribeAll|].
    destruct (String.eqb method "$/cancelRequest");
      [by apply tableTracked_cancelRequest|].
    destruct (lifecycle_fields method params d) as [Hs0 _].
    destruct (lifecycle_frame method params d) as [Ht0 Hq0].
    destruct (hasMethod (camelCase method)) eqn:Hm; cbn [negb];
      [|by apply (tableTracked_frame d); cbn; try congruence].
    cbn [invoke subscribers]. rewrite Hs0.
    apply tableTracked_deliverAll. by apply (tableTracked_grow d).
  - by apply (tableTracked_frame d).
Qed.

Lemma tableTracked_listen (ev : Ev) (d : D) :
  tableTracked d -> tableTracked (listen hasMethod ev d).
Proof.
  intros Hinv. destruct ev as [message sync|s sig| |]; cbn [listen].
  - by apply tableTracked_onMessage.
  - by apply tableTracked_deliver.
  - by apply tableTracked_onClose.
  - by apply tableTracked_onClose.
Qed.

Lemma tableTracked_play (ms : list Mo) (d : D) :
  tableTracked d -> tableTracked (play hasMethod ms d).
Proof.
  revert d. induction ms as [|m ms IH]; intros d Hinv; [exact Hinv|].
  rewrite play_cons. apply IH. destruct m as [ev|]; cbn [moment].
  - by apply tableTracked_listen.
  - by apply tableOpen_tracked, tableTracked_tick.
Qed.

(** After [unsubscribe()] was called on every value of the table, the
    end of the tick leaves the table empty. *)
Lemma unsubscribeAll_empties (d : D) :
  tableTracked d ->
  forall id, subscriptions (runNextTick (unsubscribeAll d)) !! id = None.
Proof.
  intros Hinv id. cbn. rewrite foldl_delete_lookup.
  destruct (unsubscribe_values_queue (map_to_list (subscriptions d)) d)
    as (Hall & _ & Ht).
  { intros i s Hin. apply elem_of_map_to_list in Hin. exact (Hinv i s Hin). }
  fold (unsubscribeAll d) in Hall, Ht. rewrite Ht.
  destruct (subscriptions d !! id) as [s|] eqn:Hl;
    [|by destruct (bool_decide (id ∈ nextTick (unsubscribeAll d)))].
  rewrite bool_decide_eq_true_2; [reflexivity|].
  apply (Hall id s). by apply elem_of_map_to_list.
Qed.

Lemma onClose_empties (errorMessage : string) (d : D) :
  tableTracked d ->
  forall id, subscriptions (runNextTick (onClose errorMessage d)) !! id = None.
Proof.
  intros Hinv id. pose proof (unsubscribeAll_empties d Hinv id) as Hn.
  unfold onClose. by destruct (initialized (unsubscribeAll d)).
Qed.

(** X27: whatever messages, signals and stream events follow the
    registration of the handler, and wherever the ticks end between
    them, every entry of the table of subscriptions leads to a
    subscription of a request with the entry's id that is open or whose
    entry is queued for deletion; when the tick ends, every entry that
    is left leads to an open subscription; and when the tick of an
    [exit] message, of the closing of the stream or of an error on it
    ends, the table is empty. *)
Theorem table_entries_open_or_queued (ms : list Mo) :
  let d := play hasMethod ms registerLanguageHandler in
  (forall id s, subscriptions d !! id = Some s ->
     exists sub method,
       subscribers d !! s = Some sub /\ purpose sub = ForRequest id method /\
       (closed sub = false \/ id ∈ nextTick d)) /\
  (forall id s, subscriptions (runNextTick d) !! id = Some s ->
     exists sub method,
       subscribers (runNextTick d) !! s = Some sub /\
       purpose sub = ForRequest id method /\ closed sub = false) /\
  (forall (params : Params) (sync : list Sig),
     subscriptions
       (runNextTick
          (listen hasMethod (Receive (NotificationMessage "exit" params) sync) d))
     = ∅) /\
  subscriptions (runNextTick (listen hasMethod Close d)) = ∅ /\
  subscriptions (runNextTick (listen hasMethod StreamError d)) = ∅.
Proof.
  intros d.
  assert (Hinv : tableTracked d).
  { apply tableTracked_play. intros id s Hl.
    change (subscriptions registerLanguageHandler) with (∅ : gmap RequestId SubId) in Hl.
    by rewrite lookup_empty in Hl. }
  split; [exact Hinv|]. split; [exact (tableTracked_tick d Hinv)|].
  split; [|split].
  - intros params sync. apply map_empty. intros id.
    exact (unsubscribeAll_empties d Hinv id).
  - apply map_empty. intros id. by apply onClose_empties.
  - apply map_empty. intros id. by apply onClose_empties.
Qed.

End WireFacts.

Section PositionFacts.
Import Positions.
Local Open Scope Z_scope.

Lemma charAt_drop (file : list N) (n : nat) :
  charAt file (Z.of_nat n) = head (drop n file).
Proof.
  unfold charAt. destruct (Z.ltb_spec (Z.of_nat n) 0) as [Hlt|_]; [lia|].
  rewrite Nat2Z.id. revert n. induction file as [|c file IH]; intros [|n]; cbn; auto.
Qed.

Lemma isEOL_drop (file : list N) (n : nat) :
  isEOL file (Z.of_nat n) = eolLength (drop n file).
Proof.
  unfold isEOL.
  replace (Z.of_nat n + 1) with (Z.of_nat (S n)) by lia.
  rewrite !charAt_drop.
  assert (Hnext : drop (S n) file = tail (drop n file)).
  { clear. revert n. induction file as [|c file IH]; intros n.
    - by rewrite !drop_nil.
    - destruct n as [|n]; [by rewrite drop_0 | exact (IH n)]. }
  rewrite Hnext.
  assert (Hlen : (Z.of_nat (S n) <? Z.of_nat (length file)) = true \/
                 tail (drop n file) = []).
  { destruct (Z.ltb_spec (Z.of_nat (S n)) (Z.of_nat (length file))) as [?|Hge];
      [by left|right].
    rewrite <- Hnext. apply drop_ge. lia. }
  destruct (drop n file) as [|c rest]; cbn [head tail eolLength].
  - rewrite !bool_decide_eq_false_2 by discriminate. reflexivity.
  - destruct (N.eqb_spec c LF) as [->|Hlf].
    + by rewrite bool_decide_eq_true_2.
    + rewrite bool_decide_eq_false_2 by congruence.
      destruct (N.eqb_spec c CR) as [->|Hcr].
      * rewrite bool_decide_eq_true_2 by reflexivity.
        destruct rest as [|c' rest']; cbn [head].
        -- rewrite (bool_decide_eq_false_2 (None = Some LF)) by discriminate.
           by rewrite andb_false_r.
        -- destruct Hlen as [->|?]; [|discriminate]. cbn [andb].
           destruct (N.eqb_spec c' LF) as [->|Hne].
           ++ by rewrite bool_decide_eq_true_2.
           ++ rewrite bool_decide_eq_false_2 by congruence. reflexivity.
      * rewrite bool_decide_eq_false_2 by congruence. reflexivity.
Qed.

Lemma drop_cons_next (file : list N) (n : nat) (c : N) (rest : list N) :
  drop n file = c :: rest -> drop (S n) file = rest /\ (n < length file)%nat.
Proof.
  revert n. induction file as [|x file IH]; intros n Hd.
  - by rewrite drop_nil in Hd.
  - destruct n as [|n].
    + rewrite drop_0 in Hd. injection Hd as -> ->. cbn. split; [by rewrite drop_0 | lia].
    + destruct (IH n Hd) as [Hr Hlt]. split; [exact Hr | cbn; lia].
Qed.

Lemma visibleCount_nonneg (l : list N) : 0 <= visibleCount l.
Proof. unfold visibleCount. lia. Qed.

Lemma visibleCount_cons (c : N) (l : list N) :
  visibleCount (c :: l) = (if visible c then 1 else 0) + visibleCount l.
Proof.
  unfold visibleCount. cbn [List.filter]. destruct (visible c); cbn [length]; lia.
Qed.

(** The loop of [absoluteOffsetToPosition] leaves a positive offset
    exactly when the rest of the file has fewer code units that are no
    line terminators. *)
Lemma offsetLoop_exhausts (file : list N) (fuel n : nat)
    (offset line lineOffset : Z) :
  (length file - n <= fuel)%nat ->
  0 < (offsetLoop fuel file (Z.of_nat n) offset line lineOffset).1.1.2
  <-> visibleCount (drop n file) < offset.
Proof.
  revert n offset line lineOffset.
  induction fuel as [|fuel IH]; intros n offset line lineOffset Hfuel.
  - cbn. rewrite drop_ge by lia. unfold visibleCount. cbn. lia.
  - cbn [offsetLoop].
    destruct (Z.ltb_spec (Z.of_nat n) (Z.of_nat (length file))) as [Hn|Hn];
      cbn [andb].
    2:{ cbn. rewrite drop_ge by lia. unfold visibleCount. cbn. lia. }
    destruct (Z.ltb_spec 0 offset) as [Hoff|Hoff].
    2:{ cbn. pose proof (visibleCount_nonneg (drop n file)). lia. }
    rewrite isEOL_drop.
    destruct (drop n file) as [|c rest] eqn:Hd.
    { apply (f_equal length) in Hd. rewrite length_drop in Hd. cbn in Hd. lia. }
    destruct (drop_cons_next file n c rest Hd) as [Hd1 Hlt].
    rewrite visibleCount_cons. unfold visible. cbn [eolLength].
    destruct (N.eqb_spec c LF) as [->|Hlf]; cbn [orb negb].
    + change (0 <? 1) with true. cbn iota.
      replace (Z.of_nat n + (1 - 1) + 1) with (Z.of_nat (S n)) by lia.
      rewrite IH by lia. rewrite Hd1. lia.
    + destruct (N.eqb_spec c CR) as [->|Hcr]; cbn [orb negb].
      * destruct rest as [|c' rest'].
        -- change (0 <? 1) with true. cbn iota.
           replace (Z.of_nat n + (1 - 1) + 1) with (Z.of_nat (S n)) by lia.
           rewrite IH by lia. rewrite Hd1. lia.
        -- destruct (N.eqb_spec c' LF) as [->|Hne].
           ++ change (0 <? 2) with true. cbn iota.
              replace (Z.of_nat n + (2 - 1) + 1) with (Z.of_nat (S (S n))) by lia.
              destruct (drop_cons_next file (S n) LF rest' Hd1) as [Hd2 Hlt2].
              rewrite IH by lia. rewrite Hd2, visibleCount_cons. cbn. lia.
           ++ change (0 <? 1) with true. cbn iota.
              replace (Z.of_nat n + (1 - 1) + 1) with (Z.of_nat (S n)) by lia.
              rewrite IH by lia. rewrite Hd1. lia.
      * change (0 <? 0) with false. cbn iota.
        replace (Z.of_nat n + 1) with (Z.of_nat (S n)) by lia.
        rewrite IH by lia. rewrite Hd1. lia.
Qed.

(** X28: offsets count the code units that are no line terminators:
    [absoluteOffsetToPosition], started at an index inside the file,
    returns [null] exactly when the offset is larger than the number of
    code units after that index that are neither a line feed nor a
    carriage return. *)
Theorem absoluteOffsetToPosition_null_iff (file : list N) (offset : Z)
    (startIndex : nat) :
  absoluteOffsetToPosition file offset (Z.of_nat startIndex) = None
  <-> visibleCount (drop startIndex file) < offset.
Proof.
  unfold absoluteOffsetToPosition.
  pose proof (offsetLoop_exhausts file
                (Z.to_nat (Z.of_nat (length file) - Z.of_nat startIndex))
                startIndex offset 0 0) as Hloop.
  destruct (offsetLoop _ file (Z.of_nat startIndex) offset 0 0)
    as [[[i offset'] line'] lineOffset'].
  cbn in Hloop. rewrite <- Hloop by lia.
  destruct (Z.ltb_spec 0 offset'); split; intros; try done; lia.
Qed.

Lemma positionLoop_done (fuel : nat) (file : list N) (i line offset : Z) :
  line <= 0 -> positionLoop fuel file i line offset = (line, offset).
Proof.
  intros Hl. destruct fuel as [|fuel]; [reflexivity|]. cbn [positionLoop].
  destruct (Z.ltb_spec 0 line); [lia|]. by rewrite andb_false_r.
Qed.

Lemma noCRLF_drop (file : list N) (n : nat) :
  noCRLF file = true -> noCRLF (drop n file) = true.
Proof.
  revert n. induction file as [|c file IH]; intros n Hno.
  - by rewrite drop_nil.
  - destruct n as [|n]; [by rewrite drop_0|].
    cbn [noCRLF] in Hno. apply andb_true_iff in Hno as [_ Hno]. exact (IH n Hno).
Qed.

Lemma noCRLF_eolLength (c : N) (rest : list N) :
  noCRLF (c :: rest) = true ->
  eolLength (c :: rest) = if visible c then 0 else 1.
Proof.
  cbn [noCRLF eolLength]. unfold visible. intros Hno.
  apply andb_true_iff in Hno as [Hno _].
  destruct (N.eqb c LF); [reflexivity|].
  destruct (N.eqb c CR); cbn [orb negb] in *; [|reflexivity].
  destruct rest as [|c' rest']; [reflexivity|].
  cbn [andb] in Hno. by destruct (N.eqb c' LF).
Qed.

(** In a file without CR-LF pairs, the position that the one loop
    reaches is taken back to the offset by the other. *)
Lemma round_trip_loop (file : list N) (fuel n : nat)
    (offset line lineOffset i' offset' line' lineOffset' : Z) :
  noCRLF file = true ->
  0 <= offset ->
  (length file - n <= fuel)%nat ->
  offsetLoop fuel file (Z.of_nat n) offset line lineOffset
    = (i', offset', line', lineOffset') ->
  offset' <= 0 ->
  line <= line' /\
  (line' = line -> lineOffset' = lineOffset + offset) /\
  (line < line' ->
   forall (fuelP : nat) (base : Z),
     (length file - n + Z.to_nat (line' - line) <= fuelP)%nat ->
     positionLoop fuelP file (Z.of_nat n) (line' - line) base
       = (0, base + offset - lineOffset')).
Proof.
  intros Hno. revert n offset line lineOffset.
  induction fuel as [|fuel IH]; intros n offset line lineOffset Hoff Hfuel Hloop Hdone.
  - cbn in Hloop. injection Hloop as <- <- <- <-.
    repeat split; intros; lia.
  - cbn [offsetLoop] in Hloop.
    destruct (Z.ltb_spec (Z.of_nat n) (Z.of_nat (length file))) as [Hn|Hn];
      cbn [andb] in Hloop.
    2:{ injection Hloop as <- <- <- <-. repeat split; intros; lia. }
    destruct (Z.ltb_spec 0 offset) as [Hpos|Hpos].
    2:{ injection Hloop as <- <- <- <-. repeat split; intros; lia. }
    rewrite isEOL_drop in Hloop.
    destruct (drop n file) as [|c rest] eqn:Hd.
    { apply (f_equal length) in Hd. rewrite length_drop in Hd. cbn in Hd. lia. }
    destruct (drop_cons_next file n c rest Hd) as [Hd1 Hlt].
    pose proof (noCRLF_eolLength c rest) as Heol.
    rewrite <- Hd in Heol. specialize (Heol (noCRLF_drop file n Hno)).
    rewrite Hd in Heol. rewrite Heol in Hloop.
    assert (Hpos_step : forall (fuelP : nat) (line0 base : Z),
              0 < line0 -> (length file - n <= fuelP)%nat ->
              positionLoop fuelP file (Z.of_nat n) line0 base =
                if visible c
                then positionLoop (fuelP - 1) file (Z.of_nat (S n)) line0 (base + 1)
                else positionLoop (fuelP - 1) file (Z.of_nat (S n)) (line0 - 1) base).
    { intros fuelP line0 base Hl0 HfuelP.
      destruct fuelP as [|fuelP]; [lia|]. cbn [positionLoop].
      destruct (Z.ltb_spec (Z.of_nat n) (Z.of_nat (length file))); [|lia].
      destruct (Z.ltb_spec 0 line0); [|lia]. cbn [andb].
      rewrite isEOL_drop, Hd, Heol. replace (S fuelP - 1)%nat with fuelP by lia.
      destruct (visible c).
      - change (0 <? 0) with false. cbn iota.
        by replace (Z.of_nat n + 1) with (Z.of_nat (S n)) by lia.
      - change (0 <? 1) with true. cbn iota.
        by replace (Z.of_nat n - (1 - 1) + 1) with (Z.of_nat (S n)) by lia. }
    destruct (visible c) eqn:Hvis.
    + change (0 <? 0) with false in Hloop. cbn iota in Hloop.
      replace (Z.of_nat n + 1) with (Z.of_nat (S n)) in Hloop by lia.
      destruct (IH (S n) (offset - 1) line (lineOffset + 1)) as (H1 & H2 & H3);
        [lia|lia|exact Hloop|exact Hdone|].
      split; [exact H1|]. split; [intros ?; rewrite H2 by done; lia|].
      intros Hlt' fuelP base HfuelP. rewrite Hpos_step by lia.
      rewrite H3 by lia. f_equal. lia.
    + change (0 <? 1) with true in Hloop. cbn iota in Hloop.
      replace (Z.of_nat n + (1 - 1) + 1) with (Z.of_nat (S n)) in Hloop by lia.
      destruct (IH (S n) offset (line + 1) 0) as (H1 & H2 & H3);
        [lia|lia|exact Hloop|exact Hdone|].
      split; [lia|]. split; [intros ?; lia|].
      intros Hlt' fuelP base HfuelP. rewrite Hpos_step by lia.
      destruct (Z.eq_dec line' (line + 1)) as [->|Hne].
      * rewrite positionLoop_done by lia. rewrite H2 by reflexivity.
        f_equal; lia.
      * replace (line' - line - 1) with (line' - (line + 1)) by lia.
        rewrite H3 by lia. reflexivity.
Qed.

(** X29: in a file without CR-LF pairs, [positionToAbsoluteOffset]
    takes the position that [absoluteOffsetToPosition] returns for an
    offset that is not negative back to that offset. *)
Theorem position_round_trip (file : list N) (offset : Z) (position : Position) :
  noCRLF file = true ->
  0 <= offset ->
  absoluteOffsetToPosition file offset 0 = Some position ->
  positionToAbsoluteOffset file position = Some offset.
Proof.
  intros Hno Hoff. unfold absoluteOffsetToPosition, positionToAbsoluteOffset.
  destruct (offsetLoop _ file 0 offset 0 0) as [[[i' offset'] line'] lineOffset']
    eqn:Hloop.
  destruct (Z.ltb_spec 0 offset') as [?|Hdone]; [discriminate|].
  intros [= <-]. cbn [line character].
  destruct (round_trip_loop file (Z.to_nat (Z.of_nat (length file) - 0)) 0
              offset 0 0 i' offset' line' lineOffset' Hno Hoff)
    as (H1 & H2 & H3); [lia|exact Hloop|exact Hdone|].
  destruct (Z.eq_dec line' 0) as [->|Hne].
  - rewrite positionLoop_done by lia. cbn. f_equal. lia.
  - specialize (H3 ltac:(lia) (length file + Z.to_nat line')%nat 0 ltac:(lia)).
    replace (line' - 0) with line' in H3 by lia.
    change (Z.of_nat 0) with 0 in H3. rewrite H3. cbn. f_equal. lia.
Qed.

Lemma visible_eolLength (c : N) (rest : list N) :
  visible c = true -> eolLength (c :: rest) = 0.
Proof.
  unfold visible. cbn [eolLength].
  destruct (N.eqb c LF); [discriminate|]. by destruct (N.eqb c CR).
Qed.

Lemma positionLoop_crlf (pre rest : list N) (fuel k : nat) (line offset : Z) :
  forallb visible pre = true ->
  (k <= length pre)%nat ->
  0 <= line ->
  (length pre - k + Z.to_nat line <= fuel)%nat ->
  positionLoop fuel (pre ++ CR :: LF :: rest) (Z.of_nat k) line offset
    = (0, if line =? 0 then offset
          else offset + Z.of_nat (length pre) - Z.of_nat k).
Proof.
  intros Hvis. revert k line offset.
  induction fuel as [|fuel IH]; intros k line offset Hk Hline Hfuel.
  - assert (line = 0) as -> by lia. reflexivity.
  - destruct (Z.eq_dec line 0) as [->|Hne]; [by rewrite positionLoop_done|].
    destruct (Z.eqb_spec line 0) as [?|_]; [lia|].
    cbn [positionLoop].
    destruct (Z.ltb_spec (Z.of_nat k)
                (Z.of_nat (length (pre ++ CR :: LF :: rest)))) as [_|Hge].
    2:{ rewrite length_app in Hge. cbn in Hge. lia. }
    destruct (Z.ltb_spec 0 line); [|lia]. cbn [andb].
    rewrite isEOL_drop.
    destruct (decide (k = length pre)) as [->|Hlt].
    + rewrite drop_app_length.
      change (eolLength (CR :: LF :: rest)) with 2.
      change (0 <? 2) with true. cbn iota.
      replace (Z.of_nat (length pre) - (2 - 1) + 1) with (Z.of_nat (length pre)) by lia.
      rewrite IH by lia.
      destruct (Z.eqb_spec (line - 1) 0); f_equal; lia.
    + destruct (lookup_lt_is_Some_2 pre k) as [c Hc]; [lia|].
      assert (Hd : drop k (pre ++ CR :: LF :: rest)
                   = c :: drop (S k) pre ++ CR :: LF :: rest).
      { rewrite drop_app_le by lia. by rewrite (drop_S pre c k Hc). }
      rewrite Hd, visible_eolLength.
      * change (0 <? 0) with false. cbn iota.
        replace (Z.of_nat k + 1) with (Z.of_nat (S k)) by lia.
        rewrite IH by lia.
        destruct (Z.eqb_spec line 0); [lia|]. f_equal. lia.
      * rewrite forallb_forall in Hvis. apply Hvis.
        apply list_elem_of_In. by eapply list_elem_of_lookup_2.
Qed.

(** X30: a CR-LF pair ends the search of [positionToAbsoluteOffset]: the
    loop steps back on the pair and takes one line off at each round,
    so when the first line terminator of a file is a CR-LF pair, every
    position on a later line, whatever its line number and whatever
    follows the pair, is taken to the offset of the pair plus the
    position's character. *)
Theorem crlf_ends_position_search (pre rest : list N) (position : Position) :
  forallb visible pre = true ->
  1 <= line position ->
  positionToAbsoluteOffset (pre ++ CR :: LF :: rest) position
    = Some (Z.of_nat (length pre) + character position).
Proof.
  intros Hvis Hline. unfold positionToAbsoluteOffset.
  change 0 with (Z.of_nat 0) at 1.
  rewrite (positionLoop_crlf pre rest _ 0 (line position) 0 Hvis).
  - destruct (Z.eqb_spec (line position) 0); [lia|]. cbn. f_equal. lia.
  - lia.
  - lia.
  - rewrite length_app. cbn. lia.
Qed.

End PositionFacts.

Section WireExamples.
Import Connection Wire Sample.

Lemma timing_of_signals_is_invisible_witness :
  written
    (run (H := libraries) serviceMethods
       [Receive completion [Next P1]; Emit 0 (Next P2); Emit 0 Complete]
       streamingDispatcher)
  = written
      (step (H := libraries) serviceMethods
         (Receive completion [Next P1; Next P2; Complete]) streamingDispatcher).
Proof.
  exact (proj1 (timing_of_signals_is_invisible (H := libraries) serviceMethods
                  streamingDispatcher completion "textDocument/completion" noParams
                  [Next P1] [Next P2; Complete]
                  (or_intror (ex_intro _ (IdNumber 1) eq_refl))
                  eq_refl eq_refl eq_refl)).
Defined.

Lemma plain_peer_gets_only_the_result_witness :
  streaming (@registerLanguageHandler Scalar RootPatch MessageParams) = false /\
  written
    (run (H := libraries) serviceMethods
       [Receive completion [Next P1]; Emit 0 (Next P2); Emit 0 Complete]
       registerLanguageHandler)
  = [ResultResponse (IdNumber 1) (SNumber 2)].
Proof.
  split; [reflexivity|].
  exact (plain_peer_gets_only_the_result (H := libraries) serviceMethods
           registerLanguageHandler (IdNumber 1) "textDocument/completion" noParams
           [P1; P2] (SNumber 2) [Next P1] [Next P2; Complete]
           eq_refl eq_refl eq_refl eq_refl eq_refl eq_refl).
Defined.

Lemma stream_error_gives_error_response_witness :
  written
    (run (H := libraries) serviceMethods
       [Receive completion [Next P1];
        Emit 0 (Error {| failureMessage := "disk"; failureCode := Some 7%Z |});
        Emit 0 (Next P2)]
       streamingDispatcher)
  = [PartialResult (IdNumber 1) [P1];
     ErrorResponse (IdNumber 1) "disk" 7 (Some SNull)].
Proof.
  exact (stream_error_gives_error_response (H := libraries) serviceMethods
           streamingDispatcher (IdNumber 1) "textDocument/completion" noParams
           [P1] (SNumber 1) {| failureMessage := "disk"; failureCode := Some 7%Z |}
           [Next P2] [Next P1]
           [Error {| failureMessage := "disk"; failureCode := Some 7%Z |}; Next P2]
           eq_refl eq_refl eq_refl eq_refl eq_refl).
Defined.

Lemma refused_patch_gives_error_response_witness :
  applyReducer (Libraries := libraries) (SNumber 2) failingTest
    = inl {| failureMessage := "Test operation failed"; failureCode := None |} /\
  written
    (run (H := libraries) serviceMethods
       [Receive completion [Next P2]; Emit 0 (Next failingTest); Emit 0 Complete]
       streamingDispatcher)
  = [PartialResult (IdNumber 1) [P2]; PartialResult (IdNumber 1) [failingTest];
     ErrorResponse (IdNumber 1) "Test operation failed" UnknownErrorCode
       (Some SNull)].
Proof.
  split; [reflexivity|].
  exact (refused_patch_gives_error_response (H := libraries) serviceMethods
           streamingDispatcher (IdNumber 1) "textDocument/completion" noParams
           [P2] (SNumber 2) failingTest
           {| failureMessage := "Test operation failed"; failureCode := None |}
           [Complete] [Next P2] [Next failingTest; Complete]
           eq_refl eq_refl eq_refl eq_refl eq_refl eq_refl).
Defined.

Lemma unknown_method_is_refused_witness :
  serviceMethods (camelCase (Libraries := libraries) "textDocument/hover") = false /\
  written
    (step (H := libraries) serviceMethods
       (Receive (RequestMessage (IdNumber 2) "textDocument/hover" noParams) [])
       streamingDispatcher)
  = [ErrorResponse (IdNumber 2) "Method textDocumentHover not implemented"
       MethodNotFound None].
Proof.
  split; [reflexivity|].
  exact (proj1 (proj1 (unknown_method_is_refused (H := libraries) serviceMethods
                         streamingDispatcher (IdNumber 2) "textDocument/hover"
                         noParams [] eq_refl eq_refl eq_refl))).
Defined.

Lemma notification_is_never_answered_witness :
  written
    (run (H := libraries) serviceMethods
       [Receive (NotificationMessage "workspace/didChangeConfiguration" noParams)
          [Error {| failureMessage := "bad settings"; failureCode := None |}]]
       streamingDispatcher)
  = [].
Proof.
  exact (notification_is_never_answered (H := libraries) serviceMethods
           streamingDispatcher "workspace/didChangeConfiguration" noParams
           [Error {| failureMessage := "bad settings"; failureCode := None |}] []
           eq_refl).
Defined.

Lemma stream_end_shuts_down_once_witness :
  initialized streamingDispatcher = true /\
  invoked (run (H := libraries) serviceMethods [StreamError; Close] streamingDispatcher)
  = [("shutdown", None)].
Proof.
  split; [reflexivity|].
  exact (proj1 (stream_end_shuts_down_once (H := libraries) serviceMethods
                  StreamError [Close] streamingDispatcher eq_refl)).
Defined.

Lemma table_holds_request_until_tick_witness :
  subscriptions
    (listen (H := libraries) serviceMethods
       (Receive completion [Next P1; Complete]) streamingDispatcher)
    !! IdNumber 1 = Some 0 /\
  written
    (play (H := libraries) serviceMethods
       [Hear (Receive completion [Next P1; Complete]); Hear (Receive cancel []); Tick]
       streamingDispatcher)
  = [PartialResult (IdNumber 1) [P1]; ResultResponse (IdNumber 1) (SNumber 1);
     ErrorResponse (IdNumber 1) "Request cancelled" RequestCancelled None].
Proof.
  pose proof (table_holds_request_until_tick (H := libraries) serviceMethods
                streamingDispatcher (IdNumber 1) "textDocument/completion" noParams
                [Next P1; Complete] [Tick] eq_refl eq_refl eq_refl
                (not_elem_of_nil (IdNumber 1)) eq_refl) as (Hentry & Hcancel & _).
  split; [exact Hentry|].
  exact (Hcancel (cancelOf (IdNumber 1)) [] eq_refl).
Defined.

End WireExamples.

Section PositionExamples.
Import Positions.
Local Open Scope Z_scope.

Lemma position_round_trip_witness :
  absoluteOffsetToPosition [97; 10; 98]%N 2 0
    = Some {| line := 1; character := 1; lastIndex := Some 3 |} /\
  positionToAbsoluteOffset [97; 10; 98]%N
    {| line := 1; character := 1; lastIndex := Some 3 |} = Some 2.
Proof.
  split; [reflexivity|].
  exact (position_round_trip [97; 10; 98]%N 2
           {| line := 1; character := 1; lastIndex := Some 3 |}
           eq_refl ltac:(lia) eq_refl).
Defined.

Lemma crlf_ends_position_search_witness :
  positionToAbsoluteOffset [97; 13; 10; 98; 10; 99]%N
    {| line := 2; character := 0; lastIndex := None |} = Some 1.
Proof.
  exact (crlf_ends_position_search [97]%N [98; 10; 99]%N
           {| line := 2; character := 0; lastIndex := None |}
           eq_refl ltac:(cbn; lia)).
Defined.

End PositionExamples.
